(** * Verification of the NumPy-backed Dataset (fileio/numpy.py)

    A shallow embedding of the [NumPy] concrete [Data] class: the
    constructor, [from_df], [set_N], [randomise_names], [marginals],
    [marginals_safe], [values] and [as_df], followed by the properties of
    the Dataset component that the specification states about them, and
    by further properties of the class.

    Modelling conventions
    - Python exceptions are values of [exn]; a method that can raise
      returns a [result].  Methods that assign to [self] take the instance
      and return the updated instance.
    - A [dict] is an insertion-ordered association list with Python's
      update semantics ([Dict.set] keeps the position of an existing key).
    - A 2-D [ndarray] is a dtype tag, a column count and a list of rows.
      Cells are natural numbers: the code of a category for [uint8], and
      the 32-bit pattern of the value for [float32] (the class only moves
      floating point values around, it never computes with them).
    - The argument type checks ([isinstance]) are discharged by the types
      of the embedding; [print] and [Timing] calls have no influence on
      results and are left out.
    - Counts are integers: exact in the single-variable table of
      [marginals] ([dtype=int]), wrapped to 32 bits where the code stores
      them in an [int32] array.
    - Dataframe cells are present and the values of a category column
      are strings: missing values and category values of other types,
      which the class rejects, are not modelled.
    - Dataset kinds are [categorical] and [continuous]; ['mixed'] is
      rejected by [read] and is not modelled.
    - [read] is [from_df] behind the file system and the CSV parser of
      pandas, which are not modelled.
    - The [array] of the tuples of categories is indexed as the tuples
      are: [categories[j][v]] is label [v] of column [j], also when the
      tuples differ in length (an array of objects, as numpy before 1.24
      builds it).
    - In [as_df], assigning a [Categorical] to a whole column through
      [iloc] replaces the column, whose dtype becomes category (pandas
      before 2.0). *)

From stdpp Require Import gmap strings list fin_maps sorting.
From Stdlib Require Import ZArith Lia.

Local Open Scope string_scope.
Local Open Scope list_scope.

(** ** Exceptions *)

Inductive exn :=
| TypeError (msg : string)
| ValueError (msg : string)
| KeyError
| IndexError.

Inductive result (A : Type) :=
| Ok (a : A)
| Raise (e : exn).
Arguments Ok {A} a.
Arguments Raise {A} e.

#[global] Instance exn_eq_dec : EqDecision exn.
Proof. solve_decision. Defined.

#[global] Instance result_eq_dec {A} `{EqDecision A} : EqDecision (result A).
Proof. solve_decision. Defined.

#[global] Instance result_ret : MRet result := fun A a => Ok a.
#[global] Instance result_bind : MBind result :=
  fun A B f m => match m with Ok a => f a | Raise e => Raise e end.
#[global] Instance result_fmap : FMap result :=
  fun A B f m => match m with Ok a => Ok (f a) | Raise e => Raise e end.

(** [o ?! e] is the value of [o], raising [e] when there is none. *)
Definition or_raise {A} (o : option A) (e : exn) : result A :=
  match o with Some a => Ok a | None => Raise e end.
Infix "?!" := or_raise (at level 60).

(** ** Python dictionaries *)

Module Dict.
Section Dict.
Context {K V : Type} `{EqDecision K}.

Fixpoint get (d : list (K * V)) (k : K) : option V :=
  match d with
  | [] => None
  | (k', v) :: d' => if decide (k = k') then Some v else get d' k
  end.

Fixpoint set (d : list (K * V)) (k : K) (v : V) : list (K * V) :=
  match d with
  | [] => [(k, v)]
  | (k', v') :: d' =>
      if decide (k = k') then (k', v) :: d' else (k', v') :: set d' k v
  end.

Definition keys (d : list (K * V)) : list K := d.*1.
Definition values (d : list (K * V)) : list V := d.*2.

(** [{k: v for k, v in items}] *)
Definition of_items (items : list (K * V)) : list (K * V) :=
  fold_left (fun d kv => set d kv.1 kv.2) items [].

(** [d[k]] *)
Definition item (d : list (K * V)) (k : K) : result V :=
  get d k ?! KeyError.
End Dict.
End Dict.

Abbreviation dict K V := (list (K * V)) (only parsing).

(** ** The parts of numpy and pandas that the class uses *)

#[global] Instance Z_gt_dec' (x y : Z) : Decision (x > y)%Z := Z_gt_dec x y.
#[global] Instance nat_gt_dec (x y : nat) : Decision (x > y) := gt_dec x y.

Inductive dtype := uint8 | float32.

#[global] Instance dtype_eq_dec : EqDecision dtype.
Proof. solve_decision. Defined.

Record ndarray := mk_ndarray {
  arr_dtype : dtype;
  ncols : nat;
  rows : list (list nat);
}.

Definition shape (a : ndarray) : nat * nat := (length (rows a), ncols a).

(** [a[:n, :]] *)
Definition take_rows (n : nat) (a : ndarray) : ndarray :=
  mk_ndarray (arr_dtype a) (ncols a) (take n (rows a)).

(** [a[order]]: rows picked by index, [IndexError] out of bounds. *)
Definition index_rows (a : ndarray) (order : list nat) : result ndarray :=
  rs ← mapM (fun i => rows a !! i ?! IndexError) order;
  Ok (mk_ndarray (arr_dtype a) (ncols a) rs).

(** [a[:, j]] *)
Definition column (a : ndarray) (j : nat) : result (list nat) :=
  if decide (j < ncols a)
  then mapM (fun r : list nat => r !! j ?! IndexError) (rows a)
  else Raise IndexError.

(** [a[:, js]] for a tuple or list of column indexes. *)
Definition select_columns (a : ndarray) (js : list nat) : result ndarray :=
  if decide (Forall (fun j => j < ncols a) js)
  then rs ← mapM (fun r : list nat =>
                    mapM (fun j => r !! j ?! IndexError) js) (rows a);
       Ok (mk_ndarray (arr_dtype a) (length js) rs)
  else Raise IndexError.

Definition count_nat (v : nat) (x : list nat) : nat :=
  length (filter (fun w => w = v) x).

(** [numpy.bincount(x)]: occurrences of each value [0 .. max x]. *)
Definition bincount (x : list nat) : list nat :=
  match x with
  | [] => []
  | _ => map (fun v => count_nat v x) (seq 0 (S (max_list x)))
  end.

(** [tuple.index(x)] *)
Fixpoint tuple_index {A} `{EqDecision A} (l : list A) (x : A) : result nat :=
  match l with
  | [] => Raise (ValueError "tuple.index(x): x not in tuple")
  | y :: l' => if decide (x = y) then Ok 0 else S <$> tuple_index l' x
  end.

(** [enumerate(l)] *)
Definition enumerate {A} (l : list A) : list (nat * A) :=
  imap (fun i x => (i, x)) l.

(** [sorted(keys)] on strings: ascending code point order. *)
Definition str_le (a b : string) : Prop := String.leb a b = true.

#[global] Instance str_le_dec a b : Decision (str_le a b).
Proof. unfold str_le. apply _. Defined.

Definition sorted (l : list string) : list string := merge_sort str_le l.

(** Lexicographic order on rows of codes, the order of
    [numpy.unique(..., axis=0)]. *)
Fixpoint row_compare (a b : list nat) : comparison :=
  match a, b with
  | [], [] => Eq
  | [], _ :: _ => Lt
  | _ :: _, [] => Gt
  | x :: a', y :: b' =>
      match Nat.compare x y with
      | Eq => row_compare a' b'
      | c => c
      end
  end.

Fixpoint insert_unique (r : list nat) (l : list (list nat)) : list (list nat) :=
  match l with
  | [] => [r]
  | r' :: l' =>
      match row_compare r r' with
      | Lt => r :: r' :: l'
      | Eq => r' :: l'
      | Gt => r' :: insert_unique r l'
      end
  end.

(** [numpy.unique(rows, axis=0)]: the distinct rows, sorted. *)
Definition unique (l : list (list nat)) : list (list nat) :=
  foldr insert_unique [] l.

Definition count_row (r : list nat) (l : list (list nat)) : nat :=
  length (filter (fun r' => r' = r) l).

(** [numpy.unique(rows, axis=0, return_counts=True)] *)
Definition unique_counts (l : list (list nat))
  : list (list nat) * list nat :=
  let u := unique l in (u, map (fun r => count_row r l) u).

(** [zeros((n, m))] *)
Definition zeros (n m : nat) : list (list Z) := replicate n (replicate m 0%Z).

(** Storing a 64-bit count in an [int32] cell keeps the low 32 bits,
    read as a signed number. *)
Definition to_int32 (z : Z) : Z := ((z + 2^31) mod 2^32 - 2^31)%Z.

(** Storing a code in a [uint8] cell keeps the low 8 bits. *)
Definition to_uint8 (n : nat) : nat := n mod 256.

(** [pandas.unique]: distinct values in order of first appearance. *)
Fixpoint pd_unique (l : list string) : list string :=
  match l with
  | [] => []
  | x :: l' => x :: filter (fun y => y ≠ x) (pd_unique l')
  end.

(** [pandas.factorize(values)]: the code of every value and the distinct
    values, numbered in order of first appearance. *)
Definition factorize (values : list string) : list nat * list string :=
  let uniques := pd_unique values in
  (map (fun v => default 0 (fst <$> list_find (fun u => u = v) uniques))
       values,
   uniques).

(** A dataframe column: its dtype and values.  A category column holds
    strings, the only category values that the constructor accepts. *)
Inductive Series :=
| CategorySeries (values : list string)
| Float32Series (values : list nat).

Definition series_dtype (s : Series) : string :=
  match s with
  | CategorySeries _ => "category"
  | Float32Series _ => "float32"
  end.

Definition series_len (s : Series) : nat :=
  match s with
  | CategorySeries v => length v
  | Float32Series v => length v
  end.

(** A dataframe: [len(df)] rows and labelled columns.  Column labels are
    distinct and every column has [len(df)] values ([df_wf]). *)
Record DataFrame := mk_df {
  df_len : nat;
  columns : list (string * Series);
}.

Definition df_wf (df : DataFrame) : Prop :=
  NoDup (columns df).*1 ∧
  Forall (fun c => series_len c.2 = df_len df) (columns df).

#[global] Instance df_wf_dec df : Decision (df_wf df).
Proof. unfold df_wf. apply _. Defined.

(** [df.to_numpy(dtype)] from the columns' numeric values. *)
Definition to_numpy (dt : dtype) (n : nat) (cols : list (list nat))
  : ndarray :=
  let cast := match dt with uint8 => to_uint8 | float32 => id end in
  mk_ndarray dt (length cols)
    (map (fun i => map (fun c : list nat => cast (nth i c 0)) cols)
         (seq 0 n)).

(** [Categorical.from_codes(codes, categories)]: the values that the
    codes stand for.  The categories must be distinct and every code must
    be below their number. *)
Definition from_codes (codes : list nat) (cats : list string)
  : result Series :=
  if decide (¬ NoDup cats)
  then Raise (ValueError "Categorical categories must be unique")
  else if decide (Exists (fun c => (length cats ≤ c)%nat) codes)
  then Raise (ValueError
                "codes need to be between -1 and len(categories)-1")
  else CategorySeries <$> mapM (fun c => cats !! c ?! IndexError) codes.

(** [DataFrame(data=a, columns=names)] before its cells are given their
    dtype: the columns of the array under the names.  There must be as
    many names as columns (the message of pandas gives the two shapes). *)
Definition labelled_columns (a : ndarray) (names : list string)
  : result (list (string * list nat)) :=
  if decide (ncols a ≠ length names)
  then Raise (ValueError "Shape of passed values does not match indices")
  else mapM (fun jn : nat * string => col ← column a jn.1; Ok (jn.2, col))
            (enumerate names).

(** A frame whose columns may have been introduced by [reindex]: such a
    column holds no values. *)
Inductive Column :=
| Present (s : Series)
| Missing.

Record Frame := mk_frame {
  frame_len : nat;
  frame_columns : list (string * Column);
}.

Definition frame_of (df : DataFrame) : Frame :=
  mk_frame (df_len df) (map (fun c => (c.1, Present c.2)) (columns df)).

(** [df.rename(columns=mapping)]: labels that the mapping has are
    replaced. *)
Definition df_rename (df : DataFrame) (mapping : list (string * string))
  : DataFrame :=
  mk_df (df_len df)
        (map (fun c => (default c.1 (Dict.get mapping c.1), c.2))
             (columns df)).

(** [df.reindex(columns=labels)]: the columns with the given labels, in
    the given order; the labels of [df] must be distinct. *)
Definition df_reindex (df : DataFrame) (labels : list string)
  : result Frame :=
  if decide (¬ NoDup (columns df).*1)
  then Raise (ValueError "cannot reindex on an axis with duplicate labels")
  else Ok (mk_frame (df_len df)
             (map (fun l => (l, match Dict.get (columns df) l with
                                | Some s => Present s
                                | None => Missing
                                end)) labels)).

(** [s.head(n)] and [df.head(n)] *)
Definition series_head (n : nat) (s : Series) : Series :=
  match s with
  | CategorySeries v => CategorySeries (take n v)
  | Float32Series v => Float32Series (take n v)
  end.

Definition df_head (n : nat) (df : DataFrame) : DataFrame :=
  mk_df (n `min` df_len df)
        (map (fun c => (c.1, series_head n c.2)) (columns df)).

(** ** The class *)

Inductive DatasetType := categorical | continuous.

#[global] Instance DatasetType_eq_dec : EqDecision DatasetType.
Proof. solve_decision. Defined.

(** maximum number of different values in category *)
Definition MAX_CATEGORY : nat := 100.

Module NumPy.

(** Instance variables of the class. *)
Record t := mk {
  data : ndarray;
  sample : ndarray;
  nodes : list string;
  categories : option (list (list string));
  order : list nat;
  ext_to_orig : dict string string;
  orig_to_ext : dict string string;
  N : Z;
  node_types : dict string string;
  dstype : DatasetType;
  node_values : dict string (dict string nat);
}.

Definition with_sampling (self : t) (n : Z) (s : ndarray)
    (nv : dict string (dict string nat)) : t :=
  mk (data self) s (nodes self) (categories self) (order self)
     (ext_to_orig self) (orig_to_ext self) n (node_types self)
     (dstype self) nv.

Definition with_names (self : t) (nv : dict string (dict string nat))
    (nt : dict string string) : t :=
  mk (data self) (sample self) (nodes self) (categories self) (order self)
     (ext_to_orig self) (orig_to_ext self) (N self) nt (dstype self) nv.

(** [seed is not None and (seed < 0 or seed > 100)] *)
Definition seed_out_of_range (seed : option Z) : Prop :=
  match seed with
  | Some s => (s < 0)%Z ∨ (s > 100)%Z
  | None => False
  end.

#[global] Instance seed_out_of_range_dec seed
  : Decision (seed_out_of_range seed).
Proof. destruct seed; simpl; apply _. Defined.

(** What [marginals] returns: [(counts, maxcol, rowval, colval)]. *)
Definition marginals_t : Type :=
  list (list Z) * nat * option (list string)
  * option (list (dict string string)).

Section Methods.

(** [numpy.random.default_rng(seed).permutation(n)] *)
Variable rng_permutation : Z -> nat -> list nat.

(** [Data._generate_random_names(seed)], inherited from the base class:
    it assigns the name maps of the instance. *)
Variable _generate_random_names : t -> option Z -> result t.

(** The value counts of one column of the sample, keyed by category and
    ordered by category:
    [{categories[v]: c for v, c in enumerate(bincount(col))}] followed by
    [{v: counts[v] for v in sorted(counts)}]. *)
Definition value_counts (cats : list string) (col : list nat)
  : result (dict string nat) :=
  items ← mapM (fun vc : nat * nat =>
                  l ← cats !! vc.1 ?! IndexError; Ok (l, vc.2))
               (enumerate (bincount col));
  let counts := Dict.of_items items in
  items' ← mapM (fun v => c ← Dict.item counts v; Ok (v, c))
                (sorted (Dict.keys counts));
  Ok (Dict.of_items items').

(** The values and counts of the categorical variables in a sample. *)
Definition sample_node_values (self : t) (smpl : ndarray)
  : result (dict string (dict string nat)) :=
  match dstype self with
  | categorical =>
      fold_left
        (fun acc j =>
           nv ← acc;
           col ← column smpl j;
           all_cats ← categories self
             ?! TypeError "'NoneType' object is not subscriptable";
           cats ← all_cats !! j ?! IndexError;
           counts ← value_counts cats col;
           name ← nodes self !! j ?! IndexError;
           Ok (Dict.set nv name counts))
        (seq 0 (shape smpl).2) (Ok [])
  | continuous => Ok []
  end.

(** [self.data if N == self.data.shape[0] else self.data[:N, :]] *)
Definition narrowed (self : t) (n : Z) : ndarray :=
  if decide (n = Z.of_nat (shape (data self)).1) then data self
  else take_rows (Z.to_nat n) (data self).

Definition set_N (self : t) (n : Z) (seed : option Z) : result t :=
  if decide ((n < 1)%Z ∨ (n > Z.of_nat (shape (data self)).1)%Z
             ∨ seed_out_of_range seed)
  then Raise (ValueError "Pandas.set_N() bad arg value")
  else
    let smpl := narrowed self n in
    nv ← sample_node_values self smpl;
    smpl' ← (match seed with
             | Some s =>
                 if decide (s ≠ 0%Z)
                 then index_rows smpl (rng_permutation s (Z.to_nat n))
                 else Ok smpl
             | None => Ok smpl
             end);
    Ok (with_sampling self n smpl' nv).

Definition __init__ (data : ndarray) (dstype : DatasetType)
    (col_values : dict string (option (list string))) : result t :=
  if decide ((dstype = categorical
              ∧ ¬ Forall is_Some (Dict.values col_values))
             ∨ (dstype = continuous
                ∧ ¬ Forall (fun v => v = None) (Dict.values col_values)))
  then Raise (TypeError "NumPy() bad arg type")
  else if decide ((shape data).1 < 2 ∨ (shape data).2 < 2
                  ∨ (shape data).2 ≠ length col_values
                  ∨ (dstype = categorical ∧ arr_dtype data ≠ uint8)
                  ∨ (dstype = continuous ∧ arr_dtype data ≠ float32))
  then Raise (ValueError "NumPy bad arg values")
  else
    let nodes := Dict.keys col_values in
    let node_type :=
      match dstype with
      | categorical => "category"
      | continuous => "float32"
      end in
    categories ← (match dstype with
                  | categorical =>
                      Some <$> mapM (fun n =>
                                 v ← Dict.item col_values n;
                                 v ?! TypeError "NumPy() bad arg type")
                               nodes
                  | continuous => Ok None
                  end);
    set_N (mk data data nodes categories (seq 0 (length nodes))
              (Dict.of_items (map (fun n => (n, n)) nodes))
              (Dict.of_items (map (fun n => (n, n)) nodes))
              0%Z
              (Dict.of_items (map (fun n => (n, node_type)) nodes))
              dstype [])
          (Z.of_nat (shape data).1) None.

(** The loop of [from_df] over the columns of a categorical dataframe:
    every column is replaced by its codes, and [col_values] receives the
    distinct values of the column.  A column that is not of dtype
    category cannot occur here ([from_df] has checked the dtypes); its
    values would not be strings and the constructor would reject them. *)
Definition factorize_columns (cols : list (string * Series))
  : result (list (list nat) * dict string (option (list string))) :=
  fold_left
    (fun acc col =>
       st ← acc;
       match col.2 with
       | CategorySeries vals =>
           let cu := factorize vals in
           if decide (length cu.2 > MAX_CATEGORY)
           then Raise (ValueError "data.read() too many categories")
           else Ok (st.1 ++ [cu.1],
                    Dict.set st.2 col.1 (Some (pd_unique cu.2)))
       | Float32Series _ => Raise (TypeError "NumPy() bad arg type")
       end)
    cols (Ok ([], [])).

Definition from_df (df : DataFrame) (dstype : DatasetType) (keep_df : bool)
  : result t :=
  let dtypes : gset string :=
    list_to_set (map (fun c => series_dtype c.2) (columns df)) in
  if decide (length (columns df) = 1 ∨ df_len df = 1
             ∨ (dstype = categorical ∧ dtypes ≠ {["category"]})
             ∨ (dstype = continuous ∧ dtypes ≠ {["float32"]}))
  then Raise (ValueError "NumPy.from_df() bad arg value")
  else
    match dstype with
    | categorical =>
        st ← factorize_columns (columns df);
        __init__ (to_numpy uint8 (df_len df) st.1) dstype st.2
    | continuous =>
        let col_values :=
          Dict.of_items (map (fun c => (c.1, None)) (columns df)) in
        cols ← mapM (fun c : string * Series =>
                       match c.2 with
                       | Float32Series v => Ok v
                       | CategorySeries _ =>
                           Raise (ValueError
                                    "could not convert string to float")
                       end) (columns df);
        __init__ (to_numpy float32 (df_len df) cols) dstype col_values
    end.

Definition randomise_names (self : t) (seed : option Z) : result t :=
  let old_orig_to_ext := Dict.of_items (orig_to_ext self) in
  self ← _generate_random_names self seed;
  items ← mapM (fun orig =>
                  old ← Dict.item old_orig_to_ext orig;
                  new ← Dict.item (orig_to_ext self) orig;
                  Ok (old, new))
               (Dict.keys (orig_to_ext self));
  let map := Dict.of_items items in
  nv ← mapM (fun e : string * dict string nat =>
               n ← Dict.item map e.1; Ok (n, e.2))
            (node_values self);
  nt ← mapM (fun e : string * string =>
               n ← Dict.item map e.1; Ok (n, e.2))
            (node_types self);
  Ok (with_names self (Dict.of_items nv) (Dict.of_items nt)).

(** [tuple([node] + parents[node]) if node in parents else (node,)] *)
Definition requested (node : string) (parents : gmap string (list string))
  : list string :=
  match parents !! node with
  | Some ps => node :: ps
  | None => [node]
  end.

(** [len(set(nodes) - set(node_values)) != 0
     or len(nodes) != len(set(nodes))] *)
Definition bad_request (self : t) (nodes_ : list string) : Prop :=
  size (list_to_set nodes_
        ∖ list_to_set (Dict.keys (node_values self)) : gset string) ≠ 0
  ∨ length nodes_ ≠ size (list_to_set nodes_ : gset string).

(** [j_reqd]: the column of every requested node. *)
Definition columns_reqd (self : t) (nodes_ : list string)
  : result (list nat) :=
  mapM (fun n => o ← Dict.item (ext_to_orig self) n;
                 tuple_index (nodes self) o) nodes_.

(** [{v: i for i, v in enumerate(l)}] *)
Definition position_of {A} `{EqDecision A} (l : list A) : dict A nat :=
  Dict.of_items (map (fun iv => (iv.2, iv.1)) (enumerate l)).

(** The loop that populates the crosstab-style matrix. *)
Definition populate (combos : list (list nat)) (_counts : list nat)
    (c_value_to_i : dict nat nat) (p_combo_to_j : dict (list nat) nat)
    (counts : list (list Z)) : result (list (list Z)) :=
  fold_left
    (fun acc ic =>
       counts ← acc;
       match ic.2 with
       | [] => Raise (ValueError "not enough values to unpack")
       | c_value :: p_combo =>
           i ← Dict.item c_value_to_i c_value;
           j ← Dict.item p_combo_to_j p_combo;
           c ← _counts !! ic.1 ?! IndexError;
           Ok (alter (fun row => <[j := to_int32 (Z.of_nat c)]> row)
                     i counts)
       end)
    (enumerate combos) (Ok counts).

(** [for p in parents[node]: maxcol *= len(self.node_values[p].keys())] *)
Definition max_columns (self : t) (ps : list string) : result nat :=
  fold_left
    (fun acc p =>
       maxcol ← acc;
       nv ← Dict.item (node_values self) p;
       Ok (maxcol * length (Dict.keys nv)))
    ps (Ok 1).

(** The child value of each row and the parental combination of each
    column. *)
Definition row_col_values (self : t) (j_reqd : list nat)
    (p_combos : list (list nat))
  : result (list string * list (dict string string)) :=
  all_cats ← categories self
    ?! TypeError "'NoneType' object is not subscriptable";
  j0 ← j_reqd !! 0 ?! IndexError;
  rowval ← all_cats !! j0 ?! IndexError;
  colval ← mapM
    (fun c : list nat =>
       items ← mapM
         (fun j =>
            jr ← j_reqd !! j ?! IndexError;
            orig ← nodes self !! jr ?! IndexError;
            ext ← Dict.item (orig_to_ext self) orig;
            cats ← all_cats !! jr ?! IndexError;
            code ← c !! (j - 1) ?! IndexError;
            label ← cats !! code ?! IndexError;
            Ok (ext, label))
         (seq 1 (length j_reqd - 1));
       Ok (Dict.of_items items))
    p_combos;
  Ok (rowval, colval).

Definition marginals (self : t) (node : string)
    (parents : gmap string (list string)) (values_reqd : bool)
  : result marginals_t :=
  let nodes_ := requested node parents in
  if decide (bad_request self nodes_)
  then Raise (ValueError "NumPy.marginals() bad arg value")
  else if decide (length nodes_ = 1)
  then
    nv ← Dict.item (node_values self) node;
    let counts := map (fun c => [Z.of_nat c]) (Dict.values nv) in
    Ok (counts, 1,
        if values_reqd then Some (Dict.keys nv) else None, None)
  else
    j_reqd ← columns_reqd self nodes_;
    num_cats ← mapM (fun n => nv ← Dict.item (node_values self) n;
                              Ok (length nv)) nodes_;
    sel ← select_columns (sample self) j_reqd;
    let cc := unique_counts (rows sel) in
    let combos := cc.1 in
    let _counts := cc.2 in
    nv ← Dict.item (node_values self) node;
    let c_values := seq 0 (length nv) in
    let p_combos := unique (map (drop 1) combos) in
    let c_value_to_i := position_of c_values in
    let p_combo_to_j := position_of p_combos in
    counts ← populate combos _counts c_value_to_i p_combo_to_j
                      (zeros (length c_values) (length p_combos));
    ps ← parents !! node ?! KeyError;
    maxcol ← max_columns self ps;
    if values_reqd
    then rc ← row_col_values self j_reqd p_combos;
         Ok (counts, maxcol, Some rc.1, Some rc.2)
    else Ok (counts, maxcol, None, None).

Definition marginals_safe (self : t) (node : string)
    (parents : gmap string (list string)) (values_reqd : bool)
  : result marginals_t :=
  let nodes_ := requested node parents in
  if decide (bad_request self nodes_)
  then Raise (ValueError "NumPy.marginals() bad arg value")
  else if decide (length nodes_ = 1)
  then
    nv ← Dict.item (node_values self) node;
    let counts := map (fun c => [Z.of_nat c]) (Dict.values nv) in
    Ok (counts, 1,
        if values_reqd then Some (Dict.keys nv) else None, None)
  else
    j_reqd ← columns_reqd self nodes_;
    sel ← select_columns (sample self) j_reqd;
    let cc := unique_counts (rows sel) in
    let combos := cc.1 in
    let _counts := cc.2 in
    nv ← Dict.item (node_values self) node;
    let c_values := seq 0 (length nv) in
    let p_combos := unique (map (drop 1) combos) in
    let c_value_to_i := position_of c_values in
    let p_combo_to_j := position_of p_combos in
    counts ← populate combos _counts c_value_to_i p_combo_to_j
                      (zeros (length c_values) (length p_combos));
    ps ← parents !! node ?! KeyError;
    maxcol ← max_columns self ps;
    if values_reqd
    then rc ← row_col_values self j_reqd p_combos;
         Ok (counts, maxcol, Some rc.1, Some rc.2)
    else Ok (counts, maxcol, None, None).

Definition values (self : t) (nodes_ : list string) : result ndarray :=
  if decide (length nodes_ = 0)
  then Raise (TypeError "Pandas.values() bad arg type")
  else
    let numeric : gset string :=
      list_to_set
        (map fst (filter (fun nt => nt.2 ≠ "category") (node_types self)))
    in
    if decide (length nodes_ ≠ size (list_to_set nodes_ : gset string)
               ∨ size (list_to_set nodes_ ∖ numeric) ≠ 0)
    then Raise (ValueError "Pandas.values() bad arg values")
    else
      js ← mapM (tuple_index (nodes self)) nodes_;
      select_columns (data self) js.

(** [self.orig_to_ext != self.ext_to_orig]: dictionaries are equal when
    they hold the same value under every key. *)
Definition same_dict (a b : dict string string) : Prop :=
  (list_to_map a : gmap string string) = list_to_map b.

#[global] Instance same_dict_dec a b : Decision (same_dict a b).
Proof. unfold same_dict. apply _. Defined.

(** The last step of [as_df]: reorder and rename the columns if
    required.  The new labels are looked up when [reindex] reads them,
    after the renaming; [get_order()] is only printed. *)
Definition reordered (self : t) (df : DataFrame) : result Frame :=
  if decide (order self ≠ seq 0 (shape (data self)).2
             ∨ ¬ same_dict (orig_to_ext self) (ext_to_orig self))
  then
    order ← mapM (fun j => n ← nodes self !! j ?! IndexError;
                           Dict.item (orig_to_ext self) n)
                 (order self);
    df_reindex (df_rename df (orig_to_ext self)) order
  else Ok (frame_of df).

(** The array of a dataset has the dtype of its kind (the constructor
    checks it), so that giving the frame its dtype changes no cell. *)
Definition as_df (self : t) : result Frame :=
  cols ← labelled_columns (sample self) (nodes self);
  cols ← (match dstype self with
          | categorical =>
              mapM (fun jc : nat * (string * list nat) =>
                      all_cats ← categories self
                        ?! TypeError "'NoneType' object is not subscriptable";
                      cats ← all_cats !! jc.1 ?! IndexError;
                      s ← from_codes jc.2.2 cats;
                      Ok (jc.2.1, s))
                   (enumerate cols)
          | continuous => Ok (map (fun c => (c.1, Float32Series c.2)) cols)
          end);
  reordered self (mk_df (shape (sample self)).1 cols).

(** One call of [set_N] after the other. *)
Fixpoint resample (self : t) (calls : list (Z * option Z)) : result t :=
  match calls with
  | [] => Ok self
  | c :: calls' => self' ← set_N self c.1 c.2; resample self' calls'
  end.

End Methods.

(** ** Notions used to state the properties *)

(** The names under which callers know the variables of the dataset. *)
Definition variables (self : t) : list string := Dict.keys (ext_to_orig self).

(** A request names variables of the dataset, each at most once. *)
Definition valid_request (self : t) (nodes_ : list string) : Prop :=
  Forall (fun n => n ∈ variables self) nodes_ ∧ NoDup nodes_.

#[global] Instance valid_request_dec self nodes_
  : Decision (valid_request self nodes_).
Proof. unfold valid_request. apply _. Defined.

(** Every row of an array has as many cells as the array has columns. *)
Definition rectangular (a : ndarray) : Prop :=
  Forall (fun r : list nat => length r = ncols a) (rows a).

#[global] Instance rectangular_dec a : Decision (rectangular a).
Proof. unfold rectangular. apply _. Defined.

Definition Zsum (l : list Z) : Z := foldr Z.add 0%Z l.

(** The sum of all entries of a counts matrix. *)
Definition total (counts : list (list Z)) : Z := Zsum (map Zsum counts).

(** The column that holds variable [n], and the codes that a row has for
    a list of variables. *)
Definition column_of (self : t) (n : string) : option nat :=
  match Dict.get (ext_to_orig self) n with
  | Some o => fst <$> list_find (fun x => x = o) (nodes self)
  | None => None
  end.

Definition code_of (self : t) (n : string) (r : list nat) : nat :=
  default 0 (column_of self n ≫= fun j => r !! j).

Definition codes_of (self : t) (ns : list string) (r : list nat)
  : list nat :=
  map (fun n => code_of self n r) ns.

(** The rows of the sample in which the variables [ns] have the codes
    [codes]. *)
Definition matching (self : t) (ns : list string) (codes : list nat)
  : list (list nat) :=
  filter (fun r => codes_of self ns r = codes) (rows (sample self)).

Definition product (l : list nat) : nat := foldr Nat.mul 1 l.

(** [len(self.node_values[p])]: the number of values that [node_values]
    lists for variable [p] in the current sample. *)
Definition domain_size (self : t) (p : string) : nat :=
  match Dict.get (node_values self) p with
  | Some nv => length nv
  | None => 0
  end.

(** The highest code that variable [p] has in the sample. *)
Definition highest_code (self : t) (p : string) : nat :=
  max_list (map (code_of self p) (rows (sample self))).

(** The number of categories of variable [p]: the length of its tuple of
    categories. *)
Definition num_categories (self : t) (p : string) : nat :=
  default 0 (j ← column_of self p;
             all_cats ← categories self;
             length <$> (all_cats !! j)).

(** The value counts that [set_N] derives for column [j] of a sample. *)
Definition expected_counts (cats : list (list string)) (smpl : ndarray)
    (j : nat) : result (dict string nat) :=
  col ← column smpl j;
  cj ← cats !! j ?! IndexError;
  value_counts cj col.

(** Consistency of the state of a categorical dataset: the sample is a
    rectangular array of [N >= 1] rows with one column per node, every
    node has a tuple of distinct categories, [node_values] holds, in
    node order and under the external name of each node, the value
    counts of its column in the sample, and the two name maps translate
    between external and original names. *)
Definition consistent (self : t) : Prop :=
  dstype self = categorical
  ∧ NoDup (nodes self)
  ∧ ncols (sample self) = length (nodes self)
  ∧ rectangular (sample self)
  ∧ N self = Z.of_nat (length (rows (sample self)))
  ∧ (1 ≤ N self)%Z
  ∧ Forall (fun e => e ∈ Dict.keys (node_values self)) (variables self)
  ∧ match categories self with
    | None => False
    | Some cats =>
        length cats = length (nodes self)
        ∧ Forall NoDup cats
        ∧ Forall2
            (fun (kv : string * dict string nat) (jn : nat * string) =>
               Dict.get (ext_to_orig self) kv.1 = Some jn.2
               ∧ Dict.get (orig_to_ext self) jn.2 = Some kv.1
               ∧ expected_counts cats (sample self) jn.1 = Ok kv.2)
            (node_values self) (enumerate (nodes self))
    end.

#[global] Instance consistent_dec self : Decision (consistent self).
Proof. unfold consistent. destruct (categories self); apply _. Defined.

(** What the constructor establishes and [set_N] relies on. *)
Definition constructed (self : t) : Prop :=
  dstype self = categorical
  ∧ NoDup (nodes self)
  ∧ ncols (data self) = length (nodes self)
  ∧ rectangular (data self)
  ∧ ext_to_orig self = map (fun n => (n, n)) (nodes self)
  ∧ orig_to_ext self = map (fun n => (n, n)) (nodes self)
  ∧ ∃ cats, categories self = Some cats
            ∧ length cats = length (nodes self)
            ∧ Forall NoDup cats.

(** What the inherited [_generate_random_names] may assign: the two name
    maps, and nothing else. *)
Definition assigns_names_only (gen : t -> option Z -> result t) : Prop :=
  ∀ self seed self',
    gen self seed = Ok self' →
    data self' = data self ∧ sample self' = sample self
    ∧ nodes self' = nodes self ∧ categories self' = categories self
    ∧ order self' = order self ∧ N self' = N self
    ∧ node_types self' = node_types self ∧ dstype self' = dstype self
    ∧ node_values self' = node_values self.

(** Every code of the array has a label in the tuple of its column. *)
Definition codes_labelled (dat : ndarray)
    (col_values : list (string * option (list string))) : Prop :=
  Forall (fun jkv : nat * (string * option (list string)) =>
            match jkv.2.2 with
            | Some cats =>
                Forall (fun r : list nat =>
                          (default 0 (r !! jkv.1) < length cats)%nat) (rows dat)
            | None => True
            end)
         (enumerate col_values).

#[global] Instance codes_labelled_dec dat cv : Decision (codes_labelled dat cv).
Proof.
  unfold codes_labelled. apply Forall_dec. intros [j [k [c|]]]; apply _.
Defined.

(** The label that the categories of variable [n] give a code. *)
Definition label_of (self : t) (n : string) (code : nat) : option string :=
  j ← column_of self n;
  all_cats ← categories self;
  cats ← all_cats !! j;
  cats !! code.

(** The name maps translate between the nodes and their external names:
    every key of [orig_to_ext] is a node, every node has an external name
    that [ext_to_orig] maps back to it, and [ext_to_orig] has no other
    key. *)
Definition name_maps_wf (self : t) : Prop :=
  Forall (fun o => o ∈ nodes self) (Dict.keys (orig_to_ext self))
  ∧ Forall (fun o => ∃ e, Dict.get (orig_to_ext self) o = Some e
                          ∧ Dict.get (ext_to_orig self) e = Some o)
           (nodes self)
  ∧ Forall (fun e => ∃ o, o ∈ nodes self
                          ∧ Dict.get (orig_to_ext self) o = Some e)
           (Dict.keys (ext_to_orig self)).

End NumPy.

(** ** Auxiliary definitions *)

(** Occurrences of a value in a list. *)
Definition occ {A} `{EqDecision A} (v : A) (l : list A) : nat :=
  length (filter (fun w => w = v) l).

Definition row_lt (a b : list nat) : Prop := row_compare a b = Lt.

(** A matrix given by its entries: one row per [i < k], one column per
    element of [ps]. *)
Definition table (k : nat) (ps : list (list nat)) (g : nat → list nat → Z)
  : list (list Z) :=
  map (fun i => map (g i) ps) (seq 0 k).

(** The rows [i :: p] for [i < k] and [p] in [ps]. *)
Definition grid (k : nat) (ps : list (list nat)) : list (list nat) :=
  i ← seq 0 k; (fun p => i :: p) <$> ps.

(** The cells of a row at the columns [js]. *)
Definition pick (js : list nat) (r : list nat) : list nat :=
  map (fun j => default 0 (r !! j)) js.

Definition series_values (s : Series) : list string :=
  match s with
  | CategorySeries v => v
  | Float32Series _ => []
  end.

Definition series_cells (s : Series) : list nat :=
  match s with
  | Float32Series v => v
  | CategorySeries _ => []
  end.

Definition column_codes (col : string * Series) : list nat :=
  (factorize (series_values col.2)).1.

Definition column_categories (col : string * Series)
  : string * option (list string) :=
  (col.1, Some (pd_unique (series_values col.2))).

(** ** A small dataset *)

(** A generator that always reverses the rows. *)
Definition reversed (seed : Z) (n : nat) : list nat := reverse (seq 0 n).

(** A renaming that prefixes every name with [X]. *)
Definition prefixed (self : NumPy.t) (seed : option Z) : result NumPy.t :=
  Ok (NumPy.mk (NumPy.data self) (NumPy.sample self) (NumPy.nodes self)
        (NumPy.categories self) (NumPy.order self)
        (map (fun n => ("X" +:+ n, n)) (NumPy.nodes self))
        (map (fun n => (n, "X" +:+ n)) (NumPy.nodes self))
        (NumPy.N self) (NumPy.node_types self) (NumPy.dstype self)
        (NumPy.node_values self)).

Definition example_df : DataFrame :=
  mk_df 4 [("A", CategorySeries ["yes"; "no"; "yes"; "yes"]);
           ("B", CategorySeries ["lo"; "hi"; "hi"; "lo"]);
           ("C", CategorySeries ["x"; "y"; "z"; "x"])].

Definition example_data : ndarray :=
  mk_ndarray uint8 3 [[0; 0; 0]; [1; 1; 1]; [0; 1; 2]; [0; 0; 0]].

Definition example_col_values : list (string * option (list string)) :=
  [("A", Some ["yes"; "no"]); ("B", Some ["lo"; "hi"]);
   ("C", Some ["x"; "y"; "z"])].

Definition example_state (n : Z) (smpl : ndarray)
    (nv : list (string * list (string * nat))) : NumPy.t :=
  NumPy.mk example_data smpl ["A"; "B"; "C"]
    (Some [["yes"; "no"]; ["lo"; "hi"]; ["x"; "y"; "z"]])
    [0; 1; 2]
    [("A", "A"); ("B", "B"); ("C", "C")]
    [("A", "A"); ("B", "B"); ("C", "C")]
    n
    [("A", "category"); ("B", "category"); ("C", "category")]
    categorical nv.

(** The dataset that [from_df] builds from [example_df]. *)
Definition example_ds : NumPy.t :=
  example_state 4 example_data
    [("A", [("no", 1); ("yes", 3)]); ("B", [("hi", 2); ("lo", 2)]);
     ("C", [("x", 2); ("y", 1); ("z", 1)])].

(** [example_ds] after [set_N(1)]. *)
Definition example_one : NumPy.t :=
  example_state 1 (mk_ndarray uint8 3 [[0; 0; 0]])
    [("A", [("yes", 1)]); ("B", [("lo", 1)]); ("C", [("x", 1)])].

(** [example_ds] after [set_N(3, seed=4)] with reversed rows. *)
Definition example_three : NumPy.t :=
  example_state 3 (mk_ndarray uint8 3 [[0; 1; 2]; [1; 1; 1]; [0; 0; 0]])
    [("A", [("no", 1); ("yes", 2)]); ("B", [("hi", 2); ("lo", 1)]);
     ("C", [("x", 1); ("y", 1); ("z", 1)])].

(** [example_three] after [randomise_names] with the prefixing renaming. *)
Definition example_renamed : NumPy.t :=
  NumPy.mk example_data
    (mk_ndarray uint8 3 [[0; 1; 2]; [1; 1; 1]; [0; 0; 0]])
    ["A"; "B"; "C"]
    (Some [["yes"; "no"]; ["lo"; "hi"]; ["x"; "y"; "z"]])
    [0; 1; 2]
    [("XA", "A"); ("XB", "B"); ("XC", "C")]
    [("A", "XA"); ("B", "XB"); ("C", "XC")]
    3
    [("XA", "category"); ("XB", "category"); ("XC", "category")]
    categorical
    [("XA", [("no", 1); ("yes", 2)]); ("XB", [("hi", 2); ("lo", 1)]);
     ("XC", [("x", 1); ("y", 1); ("z", 1)])].

Definition example_parents : gmap string (list string) :=
  {["A" := ["C"; "B"]]}.

(** Requests for a variable that the dataset does not have, and for the
    same variable twice. *)
Definition example_absent : gmap string (list string) :=
  {["A" := ["D"]]}.

Definition example_twice : gmap string (list string) :=
  {["A" := ["B"; "B"]]}.

(** A continuous dataset of three rows; the cells stand for the bit
    patterns of six floating point numbers. *)
Definition example_floats : ndarray :=
  mk_ndarray float32 2 [[11; 12]; [21; 22]; [31; 32]].

Definition example_float_names : list (string * option (list string)) :=
  [("A", None); ("B", None)].

Definition example_continuous : NumPy.t :=
  NumPy.mk example_floats example_floats ["A"; "B"] None [0; 1]
    [("A", "A"); ("B", "B")] [("A", "A"); ("B", "B")] 3
    [("A", "float32"); ("B", "float32")] continuous [].

Definition example_continuous_two : NumPy.t :=
  NumPy.mk example_floats (mk_ndarray float32 2 [[21; 22]; [11; 12]])
    ["A"; "B"] None [0; 1]
    [("A", "A"); ("B", "B")] [("A", "A"); ("B", "B")] 2
    [("A", "float32"); ("B", "float32")] continuous [].

(** An array with one row, and a dataframe with a column of 101 values. *)
Definition example_one_row : ndarray := mk_ndarray uint8 3 [[0; 0; 0]].

Definition example_wide_df : DataFrame :=
  mk_df 101
    [("A", CategorySeries
             (map (fun i => String (Ascii.ascii_of_nat i) EmptyString)
                  (seq 0 101)));
     ("B", CategorySeries (replicate 101 "lo"))].

(** [example_ds] after [set_N(3)]. *)
Definition example_first_three : NumPy.t :=
  example_state 3 (mk_ndarray uint8 3 [[0; 0; 0]; [1; 1; 1]; [0; 1; 2]])
    [("A", [("no", 1); ("yes", 2)]); ("B", [("hi", 2); ("lo", 1)]);
     ("C", [("x", 1); ("y", 1); ("z", 1)])].

(** [example_ds] after [randomise_names] with the prefixing renaming. *)
Definition example_ds_renamed : NumPy.t :=
  NumPy.mk example_data example_data ["A"; "B"; "C"]
    (Some [["yes"; "no"]; ["lo"; "hi"]; ["x"; "y"; "z"]])
    [0; 1; 2]
    [("XA", "A"); ("XB", "B"); ("XC", "C")]
    [("A", "XA"); ("B", "XB"); ("C", "XC")]
    4
    [("XA", "category"); ("XB", "category"); ("XC", "category")]
    categorical
    [("XA", [("no", 1); ("yes", 3)]); ("XB", [("hi", 2); ("lo", 2)]);
     ("XC", [("x", 2); ("y", 1); ("z", 1)])].

(** [example_renamed] after [set_N(3)]: the keys of [node_values] are
    the original names again. *)
Definition example_reset : NumPy.t :=
  NumPy.mk example_data
    (mk_ndarray uint8 3 [[0; 0; 0]; [1; 1; 1]; [0; 1; 2]])
    ["A"; "B"; "C"]
    (Some [["yes"; "no"]; ["lo"; "hi"]; ["x"; "y"; "z"]])
    [0; 1; 2]
    [("XA", "A"); ("XB", "B"); ("XC", "C")]
    [("A", "XA"); ("B", "XB"); ("C", "XC")]
    3
    [("XA", "category"); ("XB", "category"); ("XC", "category")]
    categorical
    [("A", [("no", 1); ("yes", 2)]); ("B", [("hi", 2); ("lo", 1)]);
     ("C", [("x", 1); ("y", 1); ("z", 1)])].

(** The dataframe of [example_continuous], and that dataset after
    [randomise_names] with the prefixing renaming. *)
Definition example_float_df : DataFrame :=
  mk_df 3 [("A", Float32Series [11; 21; 31]);
           ("B", Float32Series [12; 22; 32])].

Definition example_continuous_renamed : NumPy.t :=
  NumPy.mk example_floats example_floats ["A"; "B"] None [0; 1]
    [("XA", "A"); ("XB", "B")] [("A", "XA"); ("B", "XB")] 3
    [("XA", "float32"); ("XB", "float32")] continuous [].

(** A dataset whose first variable has the same label for both codes, as
    the constructor builds it. *)
Definition example_repeated_data : ndarray :=
  mk_ndarray uint8 2 [[0; 0]; [1; 0]; [1; 1]].

Definition example_repeated_values : list (string * option (list string)) :=
  [("A", Some ["x"; "x"]); ("B", Some ["a"; "b"])].

Definition example_repeated : NumPy.t :=
  NumPy.mk example_repeated_data example_repeated_data ["A"; "B"]
    (Some [["x"; "x"]; ["a"; "b"]]) [0; 1]
    [("A", "A"); ("B", "B")] [("A", "A"); ("B", "B")] 3
    [("A", "category"); ("B", "category")] categorical
    [("A", [("x", 2)]); ("B", [("a", 2); ("b", 1)])].

Definition example_parent_B : gmap string (list string) :=
  {["A" := ["B"]]}.

(** An array whose first column holds 101 codes, and 101 labels for
    each of its two columns. *)
Definition example_many_data : ndarray :=
  mk_ndarray uint8 2 (map (fun i => [i; 0]) (seq 0 101)).

Definition example_many_labels : list string :=
  map (fun i => String (Ascii.ascii_of_nat i) EmptyString) (seq 1 101).

Definition example_many_values : list (string * option (list string)) :=
  [("A", Some example_many_labels); ("B", Some example_many_labels)].

(** A dataset of [m] equal rows, as the constructor builds it, and the
    one of 2^31 rows. *)
Definition example_zeros (m : nat) : ndarray :=
  mk_ndarray uint8 2 (replicate m [0; 0]).

Definition example_single_values : list (string * option (list string)) :=
  [("A", Some ["x"]); ("B", Some ["a"])].

Definition example_uniform (m : nat) : NumPy.t :=
  NumPy.mk (example_zeros m) (example_zeros m) ["A"; "B"]
    (Some [["x"]; ["a"]]) [0; 1]
    [("A", "A"); ("B", "B")] [("A", "A"); ("B", "B")] (Z.of_nat m)
    [("A", "category"); ("B", "category")] categorical
    [("A", [("x", m)]); ("B", [("a", m)])].

Definition example_large : NumPy.t := example_uniform (Z.to_nat (2 ^ 31)).

(** * Proofs *)

Local Close Scope string_scope.
Import NumPy.

(** Decidable facts about concrete data are settled by evaluation. *)
Ltac by_computation := apply (bool_decide_unpack _); vm_compute; exact I.

Lemma bind_Ok {A B} (m : result A) (f : A → result B) b :
  m ≫= f = Ok b ↔ ∃ a, m = Ok a ∧ f a = Ok b.
Proof.
  destruct m as [a|e]; simpl; split.
  - eauto.
  - intros (a' & [= <-] & ?); done.
  - done.
  - intros (a' & [=] & ?).
Qed.

Lemma bind_Ok_l {A B} (a : A) (f : A → result B) : Ok a ≫= f = f a.
Proof. done. Qed.

Lemma or_raise_Ok {A} (o : option A) e a : o ?! e = Ok a ↔ o = Some a.
Proof. destruct o; simpl; split; congruence. Qed.

Lemma mapM_Ok {A B} (f : A → result B) l k :
  mapM f l = Ok k ↔ Forall2 (fun x y => f x = Ok y) l k.
Proof.
  revert k. induction l as [|x l IH]; intros k; simpl.
  - split; [intros [= <-]; constructor | by inversion 1].
  - split.
    + intros (y & Hy & (k' & Hk' & [= <-])%bind_Ok)%bind_Ok.
      constructor; [done | by apply IH].
    + inversion 1 as [|? y ? k' Hy Hk']; subst.
      apply bind_Ok. exists y. split; [done|]. apply bind_Ok. exists k'.
      split; [by apply IH | done].
Qed.

Lemma mapM_cons {A B} (f : A → result B) x l :
  mapM f (x :: l) = y ← f x; k ← mapM f l; Ok (y :: k).
Proof. done. Qed.

Lemma mapM_Ok_map {A B} (f : A → result B) (g : A → B) l :
  (∀ x, x ∈ l → f x = Ok (g x)) → mapM f l = Ok (map g l).
Proof.
  intros H. apply mapM_Ok. induction l as [|x l IH]; simpl; constructor.
  - apply H. left.
  - apply IH. intros y Hy. apply H. by right.
Qed.

Lemma fold_left_Raise {A B} (f : result A → B → result A) l e :
  (∀ b, f (Raise e) b = Raise e) → fold_left f l (Raise e) = Raise e.
Proof. intros H. induction l as [|b l IH]; simpl; [done|]. by rewrite H. Qed.

Module DictFacts.
Section DictFacts.
Context {K V : Type} `{EqDecision K}.
Implicit Types (d : list (K * V)) (k : K) (v : V).

Lemma get_Some_elem d k v : Dict.get d k = Some v → (k, v) ∈ d.
Proof.
  induction d as [|[k' v'] d IH]; simpl; [done|].
  case_decide as Hk; [intros [= <-]; subst; left | right; auto].
Qed.

Lemma get_None d k : Dict.get d k = None ↔ k ∉ Dict.keys d.
Proof.
  unfold Dict.keys. induction d as [|[k' v'] d IH]; simpl.
  - split; [intros _; apply not_elem_of_nil | done].
  - rewrite not_elem_of_cons. case_decide; naive_solver.
Qed.

Lemma get_is_Some d k : is_Some (Dict.get d k) ↔ k ∈ Dict.keys d.
Proof.
  rewrite <- not_eq_None_Some, get_None.
  destruct (decide (k ∈ Dict.keys d)); naive_solver.
Qed.

Lemma get_NoDup d k v :
  NoDup (Dict.keys d) → (k, v) ∈ d → Dict.get d k = Some v.
Proof.
  unfold Dict.keys. induction d as [|[k' v'] d IH]; simpl.
  - intros _ Hin. by apply elem_of_nil in Hin.
  - intros [Hk' Hnd]%NoDup_cons [[= -> ->] | Hin]%elem_of_cons.
    + by rewrite decide_True.
    + rewrite decide_False; [auto|]. intros ->. apply Hk'.
      apply list_elem_of_fmap. by exists (k', v).
Qed.

Lemma set_fresh d k v :
  k ∉ Dict.keys d → Dict.set d k v = d ++ [(k, v)].
Proof.
  unfold Dict.keys. induction d as [|[k' v'] d IH]; simpl; [done|].
  intros [Hne Hk]%not_elem_of_cons. rewrite decide_False by done.
  by rewrite IH.
Qed.

Lemma fold_set_NoDup (items acc : list (K * V)) :
  NoDup (Dict.keys (acc ++ items)) →
  fold_left (fun d kv => Dict.set d kv.1 kv.2) items acc = acc ++ items.
Proof.
  revert acc. induction items as [|[k v] items IH]; intros acc Hnd; simpl.
  - by rewrite app_nil_r.
  - rewrite set_fresh.
    + rewrite IH; rewrite <- app_assoc; done.
    + unfold Dict.keys in *. rewrite fmap_app in Hnd.
      apply NoDup_app in Hnd as (_ & Hd & _). intros Hin.
      apply (Hd k Hin). simpl. left.
Qed.

Lemma of_items_NoDup (items : list (K * V)) :
  NoDup (Dict.keys items) → Dict.of_items items = items.
Proof. intros Hnd. unfold Dict.of_items. by rewrite fold_set_NoDup. Qed.
End DictFacts.
End DictFacts.

Section DictUpdates.
Context {K V : Type} `{EqDecision K}.
Implicit Types (d : list (K * V)) (k : K) (v : V).

Lemma get_set d k v k' :
  Dict.get (Dict.set d k v) k'
  = if decide (k' = k) then Some v else Dict.get d k'.
Proof.
  induction d as [|[k0 v0] d IH]; simpl.
  - by case_decide.
  - destruct (decide (k = k0)) as [->|Hne]; simpl.
    + by destruct (decide (k' = k0)).
    + destruct (decide (k' = k0)) as [->|Hne'].
      * by rewrite decide_False by done.
      * rewrite IH. done.
Qed.

Lemma get_of_items (items : list (K * V)) k v :
  (k, v) ∈ items → (∀ v', (k, v') ∈ items → v' = v) →
  Dict.get (Dict.of_items items) k = Some v.
Proof.
  unfold Dict.of_items. intros Hin Hall.
  assert (H' : ∀ acc,
    (Dict.get acc k = Some v ∨ (k, v) ∈ items) →
    (∀ v', (k, v') ∈ items → v' = v) →
    Dict.get (fold_left (fun d kv => Dict.set d kv.1 kv.2) items acc) k
    = Some v).
  { clear. induction items as [|[k0 v0] items IH]; intros acc Hor Hall; simpl.
    - destruct Hor as [|Hin]; [done|]. by apply elem_of_nil in Hin.
    - apply IH.
      + rewrite get_set. destruct (decide (k = k0)) as [->|Hne].
        * left. f_equal. apply Hall. left.
        * destruct Hor as [|[[= ? ?]|Hin]%elem_of_cons];
            [by left|done|by right].
      + intros v' Hv'. apply Hall. by right. }
  apply H'; [by right|done].
Qed.
End DictUpdates.

Lemma enumerate_lookup {A} (l : list A) i x :
  enumerate l !! i = Some x ↔ ∃ a, x = (i, a) ∧ l !! i = Some a.
Proof.
  unfold enumerate. rewrite list_lookup_imap.
  destruct (l !! i); simpl; naive_solver.
Qed.

Lemma enumerate_elem {A} (l : list A) i a :
  (i, a) ∈ enumerate l ↔ l !! i = Some a.
Proof.
  rewrite list_elem_of_lookup. split.
  - intros (j & (a' & [= -> ->] & H)%enumerate_lookup). done.
  - intros H. exists i. apply enumerate_lookup. eauto.
Qed.

Lemma enumerate_length {A} (l : list A) : length (enumerate l) = length l.
Proof. unfold enumerate. apply length_imap. Qed.

Lemma enumerate_snd {A} (l : list A) : (enumerate l).*2 = l.
Proof.
  apply list_eq. intros i. rewrite list_lookup_fmap.
  unfold enumerate. rewrite list_lookup_imap. by destruct (l !! i).
Qed.

Lemma position_of_get {A} `{EqDecision A} (l : list A) x :
  NoDup l →
  Dict.get (position_of l) x = fst <$> list_find (fun y => y = x) l.
Proof.
  intros Hnd. unfold position_of.
  assert (Hk : Dict.keys (map (fun iv : nat * A => (iv.2, iv.1))
                              (enumerate l)) = l).
  { unfold Dict.keys. rewrite <- list_fmap_compose.
    rewrite <- (enumerate_snd l) at 2. done. }
  rewrite DictFacts.of_items_NoDup by by rewrite Hk.
  destruct (list_find _ l) as [[i y]|] eqn:Hf; simpl.
  - apply list_find_Some in Hf as (Hi & -> & _).
    apply DictFacts.get_NoDup; [by rewrite Hk|].
    apply list_elem_of_fmap. exists (i, x). split; [done|].
    by apply enumerate_elem.
  - apply DictFacts.get_None. rewrite Hk.
    intros Hin. eapply list_find_None in Hf.
    rewrite Forall_forall in Hf. by apply (Hf x).
Qed.
(** Counting *)
Section Counting.
Context {A : Type} `{EqDecision A}.
Implicit Types (v a : A) (l u : list A).

Lemma occ_cons v a l :
  occ v (a :: l) = (if decide (a = v) then 1 else 0) + occ v l.
Proof. unfold occ. rewrite filter_cons. by case_decide. Qed.

Lemma occ_le v l : occ v l ≤ length l.
Proof. unfold occ. apply length_filter. Qed.

Lemma occ_not_elem v l : v ∉ l → occ v l = 0.
Proof.
  intros Hv. induction l as [|a l IH]; [done|].
  rewrite occ_cons. apply not_elem_of_cons in Hv as [? ?].
  rewrite decide_False by done. by rewrite IH.
Qed.

Lemma sum_indicator a (u : list A) :
  NoDup u → a ∈ u →
  sum_list (map (fun r => if decide (a = r) then 1 else 0) u) = 1.
Proof.
  induction 1 as [|x u Hx Hnd IH]; [by intros ?%elem_of_nil|].
  intros [->|Hin]%elem_of_cons; simpl.
  - rewrite decide_True by done. f_equal.
    clear IH Hnd. induction u as [|y u IH]; [done|].
    apply not_elem_of_cons in Hx as [? ?]. simpl.
    rewrite decide_False by done. auto.
  - rewrite decide_False by (intros ->; done). auto.
Qed.

Lemma sum_occ (u l : list A) :
  NoDup u → (∀ x, x ∈ l → x ∈ u) →
  sum_list (map (fun r => occ r l) u) = length l.
Proof.
  intros Hnd. induction l as [|a l IH]; intros Hin.
  - clear. induction u as [|? ? IHu]; [done|]. simpl. by rewrite IHu.
  - assert (Hs : sum_list (map (fun r => occ r (a :: l)) u)
                 = sum_list (map (fun r => if decide (a = r) then 1 else 0) u)
                   + sum_list (map (fun r => occ r l) u)).
    { clear. induction u as [|r u IHu]; [done|]. simpl.
      rewrite occ_cons, IHu. lia. }
    rewrite Hs, sum_indicator by (done || apply Hin; left).
    rewrite IH by (intros; apply Hin; by right). done.
Qed.
End Counting.

(** bincount *)
Lemma length_bincount x :
  length (bincount x) = match x with [] => 0 | _ => S (max_list x) end.
Proof.
  destruct x; [done|]. unfold bincount. by rewrite length_map, length_seq.
Qed.

Lemma bincount_bound x : Forall (fun v => v < length (bincount x)) x.
Proof.
  rewrite length_bincount. destruct x as [|a x]; [constructor|].
  apply Forall_forall. intros v Hv.
  apply max_list_elem_of_le in Hv. lia.
Qed.

Lemma sum_bincount x : sum_list (bincount x) = length x.
Proof.
  destruct x as [|a x]; [done|]. unfold bincount.
  apply (sum_occ (seq 0 (S (max_list (a :: x))))).
  - apply NoDup_seq.
  - intros v Hv. apply elem_of_seq.
    apply max_list_elem_of_le in Hv. lia.
Qed.

Lemma bincount_Permutation x y : x ≡ₚ y → bincount x = bincount y.
Proof.
  intros Hp. destruct x as [|a x].
  { apply Permutation_nil_l in Hp. by subst. }
  destruct y as [|b y].
  { by apply Permutation_nil_r in Hp. }
  unfold bincount. rewrite <- Hp.
  apply map_ext. intros v. unfold count_nat. by rewrite Hp.
Qed.

(** unique *)
Lemma row_compare_eq a b : row_compare a b = Eq ↔ a = b.
Proof.
  revert b. induction a as [|x a IH]; intros [|y b]; simpl; try done.
  destruct (Nat.compare_spec x y); subst.
  - rewrite IH. naive_solver.
  - split; [done | intros [= -> ->]; lia].
  - split; [done | intros [= -> ->]; lia].
Qed.

Lemma row_compare_antisym a b :
  row_compare b a = CompOpp (row_compare a b).
Proof.
  revert b. induction a as [|x a IH]; intros [|y b]; simpl; try done.
  rewrite (Nat.compare_antisym x y).
  destruct (x ?= y); simpl; auto.
Qed.

Lemma row_lt_trans a b c : row_lt a b → row_lt b c → row_lt a c.
Proof.
  unfold row_lt. revert b c.
  induction a as [|x a IH]; intros [|y b] [|z c]; simpl; try done.
  destruct (Nat.compare_spec x y), (Nat.compare_spec y z); subst; try done.
  - destruct (Nat.compare_spec z z); try lia. apply IH.
  - intros _ _. destruct (Nat.compare_spec y z); try lia; done.
  - intros _ _. destruct (Nat.compare_spec x z); try lia; done.
  - intros _ _. destruct (Nat.compare_spec x z); try lia; done.
Qed.

Lemma row_lt_irrefl a : ¬ row_lt a a.
Proof.
  unfold row_lt. assert (row_compare a a = Eq) as -> by by apply row_compare_eq.
  done.
Qed.

Lemma elem_of_insert_unique x r l :
  x ∈ insert_unique r l ↔ x = r ∨ x ∈ l.
Proof.
  induction l as [|r' l IH]; simpl.
  - rewrite list_elem_of_singleton. rewrite elem_of_nil. tauto.
  - destruct (row_compare r r') eqn:E.
    + apply row_compare_eq in E as ->. rewrite !elem_of_cons. tauto.
    + rewrite !elem_of_cons. tauto.
    + rewrite !elem_of_cons, IH. tauto.
Qed.

Lemma insert_unique_sorted r l :
  StronglySorted row_lt l → StronglySorted row_lt (insert_unique r l).
Proof.
  induction 1 as [|r' l Hs IH Hall]; simpl.
  - repeat constructor.
  - destruct (row_compare r r') eqn:E.
    + by constructor.
    + constructor; [by constructor|]. constructor; [done|].
      eapply Forall_impl; [done|]. intros z Hz. by eapply row_lt_trans.
    + constructor; [done|]. apply Forall_forall.
      intros z [->|Hz]%elem_of_insert_unique.
      * unfold row_lt. rewrite row_compare_antisym, E. done.
      * rewrite Forall_forall in Hall. auto.
Qed.

Lemma unique_sorted l : StronglySorted row_lt (unique l).
Proof.
  induction l as [|r l IH]; simpl; [constructor|].
  by apply insert_unique_sorted.
Qed.

Lemma elem_of_unique x l : x ∈ unique l ↔ x ∈ l.
Proof.
  induction l as [|r l IH]; simpl; [done|].
  rewrite elem_of_insert_unique, elem_of_cons, IH. done.
Qed.

Lemma sorted_NoDup l : StronglySorted row_lt l → NoDup l.
Proof.
  induction 1 as [|r l Hs IH Hall]; constructor; [|done].
  intros Hin. rewrite Forall_forall in Hall.
  by apply (row_lt_irrefl r), Hall.
Qed.

Lemma unique_NoDup l : NoDup (unique l).
Proof. apply sorted_NoDup, unique_sorted. Qed.

Lemma NoDup_fmap_fst_NoDup {A B} (l : list (A * B)) : NoDup l.*1 → NoDup l.
Proof. apply NoDup_fmap_1. Qed.

Lemma value_counts_inv cats col d :
  NoDup cats → value_counts cats col = Ok d →
  length d = length (bincount col)
  ∧ Dict.values d ≡ₚ bincount col
  ∧ length (bincount col) ≤ length cats.
Proof.
  intros Hnd. unfold value_counts.
  intros (items & Hitems & (items' & Hitems' & [= <-])%bind_Ok)%bind_Ok.
  apply mapM_Ok in Hitems, Hitems'.
  assert (H2 : items.*2 = bincount col).
  { rewrite <- (enumerate_snd (bincount col)).
    clear -Hitems. induction Hitems as [|[v c] it ? ? H ? IH]; [done|].
    simpl in *. apply bind_Ok in H as (lbl & _ & [= <-]). simpl. by f_equal. }
  assert (H1 : items.*1 = take (length (bincount col)) cats).
  { apply list_eq. intros i. rewrite list_lookup_fmap.
    destruct (decide (i < length (bincount col))) as [Hi|Hi].
    - rewrite lookup_take_lt by done.
      destruct (lookup_lt_is_Some_2 (enumerate (bincount col)) i)
        as [[i' c] Hic].
      { by rewrite enumerate_length. }
      destruct (Forall2_lookup_l _ _ _ _ _ Hitems Hic) as (it & -> & Hit).
      apply enumerate_lookup in Hic as (? & [= -> ->] & _).
      simpl in *. apply bind_Ok in Hit as (l & Hl%or_raise_Ok & [= <-]).
      simpl. by rewrite Hl.
    - rewrite lookup_take_ge by lia.
      rewrite (proj2 (lookup_ge_None _ _)); [done|].
      apply Forall2_length in Hitems. rewrite enumerate_length in Hitems. lia. }
  assert (Hlen : length (bincount col) ≤ length cats).
  { destruct (decide (length (bincount col) ≤ length cats)) as [|Hn]; [done|].
    exfalso.
    destruct (lookup_lt_is_Some_2 (enumerate (bincount col)) (length cats))
      as [[i' c] Hic].
    { rewrite enumerate_length. lia. }
    destruct (Forall2_lookup_l _ _ _ _ _ Hitems Hic) as (it & _ & Hit).
    apply enumerate_lookup in Hic as (? & [= -> ->] & _). simpl in Hit.
    apply bind_Ok in Hit as (l & Hl%or_raise_Ok & _).
    apply lookup_lt_Some in Hl. lia. }
  assert (Hk : NoDup (Dict.keys items)).
  { unfold Dict.keys. rewrite H1.
    eapply sublist_NoDup; [done | apply sublist_take]. }
  rewrite DictFacts.of_items_NoDup in Hitems' by done.
  assert (Hk' : items'.*1 = sorted (Dict.keys items)).
  { clear -Hitems'. induction Hitems' as [|v it ? ? H ? IH]; [done|].
    simpl. apply bind_Ok in H as (cnt & _ & [= <-]). simpl. by f_equal. }
  assert (Hnd' : NoDup (Dict.keys items')).
  { unfold Dict.keys. rewrite Hk'. unfold sorted.
    by rewrite merge_sort_Permutation. }
  rewrite DictFacts.of_items_NoDup by done.
  assert (Hperm : items' ≡ₚ items).
  { apply NoDup_Permutation.
    - by apply NoDup_fmap_fst_NoDup.
    - by apply NoDup_fmap_fst_NoDup.
    - intros [v c]. split.
      + intros Hin. apply list_elem_of_lookup in Hin as [i Hi].
        destruct (Forall2_lookup_r _ _ _ _ _ Hitems' Hi) as (v' & _ & Hv').
        apply bind_Ok in Hv' as (c' & Hc'%or_raise_Ok & [= -> ->]).
        by apply DictFacts.get_Some_elem.
      + intros Hin.
        assert (Hv : v ∈ sorted (Dict.keys items)).
        { unfold sorted. rewrite merge_sort_Permutation.
          apply list_elem_of_fmap. by exists (v, c). }
        apply list_elem_of_lookup in Hv as [i Hi].
        destruct (Forall2_lookup_l _ _ _ _ _ Hitems' Hi) as (it & Hit & Hv').
        apply bind_Ok in Hv' as (c' & Hc'%or_raise_Ok & [= <-]).
        unfold Dict.item in *.
        rewrite (DictFacts.get_NoDup _ _ _ Hk Hin) in Hc'.
        injection Hc' as <-. eapply list_elem_of_lookup_2, Hit. }
  split_and!.
  - rewrite Hperm. rewrite <- H2. by rewrite length_fmap.
  - unfold Dict.values. by rewrite Hperm, H2.
  - done.
Qed.

Lemma zeros_table k ps : zeros k (length ps) = table k ps (fun _ _ => 0%Z).
Proof.
  unfold zeros, table. apply list_eq. intros i.
  rewrite list_lookup_fmap.
  destruct (decide (i < k)) as [Hi|Hi].
  - rewrite lookup_replicate_2, lookup_seq_lt by done. simpl. f_equal.
    induction ps as [|p ps IH]; simpl; [done|]. by rewrite IH.
  - rewrite (proj1 (lookup_replicate_None _ _ _)), lookup_seq_ge by lia. done.
Qed.

Lemma table_ext k ps g h :
  (∀ i p, i < k → p ∈ ps → g i p = h i p) → table k ps g = table k ps h.
Proof.
  intros H. unfold table. apply list_eq. intros i.
  rewrite !list_lookup_fmap.
  destruct (decide (i < k)) as [Hi|Hi].
  - rewrite lookup_seq_lt by done. simpl. f_equal.
    apply list_eq. intros j. rewrite !list_lookup_fmap.
    destruct (ps !! j) as [p|] eqn:Hp; simpl; [|done].
    f_equal. apply H; [done|]. by eapply list_elem_of_lookup_2.
  - by rewrite lookup_seq_ge by lia.
Qed.

Lemma alter_table k ps g c j p v :
  NoDup ps → ps !! j = Some p →
  alter (fun row => <[j := v]> row) c (table k ps g)
  = table k ps (fun i p' => if decide (i = c ∧ p' = p) then v else g i p').
Proof.
  intros Hnd Hj. unfold table. apply list_eq. intros i.
  destruct (decide (i = c)) as [->|Hic].
  - rewrite list_lookup_alter_eq, !list_lookup_fmap.
    destruct (decide (c < k)) as [Hc|Hc];
      [rewrite lookup_seq_lt by done | by rewrite lookup_seq_ge by lia].
    simpl. f_equal.
    apply list_eq. intros j'. rewrite list_lookup_fmap.
    destruct (decide (j' = j)) as [->|Hjj].
    + rewrite list_lookup_insert_eq.
      * rewrite Hj. simpl. by rewrite decide_True.
      * rewrite length_map. by eapply lookup_lt_Some.
    + rewrite list_lookup_insert_ne by done. rewrite list_lookup_fmap.
      destruct (ps !! j') as [p'|] eqn:Hp'; simpl; [|done].
      rewrite decide_False; [done|]. intros [_ ->].
      apply Hjj. by eapply NoDup_lookup.
  - rewrite list_lookup_alter_ne by done. rewrite !list_lookup_fmap.
    destruct (decide (i < k)) as [Hi|Hi];
      [rewrite lookup_seq_lt by done | by rewrite lookup_seq_ge by lia].
    simpl. f_equal.
    apply map_ext. intros p'. rewrite decide_False; [done|]. naive_solver.
Qed.

Lemma enumerate_app {A} (l : list A) x :
  enumerate (l ++ [x]) = enumerate l ++ [(length l, x)].
Proof.
  unfold enumerate. rewrite imap_app. simpl. by rewrite Nat.add_0_r.
Qed.

Lemma position_of_seq k c :
  c < k → Dict.item (position_of (seq 0 k)) c = Ok c.
Proof.
  intros Hc. unfold Dict.item. rewrite position_of_get by apply NoDup_seq.
  destruct (list_find _ _) as [[i y]|] eqn:Hf; simpl.
  - apply list_find_Some in Hf as (Hi & -> & _).
    apply lookup_seq in Hi as [-> _]. done.
  - apply list_find_None in Hf. rewrite Forall_forall in Hf.
    exfalso. apply (Hf c); [|done]. apply elem_of_seq. lia.
Qed.

Lemma position_of_lookup {A} `{EqDecision A} (l : list A) j x :
  NoDup l → l !! j = Some x → Dict.item (position_of l) x = Ok j.
Proof.
  intros Hnd Hj. unfold Dict.item. rewrite position_of_get by done.
  destruct (list_find _ _) as [[i y]|] eqn:Hf; simpl.
  - apply list_find_Some in Hf as (Hi & -> & _).
    f_equal. by eapply NoDup_lookup.
  - apply list_find_None in Hf. rewrite Forall_forall in Hf.
    exfalso. apply (Hf x); [|done]. by eapply list_elem_of_lookup_2.
Qed.

Lemma populate_table k ps combos (f : list nat → nat) :
  NoDup ps →
  Forall (fun r => ∃ c p, r = c :: p ∧ c < k ∧ p ∈ ps) combos →
  populate combos (map f combos) (position_of (seq 0 k)) (position_of ps)
           (zeros k (length ps))
  = Ok (table k ps (fun i p =>
          if decide (i :: p ∈ combos)
          then to_int32 (Z.of_nat (f (i :: p))) else 0%Z)).
Proof.
  intros Hnd Hall. unfold populate. rewrite zeros_table.
  set (step := fun (acc : result (list (list Z))) (ic : nat * list nat) => _).
  assert (Hpre : ∀ pre suf, combos = pre ++ suf →
    fold_left step (enumerate pre) (Ok (table k ps (fun _ _ => 0%Z)))
    = Ok (table k ps (fun i p =>
            if decide (i :: p ∈ pre)
            then to_int32 (Z.of_nat (f (i :: p))) else 0%Z))).
  { induction pre as [|x pre IH] using rev_ind; intros suf Hc.
    - simpl. f_equal.
    - rewrite enumerate_app, fold_left_app.
      rewrite (IH ([x] ++ suf)) by (by rewrite Hc, <- app_assoc).
      simpl.
      assert (Hx : x ∈ combos) by (rewrite Hc; set_solver).
      rewrite Forall_forall in Hall.
      destruct (Hall x Hx) as (c & p & -> & Hck & Hp).
      apply list_elem_of_lookup in Hp as [j Hj].
      rewrite position_of_seq by done. simpl.
      rewrite (position_of_lookup ps j p) by done. simpl.
      assert (Hlk : map f combos !! length pre = Some (f (c :: p))).
      { rewrite list_lookup_fmap, Hc, <- app_assoc.
        rewrite lookup_app_r by lia. by rewrite Nat.sub_diag. }
      rewrite Hlk. simpl. f_equal.
      rewrite (alter_table _ _ _ _ _ p) by done.
      apply table_ext. intros i p' _ _.
      destruct (decide (i = c ∧ p' = p)) as [[-> ->]|Hne].
      + rewrite decide_True; [done|]. set_solver.
      + destruct (decide (i :: p' ∈ pre)) as [Hin|Hin].
        * rewrite decide_True; [done|]. set_solver.
        * rewrite decide_False; [done|].
          rewrite elem_of_app, list_elem_of_singleton.
          intros [?|[= -> ->]]; tauto. }
  apply (Hpre combos []). by rewrite app_nil_r.
Qed.

Lemma size_list_to_set_le (l : list string) :
  size (list_to_set l : gset string) ≤ length l.
Proof.
  induction l as [|x l IH]; simpl; [done|].
  destruct (decide (x ∈ (list_to_set l : gset string))) as [Hx|Hx].
  - replace ({[x]} ∪ list_to_set l : gset string)
      with (list_to_set l : gset string) by set_solver. lia.
  - rewrite size_union by set_solver. rewrite size_singleton. lia.
Qed.

Lemma size_list_to_set_NoDup (l : list string) :
  length l = size (list_to_set l : gset string) ↔ NoDup l.
Proof.
  split; [|intros; symmetry; by apply size_list_to_set].
  induction l as [|x l IH]; simpl; [constructor|].
  destruct (decide (x ∈ (list_to_set l : gset string))) as [Hx|Hx].
  - replace ({[x]} ∪ list_to_set l : gset string)
      with (list_to_set l : gset string) by set_solver.
    pose proof (size_list_to_set_le l). lia.
  - rewrite size_union by set_solver. rewrite size_singleton.
    intros Hl. constructor; [set_solver|]. apply IH. lia.
Qed.

Lemma bad_request_iff self ns :
  bad_request self ns
  ↔ ¬ (Forall (fun n => n ∈ Dict.keys (node_values self)) ns ∧ NoDup ns).
Proof.
  unfold bad_request. rewrite <- size_list_to_set_NoDup.
  rewrite size_empty_iff. rewrite Forall_forall.
  split.
  - intros [Hne|Hne] [Hall Hnd]; [|done].
    apply Hne. apply set_equiv. intros x.
    rewrite elem_of_difference, !elem_of_list_to_set. set_solver.
  - intros Hn.
    destruct (decide (length ns = size (list_to_set ns : gset string)));
      [|by right].
    left. intros He. apply Hn. split; [|done].
    intros x Hx. destruct (decide (x ∈ Dict.keys (node_values self))); [done|].
    exfalso. apply (not_elem_of_empty (C:=gset string) x). rewrite <- He.
    rewrite elem_of_difference, !elem_of_list_to_set. done.
Qed.

Lemma tuple_index_lookup {A} `{EqDecision A} (l : list A) j x :
  NoDup l → l !! j = Some x → tuple_index l x = Ok j.
Proof.
  intros Hnd. revert j. induction Hnd as [|y l Hy Hnd IH]; intros j; [done|].
  destruct j as [|j]; simpl.
  - intros [= ->]. by rewrite decide_True.
  - intros Hj. rewrite decide_False.
    + by rewrite (IH j).
    + intros ->. apply Hy. by eapply list_elem_of_lookup_2.
Qed.

Lemma tuple_index_find {A} `{EqDecision A} (l : list A) j x :
  tuple_index l x = Ok j → fst <$> list_find (fun y => y = x) l = Some j.
Proof.
  revert j. induction l as [|y l IH]; intros j; simpl; [done|].
  case_decide as Hxy.
  - intros [= <-]. subst. by rewrite decide_True.
  - destruct (tuple_index l x) as [j'|] eqn:E; simpl; [|done].
    intros [= <-]. rewrite decide_False by done.
    specialize (IH j' eq_refl).
    destruct (list_find _ l) as [[i z]|]; simpl in *; [|done].
    by injection IH as ->.
Qed.

Lemma consistent_keys_NoDup self :
  consistent self → NoDup (Dict.keys (node_values self)).
Proof.
  intros (_ & Hnd & _ & _ & _ & _ & _ & Hc).
  destruct (categories self) as [cats|]; [|done].
  destruct Hc as (_ & _ & HF).
  apply NoDup_alt. intros i j k Hi Hj. unfold Dict.keys in *.
  rewrite list_lookup_fmap in Hi, Hj.
  destruct (node_values self !! i) as [kvi|] eqn:Ei; [|done].
  destruct (node_values self !! j) as [kvj|] eqn:Ej; [|done].
  simpl in *. injection Hi as Hi. injection Hj as Hj.
  destruct (Forall2_lookup_l _ _ _ _ _ HF Ei) as ([i' oi] & Hoi & Hgi & _).
  destruct (Forall2_lookup_l _ _ _ _ _ HF Ej) as ([j' oj] & Hoj & Hgj & _).
  apply enumerate_lookup in Hoi as (? & [= -> ->] & Hoi).
  apply enumerate_lookup in Hoj as (? & [= -> ->] & Hoj).
  simpl in *. rewrite Hi in Hgi. rewrite Hj in Hgj.
  rewrite Hgi in Hgj. injection Hgj as ->.
  by eapply NoDup_lookup.
Qed.

Lemma consistent_entry self n :
  consistent self → n ∈ Dict.keys (node_values self) →
  ∃ cats j o counts,
    categories self = Some cats
    ∧ Dict.get (ext_to_orig self) n = Some o
    ∧ nodes self !! j = Some o
    ∧ Dict.get (orig_to_ext self) o = Some n
    ∧ Dict.get (node_values self) n = Some counts
    ∧ expected_counts cats (sample self) j = Ok counts.
Proof.
  intros Hok Hn. pose proof (consistent_keys_NoDup _ Hok) as Hkeys.
  destruct Hok as (_ & Hnd & _ & _ & _ & _ & _ & Hc).
  destruct (categories self) as [cats|]; [|done].
  destruct Hc as (_ & _ & HF).
  apply list_elem_of_fmap in Hn as ([k counts] & -> & Hin).
  pose proof Hin as Hin'.
  apply list_elem_of_lookup in Hin as [i Hi].
  destruct (Forall2_lookup_l _ _ _ _ _ HF Hi) as ([i' o] & Ho & Hg & Hg' & He).
  apply enumerate_lookup in Ho as (o' & [= -> ->] & Ho). simpl in *.
  exists cats, i, o', counts. split_and!; try done.
  by apply DictFacts.get_NoDup.
Qed.

Lemma consistent_variables self n :
  consistent self → n ∈ variables self ↔ n ∈ Dict.keys (node_values self).
Proof.
  intros Hok. split.
  - destruct Hok as (_ & _ & _ & _ & _ & _ & Hv & _).
    rewrite Forall_forall in Hv. apply Hv.
  - intros Hn.
    destruct (consistent_entry _ _ Hok Hn) as (? & ? & o & ? & _ & Hg & _).
    apply DictFacts.get_is_Some. by rewrite Hg.
Qed.

Lemma consistent_valid_request self ns :
  consistent self → valid_request self ns ↔ ¬ bad_request self ns.
Proof.
  intros Hok. rewrite bad_request_iff. unfold valid_request.
  rewrite !Forall_forall.
  split.
  - intros [Hall Hnd] Hn. apply Hn. split; [|done].
    intros x Hx. apply consistent_variables; auto.
  - intros Hn.
    destruct (decide (Forall (fun n => n ∈ Dict.keys (node_values self)) ns
                      ∧ NoDup ns)) as [[Hall Hnd]|Hno].
    + split; [|done]. rewrite Forall_forall in Hall.
      intros x Hx. apply consistent_variables; auto.
    + exfalso. apply Hn. intros [? ?]. apply Hno. split; [|done].
      by apply Forall_forall.
Qed.

Lemma consistent_columns_reqd self ns :
  consistent self → Forall (fun n => n ∈ Dict.keys (node_values self)) ns →
  ∃ js, columns_reqd self ns = Ok js
        ∧ Forall2 (fun n j => column_of self n = Some j
                              ∧ j < length (nodes self)) ns js.
Proof.
  intros Hok. induction 1 as [|n ns Hn Hns (js & Hjs & HF)].
  - exists []. split; [done | constructor].
  - destruct (consistent_entry _ _ Hok Hn)
      as (cats & j & o & cnt & _ & Hg & Hj & _).
    exists (j :: js). unfold columns_reqd in *. rewrite mapM_cons.
    assert (Hti : tuple_index (nodes self) o = Ok j).
    { apply tuple_index_lookup; [|done]. apply Hok. }
    assert (Hf : (o ← Dict.item (ext_to_orig self) n;
                  tuple_index (nodes self) o) = Ok j).
    { unfold Dict.item. by rewrite Hg. }
    rewrite Hf, Hjs. split; [done|].
    constructor; [|done]. split.
    + unfold column_of. rewrite Hg. by apply tuple_index_find.
    + by eapply lookup_lt_Some.
Qed.

Lemma select_columns_Ok a js :
  rectangular a → Forall (fun j => j < ncols a) js →
  select_columns a js
  = Ok (mk_ndarray (arr_dtype a) (length js) (map (pick js) (rows a))).
Proof.
  intros Hrect Hjs. unfold select_columns. rewrite decide_True by done.
  rewrite (mapM_Ok_map _ (pick js)); [done|].
  intros r Hr. unfold pick. apply mapM_Ok_map. intros j Hj.
  rewrite Forall_forall in Hjs. unfold rectangular in Hrect.
  rewrite Forall_forall in Hrect.
  destruct (lookup_lt_is_Some_2 r j) as [x Hx].
  { rewrite (Hrect r Hr). auto. }
  by rewrite Hx.
Qed.

Lemma pick_codes_of self ns js r :
  Forall2 (fun n j => column_of self n = Some j ∧ j < length (nodes self))
          ns js →
  pick js r = codes_of self ns r.
Proof.
  induction 1 as [|n j ns js [Hn _] _ IH]; [done|].
  unfold pick, codes_of, code_of in *. simpl. rewrite Hn. simpl. by f_equal.
Qed.

Lemma column_Ok a j :
  rectangular a → j < ncols a →
  column a j = Ok (map (fun r => default 0 (r !! j)) (rows a)).
Proof.
  intros Hrect Hj. unfold column. rewrite decide_True by done.
  apply mapM_Ok_map. intros r Hr.
  unfold rectangular in Hrect. rewrite Forall_forall in Hrect.
  destruct (lookup_lt_is_Some_2 r j) as [x Hx].
  { rewrite (Hrect r Hr). auto. }
  by rewrite Hx.
Qed.

(** Facts about the value counts of a present variable. *)
Lemma consistent_counts self n :
  consistent self → n ∈ Dict.keys (node_values self) →
  ∃ cats j o cj counts,
    categories self = Some cats
    ∧ column_of self n = Some j
    ∧ nodes self !! j = Some o
    ∧ Dict.get (orig_to_ext self) o = Some n
    ∧ cats !! j = Some cj
    ∧ Dict.get (node_values self) n = Some counts
    ∧ let col := map (fun r => default 0 (r !! j)) (rows (sample self)) in
      length counts = length (bincount col)
      ∧ Dict.values counts ≡ₚ bincount col
      ∧ length (bincount col) ≤ length cj.
Proof.
  intros Hok Hn.
  destruct (consistent_entry _ _ Hok Hn)
    as (cats & j & o & counts & Hc & Hg & Hj & Ho & Hnv & He).
  pose proof Hok as (_ & Hnd & Hnc & Hrect & _ & _ & _ & Hcats).
  rewrite Hc in Hcats. destruct Hcats as (Hlen & Hndc & _).
  assert (Hjn : j < length (nodes self)) by by eapply lookup_lt_Some.
  unfold expected_counts in He.
  rewrite column_Ok in He by (done || lia). simpl in He.
  destruct (cats !! j) as [cj|] eqn:Ecj; simpl in He; [|done].
  exists cats, j, o, cj, counts. split_and!; try done.
  - unfold column_of. rewrite Hg. apply tuple_index_find.
    by apply tuple_index_lookup.
  - apply (value_counts_inv cj); [|done].
    rewrite Forall_forall in Hndc. apply Hndc.
    by eapply list_elem_of_lookup_2.
Qed.

Lemma to_int32_small z : (0 ≤ z < 2^31)%Z → to_int32 z = z.
Proof.
  intros Hz. unfold to_int32.
  rewrite Z.mod_small; lia.
Qed.

Lemma NoDup_grid k ps : NoDup ps → NoDup (grid k ps).
Proof.
  intros Hnd. unfold grid. apply NoDup_bind.
  - intros i1 i2 r _ _ (p1 & -> & _)%list_elem_of_fmap
      (p2 & [= -> _] & _)%list_elem_of_fmap. done.
  - intros i _. apply NoDup_fmap_2; [|done]. by intros ?? [= ->].
  - apply NoDup_seq.
Qed.

Lemma elem_of_grid k ps i p : i :: p ∈ grid k ps ↔ i < k ∧ p ∈ ps.
Proof.
  unfold grid. rewrite list_elem_of_bind. split.
  - intros (i' & (p' & [= -> ->] & Hp)%list_elem_of_fmap & Hi%elem_of_seq).
    split; [lia | done].
  - intros [Hi Hp]. exists i. split.
    + apply list_elem_of_fmap. eauto.
    + apply elem_of_seq. lia.
Qed.

Lemma Zsum_of_nat (l : list nat) :
  Zsum (map Z.of_nat l) = Z.of_nat (sum_list l).
Proof. induction l as [|x l IH]; simpl; [done|]. rewrite IH. lia. Qed.

Lemma total_table k ps (h : list nat → nat) :
  total (table k ps (fun i p => Z.of_nat (h (i :: p))))
  = Z.of_nat (sum_list (map h (grid k ps))).
Proof.
  unfold total, table, grid.
  induction (seq 0 k) as [|i ks IH]; simpl; [done|].
  rewrite IH. rewrite map_app, sum_list_with_app, Nat2Z.inj_add. f_equal.
  rewrite <- Zsum_of_nat. f_equal.
  rewrite <- !list_fmap_compose. done.
Qed.

Lemma max_columns_Ok self ps :
  Forall (fun p => p ∈ Dict.keys (node_values self)) ps →
  max_columns self ps = Ok (product (map (domain_size self) ps)).
Proof.
  intros Hps. unfold max_columns.
  assert (Hgen : ∀ a,
    fold_left (fun acc p => maxcol ← acc;
                            nv ← Dict.item (node_values self) p;
                            Ok (maxcol * length (Dict.keys nv)))
              ps (Ok a)
    = Ok (a * product (map (domain_size self) ps))).
  { induction Hps as [|p ps Hp Hps IH]; intros a; simpl.
    - f_equal. lia.
    - apply DictFacts.get_is_Some in Hp as [nv Hnv].
      unfold Dict.item at 2. unfold domain_size at 1. rewrite Hnv. simpl.
      rewrite IH. f_equal. unfold Dict.keys. rewrite length_fmap. lia. }
  rewrite Hgen. f_equal. lia.
Qed.

Lemma num_cats_Ok self ns :
  Forall (fun p => p ∈ Dict.keys (node_values self)) ns →
  ∃ num_cats,
    mapM (fun n => nv ← Dict.item (node_values self) n; Ok (length nv)) ns
    = Ok num_cats.
Proof.
  intros Hns. exists (map (domain_size self) ns).
  apply mapM_Ok_map. intros n Hn. rewrite Forall_forall in Hns.
  apply Hns, DictFacts.get_is_Some in Hn as [nv Hnv].
  unfold Dict.item, domain_size. by rewrite Hnv.
Qed.

Lemma mapM_is_Ok {A B} (f : A → result B) l :
  (∀ x, x ∈ l → ∃ y, f x = Ok y) → ∃ k, mapM f l = Ok k.
Proof.
  induction l as [|x l IH]; intros H.
  - by exists [].
  - destruct (H x) as [y Hy]; [left|].
    destruct IH as [k Hk]; [intros; apply H; by right|].
    exists (y :: k). rewrite mapM_cons, Hy. simpl. by rewrite Hk.
Qed.

Lemma mapM_length {A B} (f : A → result B) l k :
  mapM f l = Ok k → length k = length l.
Proof. intros H%mapM_Ok. symmetry. by eapply Forall2_length. Qed.

Lemma codes_of_lookup self ps r i p j :
  ps !! i = Some p → column_of self p = Some j →
  codes_of self ps r !! i = Some (default 0 (r !! j)).
Proof.
  intros Hp Hj. unfold codes_of, code_of. rewrite list_lookup_fmap, Hp. simpl.
  by rewrite Hj.
Qed.

Lemma consistent_code_bound self n j cats cj r :
  consistent self → n ∈ Dict.keys (node_values self) →
  categories self = Some cats → column_of self n = Some j →
  cats !! j = Some cj → r ∈ rows (sample self) →
  default 0 (r !! j) < length cj
  ∧ default 0 (r !! j) < domain_size self n.
Proof.
  intros Hok Hn Hc Hj Hcj Hr.
  destruct (consistent_counts _ _ Hok Hn)
    as (cats' & j' & o & cj' & counts & Hc' & Hj' & _ & _ & Hcj' & Hg & Hl
        & _ & Hb).
  simplify_eq. unfold domain_size. rewrite Hg.
  pose proof (bincount_bound
    (map (fun r => default 0 (r !! j)) (rows (sample self)))) as HB.
  rewrite Forall_forall in HB.
  assert (default 0 (r !! j)
          < length (bincount (map (fun r => default 0 (r !! j))
                                  (rows (sample self))))).
  { apply HB. apply list_elem_of_fmap. eauto. }
  lia.
Qed.

Lemma row_col_values_Ok self n ps j0 js combos :
  consistent self →
  Forall (fun p => p ∈ Dict.keys (node_values self)) (n :: ps) →
  Forall2 (fun n j => column_of self n = Some j ∧ j < length (nodes self))
          (n :: ps) (j0 :: js) →
  Forall (fun c => ∃ r, r ∈ rows (sample self) ∧ c = codes_of self ps r)
         combos →
  ∃ rc, row_col_values self (j0 :: js) combos = Ok rc
        ∧ length rc.2 = length combos.
Proof.
  intros Hok Hall HF Hcombos.
  apply Forall_cons in Hall as [Hn Hps].
  apply Forall2_cons in HF as [[Hj0 Hj0n] HF].
  destruct (consistent_counts _ _ Hok Hn)
    as (cats & j0' & o0 & cj0 & cnt0 & Hc & Hj0' & _ & _ & Hcj0 & _).
  simplify_eq. unfold row_col_values. rewrite Hc. simpl.
  rewrite Hcj0. simpl.
  match goal with |- context [mapM ?f combos] =>
    destruct (mapM_is_Ok f combos) as [cv Hcv] end.
  { intros c Hc'. rewrite Forall_forall in Hcombos.
    destruct (Hcombos c Hc') as (r & Hr & ->).
    match goal with |- context [mapM ?f (seq 1 ?m)] =>
      destruct (mapM_is_Ok f (seq 1 m)) as [items Hitems] end.
    - intros j [Hj1 Hj2]%elem_of_seq.
      destruct j as [|j']; [lia|]. simpl in Hj2.
      assert (Hj' : j' < length js) by lia.
      destruct (lookup_lt_is_Some_2 js j' Hj') as [jr Hjr].
      destruct (Forall2_lookup_r _ _ _ _ _ HF Hjr) as (p & Hp & Hcol & _).
      assert (Hpk : p ∈ Dict.keys (node_values self)).
      { rewrite Forall_forall in Hps. apply Hps.
        by eapply list_elem_of_lookup_2. }
      destruct (consistent_counts _ _ Hok Hpk)
        as (cats' & jr' & o & cj & cnt & Hc'' & Hjr' & Ho & Hoe & Hcj & _).
      simplify_eq.
      destruct (consistent_code_bound self p jr cats cj r) as [Hb _]; try done.
      destruct (lookup_lt_is_Some_2 cj _ Hb) as [lbl Hlbl].
      exists (p, lbl). simpl. rewrite Hjr. simpl. rewrite Ho. simpl.
      unfold Dict.item. rewrite Hoe. simpl. rewrite Hcj. simpl.
      rewrite Nat.sub_0_r.
      rewrite (codes_of_lookup self ps r j' p jr) by done. simpl.
      by rewrite Hlbl.
    - eexists. rewrite Hitems. done. }
  exists (cj0, cv). rewrite Hcv. simpl. split; [done|].
  by eapply mapM_length.
Qed.

Lemma consistent_sample_length self :
  consistent self → N self = Z.of_nat (length (rows (sample self))).
Proof. intros Hok. apply Hok. Qed.

Lemma valid_request_keys self ns :
  consistent self → valid_request self ns →
  Forall (fun n => n ∈ Dict.keys (node_values self)) ns.
Proof.
  intros Hok [Hall _]. eapply Forall_impl; [done|].
  intros n. by apply consistent_variables.
Qed.

Lemma marginals_multi self node ps parents values_reqd :
  consistent self →
  parents !! node = Some ps → ps ≠ [] →
  valid_request self (node :: ps) →
  let sel := map (codes_of self (node :: ps)) (rows (sample self)) in
  let p_combos := unique (map (drop 1) (unique sel)) in
  ∃ rowval colval,
    marginals self node parents values_reqd
    = Ok (table (domain_size self node) p_combos
                (fun i p => to_int32 (Z.of_nat (count_row (i :: p) sel))),
          product (map (domain_size self) ps), rowval, colval)
    ∧ (values_reqd = true →
       ∃ cv, colval = Some cv ∧ length cv = length p_combos).
Proof.
  intros Hok Hps Hne Hvalid sel p_combos.
  pose proof (valid_request_keys _ _ Hok Hvalid) as Hkeys.
  unfold marginals, requested. rewrite Hps.
  rewrite decide_False by by apply consistent_valid_request.
  rewrite decide_False by (destruct ps; simpl; [done | lia]).
  destruct (consistent_columns_reqd _ _ Hok Hkeys) as (js & Hjs & HF).
  rewrite Hjs, bind_Ok_l.
  destruct (num_cats_Ok _ _ Hkeys) as (nc & Hnc). rewrite Hnc, bind_Ok_l.
  destruct js as [|j0 js]; [by inversion HF|].
  pose proof Hok as (_ & _ & Hncols & Hrect & _ & _ & _ & _).
  rewrite select_columns_Ok;
    [|done| rewrite Hncols; eapply Forall2_Forall_r; [apply HF|];
            apply Forall_forall; intros ? ? ? [? ?]; done].
  rewrite bind_Ok_l. cbn [rows].
  assert (Hsel : map (pick (j0 :: js)) (rows (sample self)) = sel).
  { apply map_ext. intros r. by eapply pick_codes_of. }
  rewrite Hsel.
  apply Forall_cons in Hkeys as [Hn Hpsk].
  destruct (consistent_counts _ _ Hok Hn)
    as (cats & j0' & o0 & cj0 & cnt0 & Hc & Hj0' & _ & _ & Hcj0 & Hg & Hlen
        & _).
  pose proof HF as HF'.
  apply Forall2_cons in HF' as [[Hj0 _] HFps].
  assert (j0' = j0) as -> by congruence.
  unfold Dict.item at 1. rewrite Hg. cbn [or_raise]. rewrite bind_Ok_l.
  assert (Hdom : domain_size self node = length cnt0).
  { unfold domain_size. by rewrite Hg. }
  rewrite <- Hdom.
  assert (Hcombos : Forall (fun r => ∃ c p, r = c :: p
                       ∧ c < domain_size self node ∧ p ∈ p_combos)
                     (unique sel)).
  { apply Forall_forall. intros r Hr.
    pose proof Hr as Hr'. rewrite elem_of_unique in Hr'.
    apply list_elem_of_fmap in Hr' as (row & -> & Hrow).
    eexists _, _. split; [reflexivity|]. split.
    - change (default 0 (column_of self node ≫= fun j => row !! j)
              < domain_size self node).
      rewrite Hj0. simpl.
      by eapply consistent_code_bound.
    - unfold p_combos. apply elem_of_unique.
      apply list_elem_of_fmap. eexists. split; [|exact Hr]. done. }
  unfold unique_counts. cbn [fst snd].
  fold p_combos. rewrite length_seq.
  rewrite (populate_table _ _ _ (fun r => count_row r sel))
    by (done || apply unique_NoDup).
  rewrite bind_Ok_l. cbn [or_raise]. rewrite bind_Ok_l.
  rewrite max_columns_Ok by done. rewrite bind_Ok_l.
  assert (Htab :
    table (domain_size self node) p_combos
      (fun i p => if decide (i :: p ∈ unique sel)
                  then to_int32 (Z.of_nat (count_row (i :: p) sel))
                  else 0%Z)
    = table (domain_size self node) p_combos
        (fun i p => to_int32 (Z.of_nat (count_row (i :: p) sel)))).
  { apply table_ext. intros i p _ _. case_decide as Hin; [done|].
    rewrite elem_of_unique in Hin.
    apply occ_not_elem in Hin. unfold occ in Hin. unfold count_row.
    by rewrite Hin. }
  rewrite Htab.
  destruct values_reqd.
  - destruct (row_col_values_Ok self node ps j0 js p_combos)
      as (rc & Hrc & Hlenrc); try done.
    { by apply Forall_cons. }
    { apply Forall_forall. intros c Hc'. unfold p_combos in Hc'.
      rewrite elem_of_unique in Hc'.
      apply list_elem_of_fmap in Hc' as (r & -> & Hr).
      rewrite elem_of_unique in Hr.
      apply list_elem_of_fmap in Hr as (row & -> & Hrow).
      exists row. split; [done|]. done. }
    rewrite Hrc. simpl. eexists _, _. split; [done|].
    intros _. eauto.
  - eexists _, _. split; [done|]. done.
Qed.

Lemma marginals_multi_exact self node ps parents values_reqd :
  consistent self → (N self < 2^31)%Z →
  parents !! node = Some ps → ps ≠ [] →
  valid_request self (node :: ps) →
  let sel := map (codes_of self (node :: ps)) (rows (sample self)) in
  let p_combos := unique (map (drop 1) (unique sel)) in
  ∃ rowval colval,
    marginals self node parents values_reqd
    = Ok (table (domain_size self node) p_combos
                (fun i p => Z.of_nat (count_row (i :: p) sel)),
          product (map (domain_size self) ps), rowval, colval)
    ∧ (values_reqd = true →
       ∃ cv, colval = Some cv ∧ length cv = length p_combos).
Proof.
  intros Hok HN Hps Hne Hvalid sel p_combos.
  destruct (marginals_multi self node ps parents values_reqd)
    as (rowval & colval & Hm & Hcv); try done.
  exists rowval, colval. split; [|done].
  rewrite Hm. do 4 f_equal.
  apply table_ext. intros i p _ _.
  apply to_int32_small. split; [lia|].
  pose proof (occ_le (i :: p) sel) as Hle. unfold occ in Hle.
  unfold count_row. unfold sel in Hle at 2. rewrite length_map in Hle.
  rewrite (consistent_sample_length _ Hok) in HN. lia.
Qed.

Lemma marginals_single self node parents values_reqd :
  consistent self →
  requested node parents = [node] →
  valid_request self [node] →
  ∃ nv,
    Dict.get (node_values self) node = Some nv
    ∧ marginals self node parents values_reqd
      = Ok (map (fun c => [Z.of_nat c]) (Dict.values nv), 1,
            if values_reqd then Some (Dict.keys nv) else None, None)
    ∧ Z.of_nat (sum_list (Dict.values nv)) = N self.
Proof.
  intros Hok Hreq Hvalid.
  pose proof (valid_request_keys _ _ Hok Hvalid) as Hkeys.
  apply Forall_cons in Hkeys as [Hn _].
  destruct (consistent_counts _ _ Hok Hn)
    as (cats & j & o & cj & nv & _ & _ & _ & _ & _ & Hg & _ & Hperm & _).
  exists nv. split; [done|]. split.
  - unfold marginals. rewrite Hreq.
    rewrite decide_False by by apply consistent_valid_request.
    rewrite decide_True by done.
    unfold Dict.item. by rewrite Hg.
  - rewrite Hperm, sum_bincount, length_map.
    symmetry. by apply consistent_sample_length.
Qed.

Lemma total_singletons (l : list nat) :
  total (map (fun c => [Z.of_nat c]) l) = Z.of_nat (sum_list l).
Proof.
  unfold total. induction l as [|c l IH]; simpl; [done|].
  rewrite IH. lia.
Qed.

Lemma requested_cases node (parents : gmap string (list string)) :
  requested node parents = [node]
  ∨ ∃ ps, parents !! node = Some ps ∧ ps ≠ []
          ∧ requested node parents = node :: ps.
Proof.
  unfold requested. destruct (parents !! node) as [[|p ps]|]; eauto.
Qed.

Lemma count_row_fmap {A} (f : A → list nat) r (l : list A) :
  count_row r (map f l) = length (filter (fun x => f x = r) l).
Proof.
  unfold count_row. induction l as [|x l IH]; simpl; [done|].
  rewrite !filter_cons. case_decide; simpl; by rewrite IH.
Qed.

Lemma table_lookup k ps g i j p :
  i < k → ps !! j = Some p →
  table k ps g !! i ≫= (fun row => row !! j) = Some (g i p).
Proof.
  intros Hi Hp. unfold table.
  rewrite list_lookup_fmap, lookup_seq_lt by done. simpl.
  by rewrite list_lookup_fmap, Hp.
Qed.

Lemma table_length k ps g : length (table k ps g) = k.
Proof. unfold table. by rewrite length_map, length_seq. Qed.

Lemma table_row_length k ps g :
  Forall (fun row => length row = length ps) (table k ps g).
Proof.
  unfold table. apply Forall_fmap, Forall_forall. intros i _. simpl.
  by rewrite length_map.
Qed.

Lemma selected_in_grid self node ps r :
  consistent self →
  Forall (fun n => n ∈ Dict.keys (node_values self)) (node :: ps) →
  r ∈ rows (sample self) →
  codes_of self (node :: ps) r
  ∈ grid (domain_size self node)
         (unique (map (drop 1)
            (unique (map (codes_of self (node :: ps))
                         (rows (sample self)))))).
Proof.
  intros Hok [Hn _]%Forall_cons Hr.
  destruct (consistent_counts _ _ Hok Hn)
    as (cats & j0 & o0 & cj0 & cnt0 & Hc & Hj0 & _ & _ & Hcj0 & _).
  change (codes_of self (node :: ps) r)
    with (default 0 (column_of self node ≫= fun j => r !! j)
          :: codes_of self ps r).
  apply elem_of_grid. split.
  - rewrite Hj0. simpl. by eapply consistent_code_bound.
  - rewrite elem_of_unique. apply list_elem_of_fmap.
    exists (codes_of self (node :: ps) r). split; [done|].
    rewrite elem_of_unique. apply list_elem_of_fmap. eauto.
Qed.

Section Generator.
Variable rng : Z → nat → list nat.

Lemma narrowed_rows self n :
  rows (narrowed self n) = take (Z.to_nat n) (rows (data self)).
Proof.
  unfold narrowed, shape. simpl. case_decide as Hn; [|done].
  rewrite firstn_all2; [done|]. lia.
Qed.

Lemma narrowed_ncols self n : ncols (narrowed self n) = ncols (data self).
Proof. unfold narrowed. by case_decide. Qed.

Lemma narrowed_dtype self n :
  arr_dtype (narrowed self n) = arr_dtype (data self).
Proof. unfold narrowed. by case_decide. Qed.

Lemma set_N_inv self n seed self' :
  set_N rng self n seed = Ok self' →
  (1 ≤ n ≤ Z.of_nat (length (rows (data self))))%Z
  ∧ ¬ seed_out_of_range seed
  ∧ ∃ nv smpl,
      self' = with_sampling self n smpl nv
      ∧ sample_node_values self (narrowed self n) = Ok nv
      ∧ (match seed with
         | Some s =>
             if decide (s ≠ 0%Z)
             then index_rows (narrowed self n) (rng s (Z.to_nat n))
             else Ok (narrowed self n)
         | None => Ok (narrowed self n)
         end = Ok smpl).
Proof.
  unfold set_N. case_decide as Hg; [done|].
  intros (nv & Hnv & (smpl & Hs & [= <-])%bind_Ok)%bind_Ok.
  unfold shape in Hg. simpl in Hg.
  split; [lia|]. split; [tauto|]. eauto.
Qed.

Lemma index_rows_inv a order a' :
  index_rows a order = Ok a' →
  arr_dtype a' = arr_dtype a ∧ ncols a' = ncols a
  ∧ Forall2 (fun i r => rows a !! i = Some r) order (rows a').
Proof.
  unfold index_rows. intros (rs & Hrs & [= <-])%bind_Ok. simpl.
  split_and!; try done. apply mapM_Ok in Hrs.
  eapply Forall2_impl; [done|]. intros i r Hr. by apply or_raise_Ok in Hr.
Qed.

Lemma omap_lookup_seq {A} (pre l : list A) :
  omap (fun i => (pre ++ l) !! i) (seq (length pre) (length l)) = l.
Proof.
  revert pre. induction l as [|x l IH]; intros pre; simpl; [done|].
  rewrite list_lookup_middle by done. f_equal.
  specialize (IH (pre ++ [x])).
  rewrite length_app, Nat.add_1_r, <- app_assoc in IH. done.
Qed.

Lemma indexed_Permutation {A} (l l' : list A) order :
  order ≡ₚ seq 0 (length l) →
  Forall2 (fun i r => l !! i = Some r) order l' → l' ≡ₚ l.
Proof.
  intros Hp HF.
  assert (Hl' : l' = omap (fun i => l !! i) order).
  { clear Hp. induction HF as [|i r order l' Hi _ IH]; [done|].
    simpl. rewrite Hi. by f_equal. }
  rewrite Hl', Hp. pose proof (omap_lookup_seq [] l) as Hl.
  simpl in Hl. by rewrite Hl.
Qed.

Lemma init_inv data dstype cv self :
  __init__ rng data dstype cv = Ok self →
  2 ≤ length (rows data) ∧ 2 ≤ ncols data ∧ ncols data = length cv
  ∧ (match dstype with
     | categorical => arr_dtype data = uint8
     | continuous => arr_dtype data = float32
     end)
  ∧ ∃ cats,
      match dstype with
      | categorical =>
          ∃ cs, cats = Some cs
                ∧ Forall2 (fun n c => Dict.get cv n = Some (Some c))
                          (Dict.keys cv) cs
      | continuous => cats = None
      end
      ∧ set_N rng
          (mk data data (Dict.keys cv) cats (seq 0 (length (Dict.keys cv)))
              (Dict.of_items (map (fun n => (n, n)) (Dict.keys cv)))
              (Dict.of_items (map (fun n => (n, n)) (Dict.keys cv)))
              0%Z
              (Dict.of_items
                 (map (fun n => (n, match dstype with
                                    | categorical => "category"%string
                                    | continuous => "float32"%string
                                    end)) (Dict.keys cv)))
              dstype [])
          (Z.of_nat (length (rows data))) None = Ok self.
Proof.
  unfold __init__. case_decide as Ht; [done|]. case_decide as Hv; [done|].
  unfold shape in *. simpl in *.
  intros (cats & Hcats & Hset)%bind_Ok.
  split_and!; try lia.
  - destruct dstype, (arr_dtype data); try done;
      exfalso; apply Hv; do 3 right; naive_solver.
  - exists cats. split; [|done].
    destruct dstype.
    + destruct (mapM _ _) as [cs|] eqn:Hcs in Hcats; [|done].
      injection Hcats as <-. exists cs. split; [done|].
      apply mapM_Ok in Hcs. eapply Forall2_impl; [done|].
      intros k c (v & Hv'%or_raise_Ok & Hc%or_raise_Ok)%bind_Ok.
      by subst.
    + by injection Hcats as <-.
Qed.

(** The row of the requested columns of a data row. *)
Lemma mapM_tuple_index (l ns : list string) :
  NoDup l → Forall (fun n => n ∈ l) ns →
  ∃ js, mapM (tuple_index l) ns = Ok js
        ∧ Forall2 (fun n j => l !! j = Some n) ns js.
Proof.
  intros Hnd. induction 1 as [|n ns Hn _ (js & Hjs & HF)].
  - exists []. split; [done | constructor].
  - apply list_elem_of_lookup in Hn as [j Hj].
    exists (j :: js). rewrite mapM_cons.
    rewrite (tuple_index_lookup l j n) by done. rewrite bind_Ok_l, Hjs.
    split; [done|]. by constructor.
Qed.

Lemma elem_of_pd_unique x l : x ∈ pd_unique l ↔ x ∈ l.
Proof.
  induction l as [|y l IH]; simpl; [done|].
  rewrite !elem_of_cons, list_elem_of_filter, IH.
  destruct (decide (x = y)); naive_solver.
Qed.

Lemma pd_unique_NoDup l : NoDup (pd_unique l).
Proof.
  induction l as [|y l IH]; simpl; constructor.
  - rewrite list_elem_of_filter. naive_solver.
  - by apply NoDup_filter.
Qed.

Lemma filter_id {A} (P : A → Prop) `{∀ x, Decision (P x)} (l : list A) :
  Forall P l → filter P l = l.
Proof.
  induction 1 as [|x l Hx _ IH]; [done|].
  rewrite filter_cons, decide_True by done. by f_equal.
Qed.

Lemma pd_unique_id l : NoDup l → pd_unique l = l.
Proof.
  induction 1 as [|x l Hx Hnd IH]; simpl; [done|]. f_equal.
  rewrite IH. apply filter_id, Forall_forall. by intros y Hy ->.
Qed.

Lemma pd_unique_length l :
  length (pd_unique l) = size (list_to_set l : gset string).
Proof.
  rewrite <- (size_list_to_set (C:=gset string)) by apply pd_unique_NoDup.
  f_equal. apply set_eq. intros x.
  by rewrite !elem_of_list_to_set, elem_of_pd_unique.
Qed.

Lemma pd_unique_app l1 l2 :
  pd_unique (l1 ++ l2)
  = pd_unique l1 ++ filter (fun y => y ∉ l1) (pd_unique l2).
Proof.
  induction l1 as [|x l1 IH]; simpl.
  - symmetry. apply filter_id, Forall_forall. intros y _. apply not_elem_of_nil.
  - f_equal. rewrite IH, filter_app. f_equal.
    rewrite list_filter_filter. apply list_filter_iff.
    intros y. rewrite not_elem_of_cons. tauto.
Qed.

Lemma pd_unique_first l i v :
  l !! i = Some v → v ∉ take i l →
  pd_unique l !! size (list_to_set (take i l) : gset string) = Some v.
Proof.
  intros Hi Hv. rewrite <- pd_unique_length.
  replace (pd_unique l) with (pd_unique (take i l ++ v :: drop (S i) l))
    by (by rewrite take_drop_middle).
  rewrite pd_unique_app. simpl.
  rewrite filter_cons, decide_True by done.
  by rewrite list_lookup_middle.
Qed.

(** The code that [factorize] gives to a value. *)
Lemma factorize_code vals i v :
  vals !! i = Some v →
  ∃ c, (factorize vals).1 !! i = Some c
       ∧ (factorize vals).2 !! c = Some v.
Proof.
  intros Hi. unfold factorize. simpl. rewrite list_lookup_fmap, Hi. simpl.
  destruct (list_find _ (pd_unique vals)) as [[c u]|] eqn:Hf; simpl.
  - apply list_find_Some in Hf as (Hc & -> & _). eauto.
  - apply list_find_None in Hf. rewrite Forall_forall in Hf.
    exfalso. apply (Hf v); [|done]. apply elem_of_pd_unique.
    by eapply list_elem_of_lookup_2.
Qed.

Lemma factorize_columns_inv cols st :
  NoDup cols.*1 →
  factorize_columns cols = Ok st →
  Forall (fun col => ∃ vals, col.2 = CategorySeries vals
                             ∧ length (pd_unique vals) ≤ MAX_CATEGORY) cols
  ∧ st.1 = map column_codes cols
  ∧ st.2 = map column_categories cols.
Proof.
  unfold factorize_columns.
  set (step := fun (acc : result (list (list nat)
                         * list (string * option (list string)))) col => _).
  assert (Hgen : ∀ cols acc st,
    NoDup (Dict.keys acc.2 ++ cols.*1) →
    fold_left step cols (Ok acc) = Ok st →
    Forall (fun col => ∃ vals, col.2 = CategorySeries vals
                               ∧ length (pd_unique vals) ≤ MAX_CATEGORY) cols
    ∧ st.1 = acc.1 ++ map column_codes cols
    ∧ st.2 = acc.2 ++ map column_categories cols).
  { clear. induction cols as [|[name s] cols IH]; intros acc st Hnd; simpl.
    - intros [= <-]. by rewrite !app_nil_r.
    - destruct s as [vals|vals]; simpl.
      + case_decide as Hmax.
        * rewrite fold_left_Raise; [done|]. done.
        * intros Hfold. apply IH in Hfold as (Hall & H1 & H2).
          -- simpl in *. split_and!.
             ++ constructor; [|done]. exists vals. split; [done|]. lia.
             ++ rewrite H1, <- app_assoc. done.
             ++ rewrite H2. rewrite DictFacts.set_fresh.
                ** rewrite <- app_assoc. simpl. unfold column_categories.
                   simpl. by rewrite pd_unique_id by apply pd_unique_NoDup.
                ** apply NoDup_app in Hnd as (_ & Hd & _).
                   intros Hin. apply (Hd _ Hin). left.
          -- simpl. rewrite DictFacts.set_fresh.
             ++ unfold Dict.keys in *. rewrite fmap_app. simpl.
                rewrite <- app_assoc. done.
             ++ apply NoDup_app in Hnd as (_ & Hd & _).
                intros Hin. apply (Hd _ Hin). left.
      + rewrite fold_left_Raise; [done|]. done. }
  intros Hnd Hfold. apply (Hgen cols ([], [])); done.
Qed.

Lemma dtypes_category (cols : list (string * Series)) :
  (list_to_set (map (fun c => series_dtype c.2) cols) : gset string)
  = {["category"%string]} →
  Forall (fun col => ∃ vals, col.2 = CategorySeries vals) cols.
Proof.
  intros Hd. apply Forall_forall. intros [name s] Hin.
  destruct s as [vals|vals]; [eauto|]. exfalso.
  assert (H : "float32"%string
              ∈ (list_to_set (map (fun c => series_dtype c.2) cols)
                 : gset string)).
  { apply elem_of_list_to_set, list_elem_of_fmap.
    exists (name, Float32Series vals). done. }
  rewrite Hd in H. by apply elem_of_singleton in H.
Qed.

Lemma from_df_categorical_inv df keep ds :
  df_wf df →
  from_df rng df categorical keep = Ok ds →
  Forall (fun col => ∃ vals, col.2 = CategorySeries vals
                             ∧ length (pd_unique vals) ≤ MAX_CATEGORY)
         (columns df)
  ∧ __init__ rng (to_numpy uint8 (df_len df)
                             (map column_codes (columns df)))
             categorical (map column_categories (columns df)) = Ok ds.
Proof.
  intros [Hnd Hlen]. unfold from_df. case_decide as Hg; [done|].
  intros (st & Hst & Hinit)%bind_Ok.
  apply factorize_columns_inv in Hst as (Hall & H1 & H2); [|done].
  by rewrite H1, H2 in Hinit.
Qed.

Lemma to_numpy_rows dt n cols i :
  i < n →
  rows (to_numpy dt n cols) !! i
  = Some (map (fun c : list nat =>
                 match dt with uint8 => to_uint8 | float32 => id end
                   (nth i c 0)) cols).
Proof.
  intros Hi. unfold to_numpy. simpl.
  by rewrite list_lookup_fmap, lookup_seq_lt.
Qed.

Lemma to_numpy_length dt n cols : length (rows (to_numpy dt n cols)) = n.
Proof. unfold to_numpy. simpl. by rewrite length_map, length_seq. Qed.

Lemma to_numpy_rectangular dt n cols : rectangular (to_numpy dt n cols).
Proof.
  unfold rectangular, to_numpy. simpl. apply Forall_fmap, Forall_forall.
  intros i _. simpl. by rewrite length_map.
Qed.

Lemma init_fields dat dstype cv ds :
  __init__ rng dat dstype cv = Ok ds →
  data ds = dat ∧ sample ds = dat ∧ nodes ds = Dict.keys cv
  ∧ N ds = Z.of_nat (length (rows dat)) ∧ NumPy.dstype ds = dstype
  ∧ ext_to_orig ds = Dict.of_items (map (fun n => (n, n)) (Dict.keys cv))
  ∧ orig_to_ext ds = Dict.of_items (map (fun n => (n, n)) (Dict.keys cv))
  ∧ match dstype with
    | categorical =>
        ∃ cs, categories ds = Some cs
              ∧ Forall2 (fun n c => Dict.get cv n = Some (Some c))
                        (Dict.keys cv) cs
    | continuous => categories ds = None
    end.
Proof.
  intros (_ & _ & _ & _ & cats & Hcats & Hset)%init_inv.
  apply set_N_inv in Hset as (_ & _ & nv & smpl & -> & _ & Hs). simpl in *.
  injection Hs as <-. unfold narrowed, shape. simpl.
  rewrite decide_True by done.
  split_and!; done.
Qed.

Lemma to_uint8_small n : n < 256 → to_uint8 n = n.
Proof. intros Hn. unfold to_uint8. by apply Nat.mod_small. Qed.

Lemma factorize_columns_too_many cols name vals :
  Forall (fun col => ∃ vals, col.2 = CategorySeries vals) cols →
  (name, CategorySeries vals) ∈ cols →
  length (pd_unique vals) > MAX_CATEGORY →
  ∃ msg, factorize_columns cols = Raise (ValueError msg).
Proof.
  unfold factorize_columns.
  set (step := fun (acc : result (list (list nat)
                         * list (string * option (list string)))) col => _).
  intros Hall Hin Hmax. generalize ([] : list (list nat),
                                    [] : list (string * option (list string))).
  induction Hall as [|[name' s] cols (vals' & Hs) Hall IH]; intros acc.
  - by apply elem_of_nil in Hin.
  - simpl in Hs. subst s. simpl.
    case_decide as Hm.
    + rewrite fold_left_Raise by done. eauto.
    + apply elem_of_cons in Hin as [[= -> ->]|Hin]; [done|]. by apply IH.
Qed.

Lemma factorize_columns_error cols e :
  Forall (fun col => ∃ vals, col.2 = CategorySeries vals) cols →
  factorize_columns cols = Raise e → ∃ msg, e = ValueError msg.
Proof.
  unfold factorize_columns.
  set (step := fun (acc : result (list (list nat)
                         * list (string * option (list string)))) col => _).
  intros Hall. generalize ([] : list (list nat),
                           [] : list (string * option (list string))).
  induction Hall as [|[name' s] cols (vals' & Hs) Hall IH]; intros acc.
  - done.
  - simpl in Hs. subst s. simpl.
    case_decide as Hm.
    + rewrite fold_left_Raise by done. intros [= <-]. eauto.
    + apply IH.
Qed.

Lemma dtypes_float32 (cols : list (string * Series)) :
  (list_to_set (map (fun c => series_dtype c.2) cols) : gset string)
  = {["float32"%string]} →
  Forall (fun col => ∃ vals, col.2 = Float32Series vals) cols.
Proof.
  intros Hd. apply Forall_forall. intros [name s] Hin.
  destruct s as [vals|vals]; [|eauto]. exfalso.
  assert (H : "category"%string
              ∈ (list_to_set (map (fun c => series_dtype c.2) cols)
                 : gset string)).
  { apply elem_of_list_to_set, list_elem_of_fmap.
    exists (name, CategorySeries vals). done. }
  rewrite Hd in H. by apply elem_of_singleton in H.
Qed.

Lemma init_small_fails dat dstype cv :
  length (rows dat) < 2 ∨ ncols dat < 2 →
  ∃ e, __init__ rng dat dstype cv = Raise e.
Proof.
  intros Hsmall. unfold __init__. case_decide; [eauto|].
  rewrite decide_True; [eauto|]. unfold shape. simpl. tauto.
Qed.

Lemma init_small_value_error dat dstype
    (cv : list (string * option (list string))) :
  length (rows dat) < 2 →
  match dstype with
  | categorical => Forall is_Some (Dict.values cv)
  | continuous => Forall (fun v => v = None) (Dict.values cv)
  end →
  __init__ rng dat dstype cv = Raise (ValueError "NumPy bad arg values").
Proof.
  intros Hsmall Hty. unfold __init__.
  rewrite decide_False by (destruct dstype; naive_solver).
  rewrite decide_True; [done|]. unfold shape. simpl. tauto.
Qed.

Lemma sample_node_values_inv self smpl cats nv :
  dstype self = categorical → categories self = Some cats →
  NoDup (nodes self) → ncols smpl ≤ length (nodes self) →
  sample_node_values self smpl = Ok nv →
  nv.*1 = take (ncols smpl) (nodes self)
  ∧ Forall2 (fun kv j => expected_counts cats smpl j = Ok kv.2)
            nv (seq 0 (ncols smpl)).
Proof.
  intros Hds Hcats Hnd. unfold sample_node_values. rewrite Hds, Hcats.
  unfold shape. simpl.
  set (step := fun (acc : result (list (string * list (string * nat))))
                   (j : nat) => _).
  generalize (ncols smpl) as m. intros m. revert nv.
  induction m as [|m IH]; intros nv Hm.
  - simpl. intros [= <-]. split; [done | constructor].
  - rewrite seq_S, fold_left_app. simpl.
    destruct (fold_left step (seq 0 m) (Ok [])) as [nv0|e] eqn:Hfold;
      [|done].
    destruct (IH nv0) as [Hk HF]; [lia|done|].
    unfold step at 1. rewrite bind_Ok_l.
    intros (col & Hcol & Hrest)%bind_Ok. simpl in Hrest.
    apply bind_Ok in Hrest as (cj & Hcj%or_raise_Ok & Hrest).
    apply bind_Ok in Hrest as (counts & Hcounts & Hrest).
    apply bind_Ok in Hrest as (name & Hname%or_raise_Ok & [= <-]).
    assert (Hfresh : name ∉ Dict.keys nv0).
    { unfold Dict.keys. rewrite Hk. intros Hin.
      apply list_elem_of_lookup in Hin as [i Hi].
      apply lookup_take_Some in Hi as [Hi Him].
      assert (i = m) by by eapply NoDup_lookup. lia. }
    rewrite DictFacts.set_fresh by done. split.
    + rewrite fmap_app, Hk. simpl.
      by rewrite (take_S_r _ _ _ Hname).
    + apply Forall2_app; [done|]. constructor; [|constructor]. simpl.
      unfold expected_counts. rewrite Hcol, bind_Ok_l, Hcj. simpl. done.
Qed.

Lemma value_counts_bincount cats col col' :
  col ≡ₚ col' → value_counts cats col = value_counts cats col'.
Proof.
  intros Hp. unfold value_counts. by rewrite (bincount_Permutation _ _ Hp).
Qed.

Lemma expected_counts_Permutation cats a a' j :
  rectangular a → rectangular a' → ncols a = ncols a' →
  rows a ≡ₚ rows a' →
  expected_counts cats a j = expected_counts cats a' j.
Proof.
  intros Hr Hr' Hn Hp. unfold expected_counts.
  destruct (decide (j < ncols a)) as [Hj|Hj].
  - rewrite !column_Ok by (done || lia). rewrite !bind_Ok_l.
    destruct (cats !! j); simpl; [|done].
    apply value_counts_bincount. by rewrite Hp.
  - unfold column. rewrite !decide_False by lia. done.
Qed.

Lemma identity_map_get (l : list string) n :
  n ∈ l → Dict.get (map (fun n => (n, n)) l) n = Some n.
Proof.
  induction l as [|x l IH]; simpl; [by intros ?%elem_of_nil|].
  case_decide; [by subst|]. intros [->|Hin]%elem_of_cons; [done|]. auto.
Qed.

Lemma set_N_consistent self n seed self' :
  constructed self →
  (∀ s, seed = Some s → rng s (Z.to_nat n) ≡ₚ seq 0 (Z.to_nat n)) →
  set_N rng self n seed = Ok self' →
  consistent self' ∧ constructed self'.
Proof.
  intros (Hds & Hnd & Hnc & Hrect & He2o & Ho2e & cats & Hcats & Hlc & Hndc)
    Hrng (Hn & _ & nv & smpl & -> & Hnv & Hs)%set_N_inv.
  split; [|unfold constructed; simpl; eauto 10].
  assert (Hlen : length (take (Z.to_nat n) (rows (data self))) = Z.to_nat n).
  { rewrite length_take. lia. }
  assert (Hrn : rectangular (narrowed self n)).
  { unfold rectangular. rewrite narrowed_rows, narrowed_ncols.
    by apply Forall_take. }
  apply sample_node_values_inv with (cats := cats) in Hnv as [Hk HF];
    [|done..|rewrite narrowed_ncols; lia].
  rewrite narrowed_ncols, Hnc in Hk, HF. rewrite firstn_all in Hk.
  assert (Hsmpl : arr_dtype smpl = arr_dtype (data self)
                  ∧ ncols smpl = ncols (data self)
                  ∧ rows smpl ≡ₚ take (Z.to_nat n) (rows (data self))).
  { destruct seed as [s|].
    - case_decide as Hs0.
      + apply index_rows_inv in Hs as (Hd & Hc & HF').
        rewrite narrowed_dtype, narrowed_ncols, narrowed_rows in *.
        split_and!; try done.
        eapply indexed_Permutation; [|exact HF']. rewrite Hlen. auto.
      + injection Hs as <-.
        by rewrite narrowed_dtype, narrowed_ncols, narrowed_rows.
    - injection Hs as <-.
      by rewrite narrowed_dtype, narrowed_ncols, narrowed_rows. }
  destruct Hsmpl as (_ & Hsc & Hsr).
  assert (Hsrect : rectangular smpl).
  { unfold rectangular. rewrite Hsc, Hsr. by apply Forall_take. }
  unfold consistent. simpl. rewrite Hcats.
  split_and!; try done.
  - lia.
  - rewrite Hsr, Hlen. lia.
  - lia.
  - unfold variables. simpl. rewrite He2o. unfold Dict.keys.
    rewrite <- list_fmap_compose, list_fmap_id, Hk.
    by apply Forall_forall.
  - apply Forall2_same_length_lookup. split.
    { rewrite enumerate_length, <- (length_fmap fst nv), Hk. done. }
    intros i [k counts] [i' o] Hi Ho.
    apply enumerate_lookup in Ho as (o' & [= -> ->] & Ho). simpl.
    assert (Hki : nv.*1 !! i = Some k) by by rewrite list_lookup_fmap, Hi.
    rewrite Hk, Ho in Hki. injection Hki as ->.
    assert (Hin : k ∈ nodes self) by by eapply list_elem_of_lookup_2.
    rewrite He2o, Ho2e, identity_map_get by done.
    split_and!; try done.
    assert (Hi' : seq 0 (length (nodes self)) !! i = Some i).
    { apply lookup_seq_lt. by eapply lookup_lt_Some. }
    destruct (Forall2_lookup_l _ _ _ _ _ HF Hi) as (j & Hj & He).
    rewrite Hi' in Hj. injection Hj as <-. simpl in He. rewrite <- He.
    apply expected_counts_Permutation; try done.
    + by rewrite narrowed_ncols.
    + by rewrite narrowed_rows.
Qed.

Lemma init_consistent dat cv self :
  NoDup (Dict.keys cv) →
  Forall (fun kv => ∀ c, kv.2 = Some c → NoDup c) cv →
  rectangular dat →
  __init__ rng dat categorical cv = Ok self →
  consistent self ∧ constructed self.
Proof.
  intros Hnd Hlabels Hrect
    (_ & _ & Hnc & _ & cats & (cs & -> & HF) & Hset)%init_inv.
  eapply set_N_consistent; [| |exact Hset]; [|by intros s [=]].
  unfold constructed. simpl.
  rewrite !DictFacts.of_items_NoDup
    by (unfold Dict.keys; by rewrite <- list_fmap_compose, list_fmap_id).
  split_and!; try done.
  - rewrite Hnc. unfold Dict.keys. by rewrite length_fmap.
  - exists cs. split_and!; try done.
    + symmetry. by eapply Forall2_length.
    + apply Forall_forall. intros c Hc.
      apply list_elem_of_lookup in Hc as [i Hi].
      destruct (Forall2_lookup_r _ _ _ _ _ HF Hi) as (k & _ & Hget).
      apply DictFacts.get_Some_elem in Hget.
      rewrite Forall_forall in Hlabels. by apply (Hlabels _ Hget).
Qed.

Lemma from_df_consistent df keep self :
  df_wf df → from_df rng df categorical keep = Ok self →
  consistent self ∧ constructed self.
Proof.
  intros Hwf Hfrom. pose proof Hwf as [Hnd _].
  apply from_df_categorical_inv in Hfrom as [_ Hinit]; [|done].
  eapply init_consistent; [| | |exact Hinit].
  - unfold Dict.keys. by rewrite <- list_fmap_compose.
  - apply Forall_fmap, Forall_forall. intros col _ c [= <-].
    apply pd_unique_NoDup.
  - apply to_numpy_rectangular.
Qed.

(** The datasets that an experiment works on: built from a dataframe and
    then resized. *)
Lemma from_df_set_N_consistent df keep ds0 n seed self :
  df_wf df → (∀ s m, rng s m ≡ₚ seq 0 m) →
  from_df rng df categorical keep = Ok ds0 →
  set_N rng ds0 n seed = Ok self →
  consistent self.
Proof.
  intros Hwf Hrng Hfrom Hset.
  destruct (from_df_consistent df keep ds0 Hwf Hfrom) as [_ Hc].
  by destruct (set_N_consistent ds0 n seed self Hc (fun s _ => Hrng s _) Hset).
Qed.

Lemma domain_size_codes self n :
  consistent self → n ∈ variables self →
  domain_size self n
  = S (max_list (map (code_of self n) (rows (sample self)))).
Proof.
  intros Hok Hn. apply consistent_variables in Hn; [|done].
  destruct (consistent_counts _ _ Hok Hn)
    as (cats & j & o & cj & counts & _ & Hj & _ & _ & _ & Hg & Hlen & _).
  unfold domain_size. rewrite Hg, Hlen, length_bincount.
  assert (Hcol : map (fun r => default 0 (r !! j)) (rows (sample self))
                 = map (code_of self n) (rows (sample self))).
  { apply map_ext. intros r. unfold code_of. by rewrite Hj. }
  rewrite Hcol.
  destruct Hok as (_ & _ & _ & _ & HN & HN1 & _).
  destruct (rows (sample self)) as [|r rs]; simpl in *; [lia|done].
Qed.

Lemma reversed_permutation s m : reversed s m ≡ₚ seq 0 m.
Proof. unfold reversed. apply reverse_Permutation. Qed.

(** Column [j] of a dataset built by [from_df]: the categories are the
    distinct values of the dataframe column, every row holds the code of
    its value, and every code occurs. *)
Lemma from_df_column df keep ds j name s :
  df_wf df → from_df rng df categorical keep = Ok ds →
  columns df !! j = Some (name, s) →
  ∃ vals cats,
    s = CategorySeries vals ∧ length vals = df_len df
    ∧ categories ds = Some cats ∧ cats !! j = Some (pd_unique vals)
    ∧ (∀ i v, vals !! i = Some v →
         ∃ row code, rows (data ds) !! i = Some row ∧ row !! j = Some code
                     ∧ pd_unique vals !! code = Some v)
    ∧ (∀ code, code < length (pd_unique vals) →
         ∃ i row, rows (data ds) !! i = Some row ∧ row !! j = Some code).
Proof.
  intros Hwf Hfrom Hj. pose proof Hwf as [Hnd Hlens].
  apply from_df_categorical_inv in Hfrom as [Hall Hinit]; [|done].
  apply init_fields in Hinit
    as (Hdata & _ & Hnodes & _ & _ & _ & _ & cs & Hcats & HF).
  assert (Hkeys : Dict.keys (map column_categories (columns df))
                  = (columns df).*1).
  { unfold Dict.keys. by rewrite <- list_fmap_compose. }
  rewrite Hkeys in *.
  rewrite Forall_forall in Hall.
  destruct (Hall (name, s)) as (vals & Hs & Hmax);
    [by eapply list_elem_of_lookup_2|].
  simpl in Hs. subst s.
  assert (Hname : (columns df).*1 !! j = Some name).
  { by rewrite list_lookup_fmap, Hj. }
  destruct (Forall2_lookup_l _ _ _ _ _ HF Hname) as (cat & Hcat & Hget).
  assert (Hget' : Dict.get (map column_categories (columns df)) name
                  = Some (Some (pd_unique vals))).
  { apply DictFacts.get_NoDup; [by rewrite Hkeys|].
    apply list_elem_of_fmap. exists (name, CategorySeries vals).
    split; [done|]. by eapply list_elem_of_lookup_2. }
  rewrite Hget' in Hget. injection Hget as <-.
  assert (Hlen : length vals = df_len df).
  { rewrite Forall_forall in Hlens.
    apply (Hlens (name, CategorySeries vals)).
    by eapply list_elem_of_lookup_2. }
  assert (Hcell : ∀ i v, vals !! i = Some v →
    ∃ row code, rows (data ds) !! i = Some row ∧ row !! j = Some code
                ∧ pd_unique vals !! code = Some v).
  { intros i v Hi.
    destruct (factorize_code vals i v Hi) as (c & Hc & Hu).
    assert (Hcl : c < length (pd_unique vals)) by by eapply lookup_lt_Some.
    eexists _, c. rewrite Hdata. split.
    - apply to_numpy_rows. apply lookup_lt_Some in Hi. lia.
    - split; [|done].
      rewrite list_lookup_fmap, list_lookup_fmap, Hj. simpl.
      unfold column_codes. simpl.
      rewrite (nth_lookup_Some _ _ _ _ Hc).
      f_equal. apply to_uint8_small. unfold MAX_CATEGORY in Hmax. lia. }
  exists vals, cs. split_and!; try done.
  intros code Hcode.
  destruct (lookup_lt_is_Some_2 _ _ Hcode) as [v Hv].
  assert (Hin : v ∈ vals).
  { apply elem_of_pd_unique. by eapply list_elem_of_lookup_2. }
  apply list_elem_of_lookup in Hin as [i Hi].
  destruct (Hcell i v Hi) as (row & code' & Hrow & Hc' & Hv').
  assert (code' = code) as ->.
  { eapply NoDup_lookup; [apply pd_unique_NoDup|done..]. }
  eauto.
Qed.

(** On the full sample of a dataset built by [from_df], the number of
    values recorded for a variable is the number of distinct values of its
    dataframe column. *)
Lemma from_df_domain_size df keep ds j name vals :
  df_wf df → from_df rng df categorical keep = Ok ds →
  columns df !! j = Some (name, CategorySeries vals) →
  domain_size ds name = size (list_to_set vals : gset string).
Proof.
  intros Hwf Hfrom Hj.
  destruct (from_df_consistent df keep ds Hwf Hfrom) as [Hcons Hcon].
  destruct (from_df_column df keep ds j name _ Hwf Hfrom Hj)
    as (vals' & cats & [= <-] & Hlen & Hcats & Hcat & Hcell & Hall).
  pose proof Hfrom as Hfrom'.
  apply from_df_categorical_inv in Hfrom' as [_ Hinit]; [|done].
  pose proof Hinit as (Hrows & _)%init_inv.
  apply init_fields in Hinit as (Hdata & Hsample & Hnodes & _).
  rewrite to_numpy_length in Hrows.
  assert (Hkeys : Dict.keys (map column_categories (columns df))
                  = (columns df).*1).
  { unfold Dict.keys. by rewrite <- list_fmap_compose. }
  rewrite Hkeys in Hnodes.
  destruct Hcon as (_ & Hnd & _ & _ & He2o & _).
  assert (Hnj : nodes ds !! j = Some name).
  { by rewrite Hnodes, list_lookup_fmap, Hj. }
  assert (Hin : name ∈ nodes ds) by by eapply list_elem_of_lookup_2.
  assert (Hvar : name ∈ variables ds).
  { unfold variables, Dict.keys. rewrite He2o.
    by rewrite <- list_fmap_compose, list_fmap_id. }
  assert (Hcol : column_of ds name = Some j).
  { unfold column_of. rewrite He2o, identity_map_get by done.
    by apply tuple_index_find, tuple_index_lookup. }
  rewrite (domain_size_codes ds name Hcons Hvar), <- pd_unique_length.
  rewrite Hsample, <- Hdata.
  set (col := map (code_of ds name) (rows (data ds))).
  assert (Hcode : ∀ r, code_of ds name r = default 0 (r !! j)).
  { intros r. unfold code_of. by rewrite Hcol. }
  assert (Hrlen : length (rows (data ds)) = df_len df).
  { by rewrite Hdata, to_numpy_length. }
  assert (Hne : col ≠ []).
  { unfold col. intros Hnil%fmap_nil_inv. rewrite Hnil in Hrlen.
    simpl in Hrlen. lia. }
  assert (Hub : Forall (fun c => c < length (pd_unique vals)) col).
  { unfold col. apply Forall_fmap, Forall_forall. intros r Hr. simpl.
    apply list_elem_of_lookup in Hr as [i Hi].
    assert (Hiv : i < length vals).
    { rewrite Hlen, <- Hrlen. by eapply lookup_lt_Some. }
    destruct (lookup_lt_is_Some_2 _ _ Hiv) as [v Hv].
    destruct (Hcell i v Hv) as (row & code & Hrow & Hc & Hu).
    rewrite Hi in Hrow. injection Hrow as <-.
    rewrite Hcode, Hc. simpl. by eapply lookup_lt_Some. }
  pose proof (max_list_elem_of col Hne) as Hmax.
  rewrite Forall_forall in Hub. apply Hub in Hmax.
  assert (Hk : 0 < length (pd_unique vals)).
  { destruct vals as [|v vals]; simpl in *; lia. }
  destruct (Hall (length (pd_unique vals) - 1)) as (i & row & Hrow & Hc);
    [lia|].
  assert (Hlast : length (pd_unique vals) - 1 ∈ col).
  { unfold col. apply list_elem_of_fmap. exists row.
    split; [|by eapply list_elem_of_lookup_2].
    by rewrite Hcode, Hc. }
  apply max_list_elem_of_le in Hlast. lia.
Qed.

(** Facts about [set_N], renaming and the codes of a sample that the
    properties below use. *)

Lemma set_N_fields self n seed self' :
  set_N rng self n seed = Ok self' →
  data self' = data self ∧ nodes self' = nodes self
  ∧ categories self' = categories self ∧ order self' = order self
  ∧ ext_to_orig self' = ext_to_orig self
  ∧ orig_to_ext self' = orig_to_ext self
  ∧ node_types self' = node_types self ∧ dstype self' = dstype self
  ∧ N self' = n.
Proof.
  intros (_ & _ & nv & smpl & -> & _)%set_N_inv. done.
Qed.

Lemma set_N_continuous self n seed self' :
  dstype self = continuous → set_N rng self n seed = Ok self' →
  node_values self' = [].
Proof.
  intros Hc (_ & _ & nv & smpl & -> & Hnv & _)%set_N_inv.
  unfold sample_node_values in Hnv. rewrite Hc in Hnv. by injection Hnv as <-.
Qed.

Lemma resample_continuous self calls self' :
  dstype self = continuous → node_values self = [] →
  resample rng self calls = Ok self' → node_values self' = [].
Proof.
  revert self. induction calls as [|[n seed] calls IH]; intros self Hc Hnv.
  - by intros [= <-].
  - simpl. intros (s1 & Hs1 & Hrest)%bind_Ok.
    eapply IH; [| |exact Hrest].
    + apply set_N_fields in Hs1. destruct_and!. congruence.
    + by eapply set_N_continuous.
Qed.

Lemma init_continuous dat cv ds :
  __init__ rng dat continuous cv = Ok ds → node_values ds = [].
Proof.
  intros (_ & _ & _ & _ & cats & _ & Hset)%init_inv.
  by eapply set_N_continuous in Hset.
Qed.

Lemma requested_nonempty node (parents : gmap string (list string)) :
  ∃ ns, requested node parents = node :: ns.
Proof. unfold requested. destruct (parents !! node); eauto. Qed.

Lemma randomise_names_inv (gen : t → option Z → result t) self seed s2 :
  randomise_names gen self seed = Ok s2 →
  ∃ s' items nv nt,
    gen self seed = Ok s'
    ∧ mapM (fun orig =>
              old ← Dict.item (Dict.of_items (orig_to_ext self)) orig;
              new ← Dict.item (orig_to_ext s') orig;
              Ok (old, new)) (Dict.keys (orig_to_ext s')) = Ok items
    ∧ mapM (fun e : string * list (string * nat) =>
              n ← Dict.item (Dict.of_items items) e.1; Ok (n, e.2))
           (node_values s') = Ok nv
    ∧ mapM (fun e : string * string =>
              n ← Dict.item (Dict.of_items items) e.1; Ok (n, e.2))
           (node_types s') = Ok nt
    ∧ s2 = with_names s' (Dict.of_items nv) (Dict.of_items nt).
Proof.
  unfold randomise_names.
  intros (s' & Hgen & (items & Hitems & (nv & Hnv & (nt & Hnt & [= <-])
    %bind_Ok)%bind_Ok)%bind_Ok)%bind_Ok.
  by exists s', items, nv, nt.
Qed.

Lemma product_le (l k : list nat) :
  Forall2 le l k → product l ≤ product k.
Proof.
  induction 1 as [|x y l k Hxy _ IH]; simpl; [done|].
  by apply Nat.mul_le_mono.
Qed.

Lemma consistent_highest_code self n :
  consistent self → n ∈ variables self →
  domain_size self n = S (highest_code self n)
  ∧ S (highest_code self n) ≤ num_categories self n.
Proof.
  intros Hok Hn. pose proof (domain_size_codes self n Hok Hn) as Hd.
  fold (highest_code self n) in Hd. split; [done|]. rewrite <- Hd.
  apply consistent_variables in Hn; [|done].
  destruct (consistent_counts _ _ Hok Hn)
    as (cats & j & o & cj & counts & Hc & Hj & _ & _ & Hcj & Hg & Hlen & _
        & Hle).
  unfold domain_size, num_categories. rewrite Hg, Hj, Hc. simpl.
  rewrite Hcj. simpl. lia.
Qed.


(** * The properties of the Dataset component *)

(** C1, as amended.  On a categorical dataset in a consistent state
    (every variable has distinct category labels, and [node_values] holds
    under the current name of every variable the value counts of its
    column in the sample), every valid marginals query (requested node and
    parents are variables of the dataset, none requested twice) returns a
    counts matrix whose entries sum to the working sample size [N],
    provided that one variable is requested or that the sample has fewer
    than 2^31 rows: the cells of the table of a query with parents are
    32-bit integers. *)
Theorem marginals_counts_sum self node parents values_reqd :
  consistent self →
  valid_request self (requested node parents) →
  length (requested node parents) = 1 ∨ (N self < 2 ^ 31)%Z →
  ∃ counts maxcol rowval colval,
    marginals self node parents values_reqd
    = Ok (counts, maxcol, rowval, colval)
    ∧ total counts = N self.
Proof.
  intros Hok Hvalid HN.
  destruct (requested_cases node parents) as [Hreq|(ps & Hps & Hne & Hreq)].
  - rewrite Hreq in Hvalid.
    destruct (marginals_single self node parents values_reqd)
      as (nv & _ & Hm & Hsum); try done.
    eexists _, _, _, _. split; [exact Hm|].
    by rewrite total_singletons.
  - rewrite Hreq in Hvalid, HN.
    destruct HN as [Hone|HN]; [by destruct ps|].
    destruct (marginals_multi_exact self node ps parents values_reqd)
      as (rowval & colval & Hm & _); try done.
    eexists _, _, _, _. split; [exact Hm|].
    rewrite (total_table _ _
      (fun r => count_row r (map (codes_of self (node :: ps))
                                 (rows (sample self))))).
    rewrite (consistent_sample_length _ Hok). f_equal.
    rewrite <- (length_map (codes_of self (node :: ps))
                  (rows (sample self))).
    apply (sum_occ (grid _ _)).
    + apply NoDup_grid, unique_NoDup.
    + intros x (r & -> & Hr)%list_elem_of_fmap.
      apply selected_in_grid; [done| |done].
      by apply valid_request_keys.
Qed.

(** C2, as amended.  For a valid query with at least one parent on a
    categorical dataset in a consistent state, the columns of the counts
    matrix are the parent-value combinations observed in the sample: the
    list of combinations is sorted and has no duplicates, contains
    exactly the combinations that some row of the sample has, and the
    column labels, when requested, are as many as the combinations.  The
    matrix has one row per code of the child up to its highest code in
    the sample; entry [(i, j)] is the number of rows with child code [i]
    and the [j]-th combination, stored in 32 bits, hence that number when
    the sample has fewer than 2^31 rows; and every combination occurs
    with some code of the child.  [maxcol] is the product, over the
    parents, of one more than the highest code that the parent has in the
    sample; it is at most the product of the parents' numbers of
    categories, and equal to it when the last category of every parent
    occurs in the sample. *)
Theorem marginals_observed_columns self node ps parents values_reqd :
  consistent self →
  parents !! node = Some ps → ps ≠ [] →
  valid_request self (node :: ps) →
  ∃ counts maxcol rowval colval p_combos,
    marginals self node parents values_reqd
    = Ok (counts, maxcol, rowval, colval)
    ∧ NoDup p_combos ∧ StronglySorted row_lt p_combos
    ∧ (∀ c, c ∈ p_combos
            ↔ ∃ r, r ∈ rows (sample self) ∧ codes_of self ps r = c)
    ∧ (values_reqd = true →
       ∃ cv, colval = Some cv ∧ length cv = length p_combos)
    ∧ length counts = S (highest_code self node)
    ∧ Forall (fun row => length row = length p_combos) counts
    ∧ (∀ i j c, i ≤ highest_code self node → p_combos !! j = Some c →
         counts !! i ≫= (fun row => row !! j)
         = Some (to_int32
                   (Z.of_nat (length (matching self (node :: ps) (i :: c))))))
    ∧ ((N self < 2 ^ 31)%Z →
       ∀ i j c, i ≤ highest_code self node → p_combos !! j = Some c →
         counts !! i ≫= (fun row => row !! j)
         = Some (Z.of_nat (length (matching self (node :: ps) (i :: c)))))
    ∧ (∀ j c, p_combos !! j = Some c →
         ∃ i, i ≤ highest_code self node
              ∧ 0 < length (matching self (node :: ps) (i :: c)))
    ∧ maxcol = product (map (fun p => S (highest_code self p)) ps)
    ∧ maxcol ≤ product (map (num_categories self) ps)
    ∧ (Forall (fun p => S (highest_code self p) = num_categories self p) ps
       → maxcol = product (map (num_categories self) ps)).
Proof.
  intros Hok Hps Hne Hvalid.
  destruct (marginals_multi self node ps parents values_reqd)
    as (rowval & colval & Hm & Hcv); try done.
  assert (Hnode : domain_size self node = S (highest_code self node)).
  { apply consistent_highest_code; [done|].
    destruct Hvalid as [Hall _]. by apply Forall_cons in Hall as [? _]. }
  assert (Hparents : Forall (fun p => p ∈ variables self) ps).
  { destruct Hvalid as [Hall _]. by apply Forall_cons in Hall as [_ ?]. }
  assert (Hmax : map (domain_size self) ps
                 = map (fun p => S (highest_code self p)) ps).
  { apply list_eq_Forall2, Forall2_fmap, Forall_Forall2_diag.
    eapply Forall_impl; [exact Hparents|]. intros p Hp. simpl.
    by apply consistent_highest_code. }
  rewrite Hnode, Hmax in Hm.
  assert (Hentry : ∀ i j c,
    i ≤ highest_code self node →
    unique (map (drop 1)
      (unique (map (codes_of self (node :: ps)) (rows (sample self)))))
      !! j = Some c →
    table (S (highest_code self node))
      (unique (map (drop 1)
         (unique (map (codes_of self (node :: ps)) (rows (sample self))))))
      (fun i p => to_int32 (Z.of_nat (count_row (i :: p)
         (map (codes_of self (node :: ps)) (rows (sample self))))))
      !! i ≫= (fun row => row !! j)
    = Some (to_int32
              (Z.of_nat (length (matching self (node :: ps) (i :: c)))))).
  { intros i j c Hi Hj. rewrite (table_lookup _ _ _ i j c) by (done || lia).
    by rewrite count_row_fmap. }
  eexists _, _, rowval, colval,
    (unique (map (drop 1)
       (unique (map (codes_of self (node :: ps)) (rows (sample self)))))).
  split; [exact Hm|].
  split_and!.
  - apply unique_NoDup.
  - apply unique_sorted.
  - intros c. rewrite elem_of_unique. split.
    + intros (x & -> & Hx)%list_elem_of_fmap. rewrite elem_of_unique in Hx.
      apply list_elem_of_fmap in Hx as (r & -> & Hr). eauto.
    + intros (r & Hr & <-). apply list_elem_of_fmap.
      exists (codes_of self (node :: ps) r).
      split; [done|]. rewrite elem_of_unique. apply list_elem_of_fmap. eauto.
  - exact Hcv.
  - apply table_length.
  - apply table_row_length.
  - exact Hentry.
  - intros HN i j c Hi Hj. rewrite (Hentry i j c Hi Hj). f_equal.
    apply to_int32_small. split; [lia|].
    pose proof (length_filter
      (fun r => codes_of self (node :: ps) r = i :: c)
      (rows (sample self))) as Hle.
    unfold matching. rewrite (consistent_sample_length _ Hok) in HN. lia.
  - intros j c Hj.
    assert (Hc : c ∈ unique (map (drop 1)
                   (unique (map (codes_of self (node :: ps))
                                (rows (sample self))))))
      by by eapply list_elem_of_lookup_2.
    rewrite elem_of_unique in Hc.
    apply list_elem_of_fmap in Hc as (x & -> & Hx).
    rewrite elem_of_unique in Hx.
    apply list_elem_of_fmap in Hx as (r & -> & Hr).
    pose proof (selected_in_grid self node ps r Hok
                  (valid_request_keys _ _ Hok Hvalid) Hr) as Hg.
    change (codes_of self (node :: ps) r)
      with (code_of self node r :: codes_of self ps r) in Hg.
    apply elem_of_grid in Hg as [Hi _].
    exists (code_of self node r). split; [lia|].
    unfold matching. simpl.
    assert (Hin : r ∈ filter (fun r0 => codes_of self (node :: ps) r0
                    = code_of self node r :: codes_of self ps r)
                    (rows (sample self))).
    { apply list_elem_of_filter. done. }
    destruct (filter _ _); [by apply elem_of_nil in Hin | simpl; lia].
  - done.
  - apply product_le, Forall2_fmap, Forall_Forall2_diag.
    eapply Forall_impl; [exact Hparents|]. intros p Hp. simpl.
    by apply consistent_highest_code.
  - intros Hall. f_equal.
    apply list_eq_Forall2, Forall2_fmap, Forall_Forall2_diag.
    eapply Forall_impl; [exact Hall|]. done.
Qed.

(** C3, as amended.  The working sample size is at least 2 at
    construction; after any sequence of successful [set_N] calls the
    underlying data still has at least 2 rows, and the working sample size
    lies between 1 and the number of rows of the data. *)
Theorem row_count_bounds dat kind cv self calls self' :
  __init__ rng dat kind cv = Ok self →
  resample rng self calls = Ok self' →
  (2 ≤ N self)%Z
  ∧ 2 ≤ length (rows (data self'))
  ∧ (1 ≤ N self' ≤ Z.of_nat (length (rows (data self'))))%Z.
Proof.
  intros (Hr & _ & _ & _ & cats & _ & Hset)%init_inv.
  apply set_N_inv in Hset as (Hn & _ & nv & smpl & -> & _ & _). simpl in *.
  intros Hres. split; [lia|].
  match goal with H : resample _ ?s _ = _ |- _ =>
    assert (Hd : 2 ≤ length (rows (data s))
                 ∧ (1 ≤ N s ≤ Z.of_nat (length (rows (data s))))%Z)
      by (simpl; lia);
    revert Hd Hres; generalize s end.
  clear. induction calls as [|[n seed] calls IH]; intros s Hd; simpl.
  - by intros [= <-].
  - intros (s1 & (Hn & _ & nv & smpl & -> & _ & _)%set_N_inv & Hrest)%bind_Ok.
    eapply IH; [|exact Hrest]. simpl in *. lia.
Qed.

(** C4, as amended.  In every state, [marginals] fails with the
    [ValueError] that stands for both error kinds whenever a requested
    identifier is not a key of [node_values] and whenever a variable is
    requested twice.  On a categorical dataset in a consistent state the
    keys of [node_values] are the names of the variables, and a call
    whose requested variables are all present and pairwise distinct
    returns a result.  On a continuous dataset [node_values] is empty and
    every call fails with that [ValueError]. *)
Theorem marginals_errors self node parents values_reqd :
  ((∃ n, n ∈ requested node parents ∧ n ∉ Dict.keys (node_values self)) →
   marginals self node parents values_reqd
   = Raise (ValueError "NumPy.marginals() bad arg value"))
  ∧ (¬ NoDup (requested node parents) →
     marginals self node parents values_reqd
     = Raise (ValueError "NumPy.marginals() bad arg value"))
  ∧ (consistent self →
     (∀ n, n ∈ Dict.keys (node_values self) ↔ n ∈ variables self)
     ∧ (valid_request self (requested node parents) →
        ∃ res, marginals self node parents values_reqd = Ok res))
  ∧ (∀ dat cv ds0 calls,
       __init__ rng dat continuous cv = Ok ds0 →
       resample rng ds0 calls = Ok self →
       node_values self = []
       ∧ marginals self node parents values_reqd
         = Raise (ValueError "NumPy.marginals() bad arg value")).
Proof.
  assert (Hbad : ¬ (Forall (fun n => n ∈ Dict.keys (node_values self))
                           (requested node parents)
                    ∧ NoDup (requested node parents)) →
    marginals self node parents values_reqd
    = Raise (ValueError "NumPy.marginals() bad arg value")).
  { intros Hno. unfold marginals. rewrite decide_True; [done|].
    by apply bad_request_iff. }
  split_and!.
  - intros (n & Hn & Hnv). apply Hbad. intros [Hall _].
    rewrite Forall_forall in Hall. by apply Hall in Hn.
  - intros Hdup. apply Hbad. by intros [_ Hnd].
  - intros Hok. split.
    + intros n. symmetry. by apply consistent_variables.
    + intros Hvalid.
      destruct (requested_cases node parents)
        as [Hreq|(ps & Hps & Hne & Hreq)].
      * rewrite Hreq in Hvalid.
        destruct (marginals_single self node parents values_reqd)
          as (nv & _ & Hm & _); try done. eauto.
      * rewrite Hreq in Hvalid.
        destruct (marginals_multi self node ps parents values_reqd)
          as (rowval & colval & Hm & _); try done. eauto.
  - intros dat cv ds0 calls Hinit Hre.
    assert (Hnv : node_values self = []).
    { eapply resample_continuous; [| |exact Hre].
      - by apply init_fields in Hinit as (_ & _ & _ & _ & ? & _).
      - by eapply init_continuous. }
    split; [done|]. apply Hbad. intros [Hall _].
    destruct (requested_nonempty node parents) as [ns Hns].
    rewrite Hns, Hnv in Hall. apply Forall_cons in Hall as [Hin _].
    by apply elem_of_nil in Hin.
Qed.


(** C6, as amended.  Construction from a dataframe fails with a
    [ValueError] whenever a categorical column has more than
    [MAX_CATEGORY] distinct values, whenever the dataframe has fewer than
    2 rows and whenever it has fewer than 2 columns; and the constructor,
    which does not look at the number of categories, fails whenever the
    data array has fewer than 2 rows or fewer than 2 columns. *)
Theorem construction_fails df dstype keep dat cv :
  df_wf df →
  ((∃ name vals, (name, CategorySeries vals) ∈ columns df
                 ∧ size (list_to_set vals : gset string) > MAX_CATEGORY)
   ∨ df_len df < 2 ∨ length (columns df) < 2 →
   ∃ msg, from_df rng df dstype keep = Raise (ValueError msg))
  ∧ (length (rows dat) < 2 ∨ ncols dat < 2 →
     ∃ e, __init__ rng dat dstype cv = Raise e).
Proof.
  intros [Hnd Hlens]. split; [|apply init_small_fails].
  intros Hcond. unfold from_df.
  case_decide as Hg; [eauto|].
  assert (Hty : match dstype with
                | categorical =>
                    Forall (fun col => ∃ vals, col.2 = CategorySeries vals)
                           (columns df)
                | continuous =>
                    Forall (fun col => ∃ vals, col.2 = Float32Series vals)
                           (columns df)
                end).
  { destruct dstype.
    - apply dtypes_category.
      destruct (decide ((list_to_set (map (fun c => series_dtype c.2)
                           (columns df)) : gset string)
                        = {["category"%string]})); [done|].
      exfalso. apply Hg. naive_solver.
    - apply dtypes_float32.
      destruct (decide ((list_to_set (map (fun c => series_dtype c.2)
                           (columns df)) : gset string)
                        = {["float32"%string]})); [done|].
      exfalso. apply Hg. naive_solver. }
  assert (Hrows : df_len df < 2 →
    ∃ msg, match dstype with
           | categorical =>
               st ← factorize_columns (columns df);
               __init__ rng (to_numpy uint8 (df_len df) st.1) dstype st.2
           | continuous =>
               cols ← mapM (fun c : string * Series =>
                              match c.2 with
                              | Float32Series v => Ok v
                              | CategorySeries _ =>
                                  Raise (ValueError
                                    "could not convert string to float")
                              end) (columns df);
               __init__ rng (to_numpy float32 (df_len df) cols) dstype
                 (Dict.of_items (map (fun c => (c.1, None)) (columns df)))
           end = Raise (ValueError msg)).
  { intros Hlen. destruct dstype.
    - destruct (factorize_columns (columns df)) as [st|e] eqn:Hst.
      + rewrite bind_Ok_l.
        apply factorize_columns_inv in Hst as (_ & _ & H2); [|done].
        eexists. apply init_small_value_error.
        * by rewrite to_numpy_length.
        * rewrite H2. unfold Dict.values. apply Forall_fmap, Forall_fmap.
          apply Forall_forall. intros col _. simpl. eauto.
      + apply factorize_columns_error in Hst as [msg ->]; [|done]. eauto.
    - rewrite (mapM_Ok_map _ (fun c => match c.2 with
                                       | Float32Series v => v
                                       | CategorySeries _ => []
                                       end)).
      + rewrite bind_Ok_l. eexists. apply init_small_value_error.
        * by rewrite to_numpy_length.
        * rewrite DictFacts.of_items_NoDup.
          -- unfold Dict.values. apply Forall_fmap, Forall_fmap.
             by apply Forall_forall.
          -- unfold Dict.keys. by rewrite <- list_fmap_compose.
      + intros [name s] Hin. rewrite Forall_forall in Hty.
        destruct (Hty _ Hin) as [vals Hs]. simpl in *. by subst. }
  destruct Hcond as [(name & vals & Hin & Hmax)|[Hlen|Hcols]].
  - destruct dstype.
    + rewrite <- pd_unique_length in Hmax.
      destruct (factorize_columns_too_many (columns df) name vals)
        as [msg Hmsg]; try done.
      rewrite Hmsg. eauto.
    + exfalso. rewrite Forall_forall in Hty.
      destruct (Hty _ Hin) as [v Hv]. done.
  - by apply Hrows.
  - exfalso. destruct (columns df) as [|c [|c' cols]] eqn:Hc;
      simpl in *; try lia.
    apply Hg. do 2 right.
    destruct dstype; [left | right]; (split; [done|]);
        intros He; apply (not_elem_of_empty (C:=gset string) "category"%string)
        || apply (not_elem_of_empty (C:=gset string) "float32"%string);
        simpl in He; rewrite He; by apply elem_of_singleton.
Qed.

(** C7.  A successful [set_N(N, seed)] leaves the data array as it was,
    and the resulting sample has [N] rows: the first [N] rows of the data
    in their order when [seed] is [None] or 0, and otherwise those rows in
    the order given by the permutation of the generator. *)
Theorem set_N_storage self n seed self' :
  (∀ s m, rng s m ≡ₚ seq 0 m) →
  set_N rng self n seed = Ok self' →
  data self' = data self
  ∧ arr_dtype (sample self') = arr_dtype (data self)
  ∧ ncols (sample self') = ncols (data self)
  ∧ length (rows (sample self')) = Z.to_nat n
  ∧ let first := take (Z.to_nat n) (rows (data self)) in
    match seed with
    | None => rows (sample self') = first
    | Some s =>
        if decide (s = 0%Z) then rows (sample self') = first
        else Forall2 (fun i r => first !! i = Some r)
                     (rng s (Z.to_nat n)) (rows (sample self'))
             ∧ rows (sample self') ≡ₚ first
    end.
Proof.
  intros Hrng (Hn & _ & nv & smpl & -> & _ & Hs)%set_N_inv. simpl.
  assert (Hlen : length (take (Z.to_nat n) (rows (data self))) = Z.to_nat n).
  { rewrite length_take. lia. }
  split; [done|].
  destruct seed as [s|].
  - destruct (decide (s = 0%Z)) as [->|Hs0].
    + rewrite decide_False in Hs by tauto. injection Hs as <-.
      by rewrite narrowed_dtype, narrowed_ncols, narrowed_rows.
    + rewrite decide_True in Hs by done.
      apply index_rows_inv in Hs as (Hd & Hc & HF).
      rewrite narrowed_dtype, narrowed_ncols, narrowed_rows in *.
      assert (Hp : rows smpl ≡ₚ take (Z.to_nat n) (rows (data self))).
      { eapply indexed_Permutation; [|done]. by rewrite Hlen. }
      split_and!; try done. by rewrite Hp.
  - injection Hs as <-.
    by rewrite narrowed_dtype, narrowed_ncols, narrowed_rows.
Qed.

(** C8.  After [from_df] on a categorical dataframe, column [j] of the
    data holds codes below [k], the number of distinct values of column
    [j] of the dataframe; every code below [k] occurs; the category tuple
    of the column has [k] distinct entries and maps the code stored for a
    row to the value the dataframe has in that row; and a value that
    first appears after [m] distinct other values has code [m]. *)
Theorem from_df_codes df keep ds :
  df_wf df → from_df rng df categorical keep = Ok ds →
  nodes ds = (columns df).*1
  ∧ length (rows (data ds)) = df_len df
  ∧ ∃ cats,
      categories ds = Some cats
      ∧ length cats = length (columns df)
      ∧ ∀ j name s,
          columns df !! j = Some (name, s) →
          ∃ vals cat,
            s = CategorySeries vals
            ∧ cats !! j = Some cat
            ∧ NoDup cat
            ∧ length cat = size (list_to_set vals : gset string)
            ∧ (∀ i v, vals !! i = Some v →
                 ∃ row code,
                   rows (data ds) !! i = Some row ∧ row !! j = Some code
                   ∧ code < length cat ∧ cat !! code = Some v)
            ∧ (∀ code, code < length cat →
                 ∃ i row, rows (data ds) !! i = Some row
                          ∧ row !! j = Some code)
            ∧ (∀ i v, vals !! i = Some v → v ∉ take i vals →
                 cat !! size (list_to_set (take i vals) : gset string)
                 = Some v).
Proof.
  intros Hwf Hfrom. pose proof Hfrom as Hfrom'.
  apply from_df_categorical_inv in Hfrom' as [_ Hinit]; [|done].
  apply init_fields in Hinit
    as (Hdata & _ & Hnodes & _ & _ & _ & _ & cs & Hcats & HF).
  assert (Hkeys : Dict.keys (map column_categories (columns df))
                  = (columns df).*1).
  { unfold Dict.keys. by rewrite <- list_fmap_compose. }
  rewrite Hkeys in *.
  split; [done|]. split; [by rewrite Hdata, to_numpy_length|].
  exists cs. split; [done|].
  split. { apply Forall2_length in HF. by rewrite length_fmap in HF. }
  intros j name s Hj.
  destruct (from_df_column df keep ds j name s Hwf Hfrom Hj)
    as (vals & cats & -> & Hlen & Hcats' & Hcat & Hcell & Hall).
  assert (cats = cs) as -> by congruence.
  exists vals, (pd_unique vals). split_and!; try done.
  - apply pd_unique_NoDup.
  - apply pd_unique_length.
  - intros i v Hi.
    destruct (Hcell i v Hi) as (row & code & Hrow & Hc & Hv).
    exists row, code. split_and!; try done. by eapply lookup_lt_Some.
  - intros i v. apply pd_unique_first.
Qed.

(** C9.  For every state and all arguments, [marginals] and
    [marginals_safe] raise the same exception or return the same tuple. *)
Theorem marginals_safe_equiv self node parents values_reqd :
  marginals self node parents values_reqd
  = marginals_safe self node parents values_reqd.
Proof.
  unfold marginals, marginals_safe.
  case_decide as Hbad; [done|]. case_decide as Hlen; [done|].
  destruct (columns_reqd self (requested node parents)) as [j_reqd|e];
    [|done].
  rewrite !bind_Ok_l.
  destruct (num_cats_Ok self (requested node parents)) as (nc & Hnc).
  { destruct (decide (Forall (fun n => n ∈ Dict.keys (node_values self))
                             (requested node parents))) as [|Hno]; [done|].
    exfalso. apply Hbad, bad_request_iff. tauto. }
  by rewrite Hnc, bind_Ok_l.
Qed.

(** C10.  On a continuous dataset, after any successful [set_N], [values]
    returns for distinct requested nodes one column per node with all rows
    of the original data, the same array as before the call. *)
Theorem values_reads_all_data dat cv ds0 n seed ds1 nodes_ :
  NoDup (Dict.keys cv) → rectangular dat →
  __init__ rng dat continuous cv = Ok ds0 →
  set_N rng ds0 n seed = Ok ds1 →
  nodes_ ≠ [] → NoDup nodes_ → Forall (fun x => x ∈ nodes ds0) nodes_ →
  ∃ js,
    Forall2 (fun x j => nodes ds0 !! j = Some x) nodes_ js
    ∧ values ds1 nodes_
      = Ok (mk_ndarray float32 (length nodes_) (map (pick js) (rows dat)))
    ∧ values ds1 nodes_ = values ds0 nodes_.
Proof.
  intros Hcv Hrect (_ & _ & Hnc & Hdt & cats & -> & Hset)%init_inv Hset1
    Hne Hnd Hall.
  apply set_N_inv in Hset as (_ & _ & nv & smpl & -> & _ & _).
  apply set_N_inv in Hset1 as (_ & _ & nv1 & smpl1 & -> & _ & _).
  simpl in *.
  destruct (mapM_tuple_index (Dict.keys cv) nodes_) as (js & Hjs & HF);
    try done.
  exists js. split; [done|].
  assert (Hv : ∀ s, nodes s = Dict.keys cv → data s = dat →
    node_types s = Dict.of_items
      (map (fun x => (x, "float32"%string)) (Dict.keys cv)) →
    values s nodes_
    = Ok (mk_ndarray float32 (length nodes_) (map (pick js) (rows dat)))).
  { intros s Hnodes Hdata Htypes. unfold values.
    rewrite decide_False by (destruct nodes_; done).
    rewrite Htypes, DictFacts.of_items_NoDup;
      [|unfold Dict.keys; by rewrite <- list_fmap_compose, list_fmap_id].
    rewrite decide_False.
    - rewrite Hnodes, Hjs, bind_Ok_l, Hdata.
      rewrite select_columns_Ok; [|done|].
      + rewrite Hdt. do 2 f_equal. symmetry. by eapply Forall2_length.
      + rewrite Hnc. eapply Forall2_Forall_r; [exact HF|].
        apply Forall_forall. intros x _ j Hj%lookup_lt_Some.
        unfold Dict.keys in Hj. by rewrite length_fmap in Hj.
    - intros [Hbad|Hbad].
      + apply Hbad. by apply size_list_to_set_NoDup.
      + apply Hbad. apply size_empty_iff. apply set_equiv. intros x.
        rewrite elem_of_difference, !elem_of_list_to_set.
        split; [|set_solver]. intros [Hx Hnx]. exfalso. apply Hnx.
        rewrite Forall_forall in Hall. apply Hall in Hx.
        apply list_elem_of_fmap. exists (x, "float32"%string). split; [done|].
        apply list_elem_of_filter. split; [done|].
        apply list_elem_of_fmap. eauto. }
  rewrite !Hv by done. done.
Qed.

End Generator.

(** ** The properties at the small dataset *)

Lemma example_from_df :
  from_df reversed example_df categorical false = Ok example_ds.
Proof. vm_compute. reflexivity. Qed.

Lemma example_consistent : consistent example_three.
Proof. by_computation. Qed.

Lemma example_renamed_consistent :
  randomise_names prefixed example_three (Some 1%Z) = Ok example_renamed
  ∧ consistent example_renamed.
Proof. split; [by vm_compute | by_computation]. Qed.

Lemma prefixed_assigns_names_only : assigns_names_only prefixed.
Proof. intros self seed self' [= <-]. simpl. done. Qed.

(** The dataset of equal rows *)

Lemma mapM_replicate {A B} (f : A → result B) x y m :
  f x = Ok y → mapM f (replicate m x) = Ok (replicate m y).
Proof.
  intros Hf. induction m as [|m IH]; simpl; [done|].
  by rewrite Hf, IH.
Qed.

Lemma count_nat_replicate v m : count_nat v (replicate m v) = m.
Proof.
  unfold count_nat. induction m as [|m IH]; simpl; [done|].
  rewrite filter_cons, decide_True by done. simpl. by rewrite IH.
Qed.

Lemma bincount_zeros m : 0 < m → bincount (replicate m 0) = [m].
Proof.
  intros Hm.
  assert (Hmax : max_list (replicate m 0) = 0).
  { clear. induction m as [|k IH]; simpl; [done|]. by rewrite IH. }
  pose proof (count_nat_replicate 0 m) as Hc.
  unfold bincount. rewrite Hmax.
  destruct (replicate m 0) as [|z zs] eqn:Hr.
  - destruct m; [lia|done].
  - simpl. by rewrite Hc.
Qed.

Lemma unique_replicate r m : 0 < m → unique (replicate m r) = [r].
Proof.
  intros Hm. destruct m as [|m]; [lia|]. clear Hm.
  induction m as [|m IH]; [done|].
  change (unique (replicate (S (S m)) r))
    with (insert_unique r (unique (replicate (S m) r))).
  rewrite IH. simpl.
  assert (row_compare r r = Eq) as ->; [|done].
  clear. induction r as [|x r IH]; simpl; [done|].
  by rewrite Nat.compare_refl.
Qed.

Lemma count_row_replicate r m : count_row r (replicate m r) = m.
Proof.
  unfold count_row. induction m as [|m IH]; simpl; [done|].
  rewrite filter_cons, decide_True by done. simpl. by rewrite IH.
Qed.

Lemma column_zeros m j :
  j < 2 → column (example_zeros m) j = Ok (replicate m 0).
Proof.
  intros Hj. unfold column, example_zeros. simpl.
  rewrite decide_True by done. apply mapM_replicate.
  destruct j as [|[|j]]; [done|done|lia].
Qed.

Lemma value_counts_single label m :
  0 < m → value_counts [label] (replicate m 0) = Ok [(label, m)].
Proof.
  intros Hm. unfold value_counts. rewrite bincount_zeros by done.
  cbn. unfold Dict.item. cbn. by rewrite decide_True.
Qed.

Section UniformDataset.
Variable rng : Z → nat → list nat.

Lemma example_uniform_init m :
  2 ≤ m →
  __init__ rng (example_zeros m) categorical example_single_values
  = Ok (example_uniform m).
Proof.
  intros Hm. unfold __init__.
  rewrite decide_False.
  2:{ intros [[_ Hno]|[[=] _]]. apply Hno. by_computation. }
  rewrite decide_False.
  2:{ unfold shape, example_zeros. simpl. rewrite length_replicate.
      intros [?|[?|[?|[[_ ?]|[[=] _]]]]]; (lia || done). }
  change (Some <$> mapM _ (Dict.keys example_single_values))
    with (Ok (Some [["x"]; ["a"]]%string)).
  rewrite bind_Ok_l. unfold set_N, shape. simpl rows. simpl fst.
  rewrite length_replicate. rewrite decide_False.
  2:{ simpl. lia. }
  unfold narrowed, shape. simpl rows. simpl fst.
  rewrite length_replicate, decide_True by done.
  unfold sample_node_values. simpl dstype. cbv iota.
  simpl snd. simpl seq. simpl fold_left.
  rewrite !column_zeros by lia. simpl.
  rewrite !value_counts_single by lia. simpl.
  reflexivity.
Qed.

Lemma example_uniform_consistent m : 1 ≤ m → consistent (example_uniform m).
Proof.
  intros Hm. unfold consistent. simpl.
  split; [done|]. split; [by_computation|]. split; [done|].
  split. { unfold rectangular. simpl. by apply Forall_replicate. }
  split. { by rewrite length_replicate. }
  split; [lia|]. split; [by_computation|].
  split; [done|]. split; [by_computation|].
  unfold expected_counts.
  repeat constructor; simpl;
    rewrite ?column_zeros by lia; simpl;
    by rewrite ?value_counts_single by lia.
Qed.

Lemma example_uniform_marginals m :
  1 ≤ m →
  ∃ rowval colval,
    marginals (example_uniform m) "A" example_parent_B false
    = Ok ([[to_int32 (Z.of_nat m)]], 1, rowval, colval).
Proof.
  intros Hm.
  destruct (marginals_multi (example_uniform m) "A" ["B"%string]
              example_parent_B false)
    as (rowval & colval & Hmarg & _).
  - by apply example_uniform_consistent.
  - by vm_compute.
  - done.
  - by_computation.
  - exists rowval, colval. rewrite Hmarg. clear Hmarg.
    assert (Hsel : map (codes_of (example_uniform m) ["A"; "B"]%string)
                       (rows (sample (example_uniform m)))
                   = replicate m [0; 0]).
    { simpl. by rewrite fmap_replicate. }
    rewrite Hsel, unique_replicate by lia.
    change (unique (map (drop 1) [[0; 0]])) with [[0]].
    change (domain_size (example_uniform m) "A") with 1.
    unfold table. simpl. by rewrite count_row_replicate.
Qed.

Lemma example_uniform_valid m :
  valid_request (example_uniform m) (requested "A" example_parent_B).
Proof. by_computation. Qed.

Lemma example_uniform_wraps m :
  Z.of_nat m = (2 ^ 31)%Z →
  __init__ rng (example_zeros m) categorical example_single_values
  = Ok (example_uniform m)
  ∧ N (example_uniform m) = (2 ^ 31)%Z
  ∧ ∃ rowval colval,
      marginals (example_uniform m) "A" example_parent_B false
      = Ok ([[(- 2 ^ 31)%Z]], 1, rowval, colval).
Proof.
  intros Hm. split; [apply example_uniform_init; lia|]. split; [done|].
  destruct (example_uniform_marginals m) as (rowval & colval & Hmarg); [lia|].
  exists rowval, colval. rewrite Hm in Hmarg. exact Hmarg.
Qed.

End UniformDataset.

(** C1 as stated fails.  The constructor accepts a tuple of categories
    that repeats a label, [set_N] then merges the counts of the two codes
    under the one label, and the single-variable table of a valid query
    sums to 2 on a sample of 3 rows.  After a renaming followed by
    [set_N], a valid query for a variable under its external name returns
    no table.  On a dataset of 2^31 equal rows the one cell of the table
    of a query with a parent holds -2^31. *)
Lemma marginals_sum_differs :
  __init__ reversed example_repeated_data categorical example_repeated_values
  = Ok example_repeated
  ∧ valid_request example_repeated (requested "A" ∅)
  ∧ marginals example_repeated "A" ∅ false = Ok ([[2%Z]], 1, None, None)
  ∧ total [[2%Z]] ≠ N example_repeated
  ∧ randomise_names prefixed example_three (Some 1%Z) = Ok example_renamed
  ∧ set_N reversed example_renamed 3 None = Ok example_reset
  ∧ valid_request example_reset (requested "XA" ∅)
  ∧ marginals example_reset "XA" ∅ false
    = Raise (ValueError "NumPy.marginals() bad arg value")
  ∧ __init__ reversed (example_zeros (Z.to_nat (2 ^ 31))) categorical
      example_single_values = Ok example_large
  ∧ N example_large = (2 ^ 31)%Z
  ∧ valid_request example_large (requested "A" example_parent_B)
  ∧ ∃ rowval colval,
      marginals example_large "A" example_parent_B false
      = Ok ([[(- 2 ^ 31)%Z]], 1, rowval, colval)
      ∧ total [[(- 2 ^ 31)%Z]] ≠ (2 ^ 31)%Z.
Proof.
  split_and!;
    [by vm_compute | by_computation | by vm_compute | by vm_compute
    | by vm_compute | by vm_compute | by_computation | by vm_compute
    | | | |].
  all: unfold example_large.
  all: assert (Hm : Z.of_nat (Z.to_nat (2 ^ 31)) = (2 ^ 31)%Z)
         by (apply Z2Nat.id; lia).
  all: revert Hm; generalize (Z.to_nat (2 ^ 31)); intros m Hm.
  all: destruct (example_uniform_wraps reversed m Hm)
         as (Hinit & HN & rowval & colval & Hmarg).
  - done.
  - done.
  - apply example_uniform_valid.
  - exists rowval, colval. split; [done|]. by vm_compute.
Qed.

Lemma marginals_counts_sum_witness :
  consistent example_three
  ∧ valid_request example_three (requested "A" example_parents)
  ∧ (N example_three < 2 ^ 31)%Z
  ∧ ∃ counts maxcol rowval colval,
      marginals example_three "A" example_parents true
      = Ok (counts, maxcol, rowval, colval)
      ∧ total counts = N example_three.
Proof.
  assert (H1 : consistent example_three) by exact example_consistent.
  assert (H2 : valid_request example_three (requested "A" example_parents))
    by by_computation.
  assert (H3 : (N example_three < 2 ^ 31)%Z) by (by vm_compute).
  split_and!; try done.
  exact (marginals_counts_sum example_three "A" example_parents true
           H1 H2 (or_intror H3)).
Defined.

(** C2 as stated fails: after [set_N(1)] on the dataset of [from_df] the
    parent [B], which has two categories, has one entry in
    [node_values], and [maxcol] is 1.  On the dataset with the repeated
    label a valid query with a parent returns no table at all. *)
Lemma maxcol_below_categories :
  from_df reversed example_df categorical false = Ok example_ds
  ∧ set_N reversed example_ds 1 None = Ok example_one
  ∧ valid_request example_one (requested "A" example_parent_B)
  ∧ marginals example_one "A" example_parent_B false
    = Ok ([[1%Z]], 1, None, None)
  ∧ num_categories example_one "B" = 2
  ∧ 1 ≠ product (map (num_categories example_one) ["B"%string])
  ∧ valid_request example_repeated (requested "A" example_parent_B)
  ∧ marginals example_repeated "A" example_parent_B false = Raise KeyError.
Proof.
  split_and!;
    [by vm_compute | by vm_compute | by_computation | by vm_compute
    | by vm_compute | by vm_compute | by_computation | by vm_compute].
Qed.

Lemma marginals_observed_columns_witness :
  consistent example_three
  ∧ example_parents !! "A"%string = Some ["C"; "B"]%string
  ∧ valid_request example_three ["A"; "C"; "B"]%string
  ∧ ∃ counts maxcol rowval colval p_combos,
      marginals example_three "A" example_parents false
      = Ok (counts, maxcol, rowval, colval)
      ∧ (∀ c, c ∈ p_combos
              ↔ ∃ r, r ∈ rows (sample example_three)
                     ∧ codes_of example_three ["C"; "B"]%string r = c)
      ∧ length counts = S (highest_code example_three "A")
      ∧ Forall (fun row => length row = length p_combos) counts
      ∧ maxcol = product (map (fun p => S (highest_code example_three p))
                              ["C"; "B"]%string)
      ∧ maxcol ≤ product (map (num_categories example_three)
                              ["C"; "B"]%string).
Proof.
  assert (H1 : consistent example_three) by exact example_consistent.
  assert (H2 : example_parents !! "A"%string = Some ["C"; "B"]%string)
    by (by vm_compute).
  assert (H3 : ["C"; "B"]%string ≠ []) by done.
  assert (H4 : valid_request example_three ["A"; "C"; "B"]%string)
    by by_computation.
  split_and!; try done.
  destruct (marginals_observed_columns example_three "A"
              ["C"; "B"]%string example_parents false H1 H2 H3 H4)
    as (counts & maxcol & rowval & colval & p_combos & Hm & _ & _ & Hc & _
        & Hlen & Hrows & _ & _ & _ & Hmax & Hle & _).
  exists counts, maxcol, rowval, colval, p_combos. done.
Defined.

(** C3 as stated fails: [set_N(1)] succeeds on a dataset built by
    [from_df] and leaves a working sample of one row. *)
Lemma set_N_single_row :
  from_df reversed example_df categorical false = Ok example_ds
  ∧ set_N reversed example_ds 1 None = Ok example_one
  ∧ (N example_one < 2)%Z
  ∧ length (rows (sample example_one)) < 2.
Proof. split_and!; [by vm_compute.. | simpl; lia]. Qed.

Lemma row_count_bounds_witness :
  __init__ reversed example_data categorical example_col_values
  = Ok example_ds
  ∧ resample reversed example_ds [(1%Z, None)] = Ok example_one
  ∧ (2 ≤ N example_ds)%Z
  ∧ 2 ≤ length (rows (data example_one))
  ∧ (1 ≤ N example_one
     ≤ Z.of_nat (length (rows (data example_one))))%Z.
Proof.
  assert (H1 : __init__ reversed example_data categorical
                 example_col_values = Ok example_ds) by (by vm_compute).
  assert (H2 : resample reversed example_ds [(1%Z, None)] = Ok example_one)
    by (by vm_compute).
  split; [done|]. split; [done|].
  exact (row_count_bounds reversed example_data categorical
           example_col_values example_ds [(1%Z, None)] example_one H1 H2).
Defined.

(** C4 as stated fails.  On a continuous dataset the requested variable
    is a variable of the dataset and is requested once, and the call
    raises the error.  On a categorical dataset [set_N] after a renaming
    keys [node_values] by the original names, and a request for a
    variable under its external name raises the error. *)
Lemma marginals_rejects_present_variable :
  __init__ reversed example_floats continuous example_float_names
  = Ok example_continuous
  ∧ valid_request example_continuous (requested "A" ∅)
  ∧ marginals example_continuous "A" ∅ false
    = Raise (ValueError "NumPy.marginals() bad arg value")
  ∧ randomise_names prefixed example_three (Some 1%Z) = Ok example_renamed
  ∧ set_N reversed example_renamed 3 None = Ok example_reset
  ∧ valid_request example_reset (requested "XA" ∅)
  ∧ marginals example_reset "XA" ∅ false
    = Raise (ValueError "NumPy.marginals() bad arg value").
Proof.
  split_and!;
    [by vm_compute | by_computation | by vm_compute | by vm_compute
    | by vm_compute | by_computation | by vm_compute].
Qed.

Lemma marginals_errors_witness :
  consistent example_three
  ∧ __init__ reversed example_floats continuous example_float_names
    = Ok example_continuous
  ∧ resample reversed example_continuous [(2%Z, Some 3%Z)]
    = Ok example_continuous_two
  ∧ marginals example_one "A" example_absent true
    = Raise (ValueError "NumPy.marginals() bad arg value")
  ∧ marginals example_one "A" example_twice true
    = Raise (ValueError "NumPy.marginals() bad arg value")
  ∧ (∃ res, marginals example_three "A" example_parents true = Ok res)
  ∧ marginals example_continuous_two "A" ∅ false
    = Raise (ValueError "NumPy.marginals() bad arg value").
Proof.
  assert (H1 : consistent example_three) by exact example_consistent.
  assert (H2 : __init__ reversed example_floats continuous
                 example_float_names = Ok example_continuous)
    by (by vm_compute).
  assert (H3 : resample reversed example_continuous [(2%Z, Some 3%Z)]
               = Ok example_continuous_two) by (by vm_compute).
  split; [done|]. split; [done|]. split; [done|].
  destruct (marginals_errors reversed example_one "A" example_absent true)
    as (Habsent & _ & _ & _).
  destruct (marginals_errors reversed example_one "A" example_twice true)
    as (_ & Htwice & _ & _).
  destruct (marginals_errors reversed example_three "A" example_parents
              true) as (_ & _ & Hvalid & _).
  destruct (marginals_errors reversed example_continuous_two "A" ∅ false)
    as (_ & _ & _ & Hcont).
  split_and!.
  - apply Habsent. exists "D"%string. split; by_computation.
  - apply Htwice. by_computation.
  - apply (Hvalid H1). by_computation.
  - exact (proj2 (Hcont _ _ _ _ H2 H3)).
Defined.



(** C6 as stated fails: the constructor builds a dataset whose first
    column holds 101 distinct values under 101 distinct labels. *)
Lemma init_accepts_many_categories :
  NoDup example_many_labels
  ∧ length example_many_labels > MAX_CATEGORY
  ∧ NoDup (map (fun r => default 0 (r !! 0)) (rows example_many_data))
  ∧ length (rows example_many_data) > MAX_CATEGORY
  ∧ ∃ ds,
      __init__ reversed example_many_data categorical example_many_values
      = Ok ds
      ∧ data ds = example_many_data
      ∧ categories ds = Some [example_many_labels; example_many_labels].
Proof.
  split; [by_computation|]. split; [vm_compute; lia|].
  split; [by_computation|]. split; [vm_compute; lia|].
  eexists. split; [by vm_compute|]. split; by vm_compute.
Qed.

Lemma construction_fails_witness :
  df_wf example_wide_df
  ∧ (∃ name vals, (name, CategorySeries vals) ∈ columns example_wide_df
                  ∧ size (list_to_set vals : gset string) > MAX_CATEGORY)
  ∧ length (rows example_one_row) < 2
  ∧ (∃ msg, from_df reversed example_wide_df categorical false
            = Raise (ValueError msg))
  ∧ (∃ e, __init__ reversed example_one_row categorical example_col_values
          = Raise e).
Proof.
  assert (H1 : df_wf example_wide_df) by by_computation.
  assert (H2 : ∃ name vals,
             (name, CategorySeries vals) ∈ columns example_wide_df
             ∧ size (list_to_set vals : gset string) > MAX_CATEGORY).
  { eexists _, _. split; [left|]. by_computation. }
  assert (H3 : length (rows example_one_row) < 2) by (simpl; lia).
  destruct (construction_fails reversed example_wide_df categorical false
              example_one_row example_col_values H1) as [Hdf Hinit].
  split_and!; try done.
  - exact (Hdf (or_introl H2)).
  - exact (Hinit (or_introl H3)).
Defined.

Lemma set_N_storage_witness :
  (∀ s m, reversed s m ≡ₚ seq 0 m)
  ∧ set_N reversed example_ds 3 (Some 4%Z) = Ok example_three
  ∧ data example_three = data example_ds
  ∧ arr_dtype (sample example_three) = arr_dtype (data example_ds)
  ∧ ncols (sample example_three) = ncols (data example_ds)
  ∧ length (rows (sample example_three)) = Z.to_nat 3
  ∧ Forall2 (fun i r => take (Z.to_nat 3) (rows (data example_ds)) !! i
                        = Some r)
            (reversed 4 (Z.to_nat 3)) (rows (sample example_three))
  ∧ rows (sample example_three)
    ≡ₚ take (Z.to_nat 3) (rows (data example_ds)).
Proof.
  assert (H1 : ∀ s m, reversed s m ≡ₚ seq 0 m)
    by exact reversed_permutation.
  assert (H2 : set_N reversed example_ds 3 (Some 4%Z) = Ok example_three)
    by (by vm_compute).
  split; [done|]. split; [done|].
  pose proof (set_N_storage reversed example_ds 3 (Some 4%Z) example_three
                H1 H2) as (Hd & Ht & Hc & Hl & Hs).
  simpl in Hs. destruct Hs as [Hf Hp]. done.
Defined.

Lemma from_df_codes_witness :
  df_wf example_df
  ∧ from_df reversed example_df categorical false = Ok example_ds
  ∧ nodes example_ds = (columns example_df).*1
  ∧ length (rows (data example_ds)) = df_len example_df.
Proof.
  assert (H1 : df_wf example_df)
    by by_computation.
  assert (H2 : from_df reversed example_df categorical false
               = Ok example_ds) by (by vm_compute).
  split; [done|]. split; [done|].
  pose proof (from_df_codes reversed example_df false example_ds H1 H2)
    as (Hn & Hl & _).
  done.
Defined.

Lemma values_reads_all_data_witness :
  NoDup (Dict.keys example_float_names) ∧ rectangular example_floats
  ∧ __init__ reversed example_floats continuous example_float_names
    = Ok example_continuous
  ∧ set_N reversed example_continuous 2 (Some 3%Z)
    = Ok example_continuous_two
  ∧ ∃ js,
      Forall2 (fun x j => nodes example_continuous !! j = Some x)
              ["B"]%string js
      ∧ values example_continuous_two ["B"]%string
        = Ok (mk_ndarray float32 1 (map (pick js) (rows example_floats)))
      ∧ values example_continuous_two ["B"]%string
        = values example_continuous ["B"]%string.
Proof.
  assert (H1 : NoDup (Dict.keys example_float_names))
    by by_computation.
  assert (H2 : rectangular example_floats)
    by by_computation.
  assert (H3 : __init__ reversed example_floats continuous
                 example_float_names = Ok example_continuous)
    by (by vm_compute).
  assert (H4 : set_N reversed example_continuous 2 (Some 3%Z)
               = Ok example_continuous_two) by (by vm_compute).
  assert (H5 : ["B"]%string ≠ []) by done.
  assert (H6 : NoDup ["B"]%string)
    by by_computation.
  assert (H7 : Forall (fun x => x ∈ nodes example_continuous) ["B"]%string)
    by by_computation.
  split_and!; try done.
  exact (values_reads_all_data reversed example_floats example_float_names
           example_continuous 2 (Some 3%Z) example_continuous_two
           ["B"]%string H1 H2 H3 H4 H5 H6 H7).
Defined.

(** * Further properties of the class *)

(** ** Requests that fail *)

Section DictEntries.
Context {K V : Type} `{EqDecision K}.
Implicit Types (d : list (K * V)) (k : K) (v : V).

Lemma elem_of_set d k v kv :
  kv ∈ Dict.set d k v → kv ∈ d ∨ kv.2 = v.
Proof.
  induction d as [|[k' v'] d IH]; simpl.
  - intros ->%list_elem_of_singleton. by right.
  - case_decide; subst.
    + intros [->|?]%elem_of_cons; [by right | left; by right].
    + intros [->|[?|?]%IH]%elem_of_cons;
        [left; left | left; by right | by right].
Qed.

Lemma keys_set d k v k' :
  k' ∈ Dict.keys (Dict.set d k v) ↔ k' = k ∨ k' ∈ Dict.keys d.
Proof.
  unfold Dict.keys. induction d as [|[k0 v0] d IH]; simpl.
  - rewrite list_elem_of_singleton, elem_of_nil. tauto.
  - case_decide; subst; simpl; rewrite !elem_of_cons; [tauto|].
    rewrite IH. tauto.
Qed.

Lemma keys_of_items (items : list (K * V)) k :
  k ∈ Dict.keys (Dict.of_items items) ↔ k ∈ items.*1.
Proof.
  unfold Dict.of_items.
  assert (H' : ∀ acc, k ∈ Dict.keys (fold_left
                 (fun d kv => Dict.set d kv.1 kv.2) items acc)
               ↔ k ∈ Dict.keys acc ∨ k ∈ items.*1).
  { induction items as [|[k0 v0] items IH]; intros acc; simpl.
    - rewrite elem_of_nil. tauto.
    - rewrite IH, keys_set, elem_of_cons. tauto. }
  rewrite H'. unfold Dict.keys at 1. simpl. rewrite elem_of_nil. tauto.
Qed.

Lemma values_of_items (items : list (K * V)) (P : V → Prop) :
  Forall (fun kv => P kv.2) items →
  Forall (fun kv => P kv.2) (Dict.of_items items).
Proof.
  unfold Dict.of_items. intros Hall.
  assert (H' : ∀ acc, Forall (fun kv => P kv.2) acc →
            Forall (fun kv => P kv.2)
              (fold_left (fun d kv => Dict.set d kv.1 kv.2) items acc)).
  { induction Hall as [|[k0 v0] items Hkv Hall IH]; intros acc Hacc; simpl.
    - done.
    - apply IH. apply Forall_forall.
      intros kv [Hin| ->]%elem_of_set; [|done].
      rewrite Forall_forall in Hacc. auto. }
  apply H'. constructor.
Qed.
End DictEntries.

Section Requests.
Variable rng : Z → nat → list nat.

Lemma set_N_with_sampling self m smpl nv n seed :
  set_N rng (with_sampling self m smpl nv) n seed = set_N rng self n seed.
Proof. reflexivity. Qed.

Lemma resample_inv self calls self' :
  resample rng self calls = Ok self' →
  ∃ m smpl nv, self' = with_sampling self m smpl nv.
Proof.
  revert self. induction calls as [|[n seed] calls IH]; intros self; simpl.
  - intros [= <-]. exists (N self), (sample self), (node_values self).
    by destruct self.
  - intros (s1 & Hs1 & Hrest)%bind_Ok.
    apply set_N_inv in Hs1 as (_ & _ & nv & smpl & -> & _).
    apply IH in Hrest as (m & smpl' & nv' & ->). by exists m, smpl', nv'.
Qed.

(** X2. [set_N] reads the data and never the current sample: after any
    number of successful [set_N] calls, [set_N(N, seed)] gives the result
    it gives on the dataset before those calls; a narrowed sample can be
    widened again. *)
Theorem set_N_forgets_sampling self calls self' n seed :
  resample rng self calls = Ok self' →
  set_N rng self' n seed = set_N rng self n seed.
Proof. intros (m & smpl & nv & ->)%resample_inv. reflexivity. Qed.

Lemma resample_fields self calls self' :
  resample rng self calls = Ok self' →
  data self' = data self ∧ nodes self' = nodes self
  ∧ categories self' = categories self ∧ order self' = order self
  ∧ ext_to_orig self' = ext_to_orig self
  ∧ orig_to_ext self' = orig_to_ext self
  ∧ node_types self' = node_types self ∧ dstype self' = dstype self.
Proof. intros (m & smpl & nv & ->)%resample_inv. done. Qed.

(** X12. On a continuous dataset [node_values] stays empty, and every
    call of [marginals] raises
    [ValueError('NumPy.marginals() bad arg value')]. *)
Theorem marginals_continuous_fails dat cv ds0 calls ds node parents
    values_reqd :
  __init__ rng dat continuous cv = Ok ds0 →
  resample rng ds0 calls = Ok ds →
  marginals ds node parents values_reqd
  = Raise (ValueError "NumPy.marginals() bad arg value").
Proof.
  intros Hinit Hre.
  assert (Hnv : node_values ds = []).
  { eapply resample_continuous; [| |exact Hre].
    - by apply init_fields in Hinit as (_ & _ & _ & _ & ? & _).
    - by eapply init_continuous. }
  unfold marginals. rewrite decide_True; [done|].
  apply bad_request_iff. intros [Hall _].
  destruct (requested_nonempty node parents) as [ns Hns].
  rewrite Hns, Hnv in Hall. apply Forall_cons in Hall as [Hin _].
  by apply elem_of_nil in Hin.
Qed.

Lemma init_node_types dat kind cv ds :
  __init__ rng dat kind cv = Ok ds →
  node_types ds
  = Dict.of_items
      (map (fun n => (n, match kind with
                         | categorical => "category"%string
                         | continuous => "float32"%string
                         end)) (Dict.keys cv)).
Proof.
  intros (_ & _ & _ & _ & cats & _ & Hset)%init_inv.
  by apply set_N_fields in Hset as (_ & _ & _ & _ & _ & _ & -> & _).
Qed.

Lemma list_to_set_nonempty (l : list string) :
  l ≠ [] → size (list_to_set l : gset string) ≠ 0.
Proof.
  destruct l as [|x l]; [done|]. intros _ Hs.
  apply size_empty_iff in Hs. set_solver.
Qed.

Lemma filter_none {A} (P : A → Prop) `{∀ x, Decision (P x)} (l : list A) :
  Forall (fun x => ¬ P x) l → filter P l = [].
Proof.
  induction 1 as [|x l Hx _ IH]; [done|].
  rewrite filter_cons, decide_False by done. done.
Qed.

(** X13. [values] never returns the codes of a categorical dataset: it
    raises [TypeError] on the empty tuple and [ValueError] on every other
    request. *)
Theorem values_categorical_fails dat cv ds0 calls ds nodes_ :
  __init__ rng dat categorical cv = Ok ds0 →
  resample rng ds0 calls = Ok ds →
  values ds nodes_
  = Raise (if decide (nodes_ = [])
           then TypeError "Pandas.values() bad arg type"
           else ValueError "Pandas.values() bad arg values").
Proof.
  intros Hinit Hre. pose proof (init_node_types _ _ _ _ Hinit) as Hnt.
  apply resample_fields in Hre as (_ & _ & _ & _ & _ & _ & Hnt' & _).
  unfold values. destruct (decide (nodes_ = [])) as [->|Hne].
  { by rewrite decide_True. }
  rewrite decide_False by (by destruct nodes_).
  rewrite Hnt', Hnt.
  rewrite filter_none.
  - rewrite decide_True; [done|]. right. simpl.
    rewrite difference_empty_L. by apply list_to_set_nonempty.
  - eapply Forall_impl.
    + apply (values_of_items _ (fun v => v = "category"%string)).
      apply Forall_forall. by intros kv (n & -> & _)%list_elem_of_fmap.
    + intros kv Hkv. simpl in *. tauto.
Qed.

(** The numeric variables of a continuous dataset are its nodes. *)
Lemma numeric_continuous (l : list string) x :
  x ∈ (list_to_set
         (map fst (filter (fun nt : string * string =>
                             nt.2 ≠ "category"%string)
                          (Dict.of_items
                             (map (fun n => (n, "float32"%string)) l))))
       : gset string)
  ↔ x ∈ l.
Proof.
  rewrite elem_of_list_to_set.
  assert (Hall : Forall (fun kv : string * string => kv.2 = "float32"%string)
            (Dict.of_items (map (fun n => (n, "float32"%string)) l))).
  { apply (values_of_items _ (fun v => v = "float32"%string)).
    apply Forall_forall. by intros kv (n & -> & _)%list_elem_of_fmap. }
  rewrite filter_id.
  - change (x ∈ Dict.keys (Dict.of_items
                            (map (fun n => (n, "float32"%string)) l)) ↔ x ∈ l).
    rewrite keys_of_items, <- list_fmap_compose. simpl.
    by rewrite list_fmap_id.
  - eapply Forall_impl; [exact Hall|]. intros kv ->. done.
Qed.

(** X14. [values] on a continuous dataset raises [TypeError] on the
    empty tuple, and [ValueError('Pandas.values() bad arg values')] when
    a name is requested twice or is not a node; a call that returns was
    given a non-empty tuple of distinct nodes. *)
Theorem values_errors dat cv ds0 calls ds nodes_ :
  __init__ rng dat continuous cv = Ok ds0 →
  resample rng ds0 calls = Ok ds →
  (nodes_ = [] →
   values ds nodes_ = Raise (TypeError "Pandas.values() bad arg type"))
  ∧ (nodes_ ≠ [] →
     ¬ NoDup nodes_ ∨ (∃ x, x ∈ nodes_ ∧ x ∉ nodes ds0) →
     values ds nodes_ = Raise (ValueError "Pandas.values() bad arg values"))
  ∧ (∀ a, values ds nodes_ = Ok a →
     nodes_ ≠ [] ∧ NoDup nodes_ ∧ Forall (fun x => x ∈ nodes ds0) nodes_).
Proof.
  intros Hinit Hre. pose proof (init_node_types _ _ _ _ Hinit) as Hnt.
  apply init_fields in Hinit as (_ & _ & Hnodes & _).
  apply resample_fields in Hre as (_ & _ & _ & _ & _ & _ & Hnt' & _).
  assert (Hbad : nodes_ ≠ [] →
    ¬ NoDup nodes_ ∨ (∃ x, x ∈ nodes_ ∧ x ∉ nodes ds0) →
    values ds nodes_ = Raise (ValueError "Pandas.values() bad arg values")).
  { intros Hne Hbad. unfold values.
    rewrite decide_False by (by destruct nodes_).
    rewrite decide_True; [done|]. rewrite Hnt', Hnt.
    destruct Hbad as [Hdup|(x & Hx & Hnx)].
    - left. by rewrite size_list_to_set_NoDup.
    - right. intros Hs%size_empty_iff.
      assert (Hin : x ∈ (list_to_set nodes_ ∖ list_to_set
         (map fst (filter (fun nt : string * string =>
                             nt.2 ≠ "category"%string)
                          (Dict.of_items
                             (map (fun n => (n, "float32"%string))
                                  (Dict.keys cv))))) : gset string)).
      { apply elem_of_difference. rewrite elem_of_list_to_set.
        split; [done|]. rewrite numeric_continuous. by rewrite <- Hnodes. }
      rewrite Hs in Hin. by apply elem_of_empty in Hin. }
  split_and!.
  - intros ->. unfold values. by rewrite decide_True.
  - done.
  - intros a Ha.
    destruct (decide (nodes_ = [])) as [->|Hne].
    { unfold values in Ha. by rewrite decide_True in Ha. }
    split; [done|].
    destruct (decide (NoDup nodes_)) as [Hnd|Hnd];
      [|rewrite Hbad in Ha by auto; done].
    split; [done|]. apply Forall_forall. intros x Hx.
    destruct (decide (x ∈ nodes ds0)) as [|Hnx]; [done|].
    rewrite Hbad in Ha by eauto. done.
Qed.

Lemma tuple_index_absent {A} `{EqDecision A} (l : list A) x :
  x ∉ l → tuple_index l x = Raise (ValueError "tuple.index(x): x not in tuple").
Proof.
  induction l as [|y l IH]; simpl; [done|].
  intros [Hne Hx]%not_elem_of_cons. rewrite decide_False by done.
  by rewrite IH.
Qed.

Lemma values_of_items_elem {K V} `{EqDecision K} (items : list (K * V)) kv :
  kv ∈ Dict.of_items items → kv.2 ∈ items.*2.
Proof.
  intros Hin.
  assert (H' : Forall (fun kv => kv.2 ∈ items.*2) (Dict.of_items items)).
  { apply (values_of_items items (fun v => v ∈ items.*2)).
    apply Forall_forall. intros kv' Hkv'. apply list_elem_of_fmap. eauto. }
  rewrite Forall_forall in H'. by apply H'.
Qed.

(** X15. [values] checks the request against the keys of [node_types],
    which [randomise_names] re-keys by external name, and then looks the
    names up among the original node names.  When no external name is an
    original name, every non-empty request raises [ValueError] after
    [randomise_names]. *)
Theorem values_after_renaming (gen : t → option Z → result t)
    self seed s2 nodes_ :
  randomise_names gen self seed = Ok s2 →
  Forall (fun kv => kv.2 ∉ nodes s2) (orig_to_ext s2) →
  nodes_ ≠ [] →
  ∃ msg, values s2 nodes_ = Raise (ValueError msg).
Proof.
  intros (s' & items & nv & nt & _ & Hitems & _ & Hnt & ->)%randomise_names_inv
    Hfresh Hne.
  simpl in Hfresh.
  unfold values. rewrite decide_False by (by destruct nodes_).
  case_decide as Hbad; [eauto|]. simpl.
  destruct nodes_ as [|x rest]; [done|].
  assert (Hx : x ∉ nodes s').
  {     assert (Hs : size (list_to_set (x :: rest) ∖ list_to_set
       (map fst (filter (fun nt : string * string => nt.2 ≠ "category"%string)
                        (Dict.of_items nt))) : gset string) = 0).
    { destruct (decide (size (list_to_set (x :: rest) ∖ list_to_set
       (map fst (filter (fun nt : string * string => nt.2 ≠ "category"%string)
                        (Dict.of_items nt))) : gset string) = 0)); [done|].
      exfalso. apply Hbad. by right. }
    apply size_empty_iff in Hs.
    assert (Hxn : x ∈ map fst (filter
              (fun nt : string * string => nt.2 ≠ "category"%string)
              (Dict.of_items nt))).
    { apply (elem_of_list_to_set (C := gset string)).
      destruct (decide (x ∈ (list_to_set (map fst (filter
              (fun nt : string * string => nt.2 ≠ "category"%string)
              (Dict.of_items nt))) : gset string))) as [|Hn]; [done|].
      exfalso. apply (not_elem_of_empty (C := gset string) x).
      rewrite <- Hs. apply elem_of_difference. split; [|done].
      apply elem_of_list_to_set. left. }
    apply list_elem_of_fmap in Hxn as ([x' ty] & -> & Hin).
    apply list_elem_of_filter in Hin as [_ Hin]. simpl.
    assert (Hk : x' ∈ nt.*1).
    { apply keys_of_items. apply list_elem_of_fmap. by exists (x', ty). }
    apply list_elem_of_fmap in Hk as ([x'' ty'] & -> & Hin').
    apply list_elem_of_lookup in Hin' as [i Hi]. apply mapM_Ok in Hnt.
    destruct (Forall2_lookup_r _ _ _ _ _ Hnt Hi) as (e & _ & He).
    apply bind_Ok in He as (n & Hn%or_raise_Ok & [= <- _]). simpl.
    apply DictFacts.get_Some_elem, values_of_items_elem in Hn. simpl in Hn.
    apply list_elem_of_fmap in Hn as ([old new] & -> & Hin2).
    apply list_elem_of_lookup in Hin2 as [i2 Hi2]. apply mapM_Ok in Hitems.
    destruct (Forall2_lookup_r _ _ _ _ _ Hitems Hi2) as (orig & _ & Ho).
    apply bind_Ok in Ho as (old' & _ & (new' & Hnew%or_raise_Ok & [= _ <-])
      %bind_Ok).
    apply DictFacts.get_Some_elem in Hnew. simpl.
    rewrite Forall_forall in Hfresh. by apply (Hfresh _ Hnew). }
  rewrite mapM_cons, tuple_index_absent by done. eauto.
Qed.

End Requests.

(** ** Value counts and construction *)

Lemma ascii_compare_refl c : Ascii.compare c c = Eq.
Proof. unfold Ascii.compare. apply N.compare_refl. Qed.

Lemma ascii_compare_lt_trans a b c :
  Ascii.compare a b = Lt → Ascii.compare b c = Lt → Ascii.compare a c = Lt.
Proof.
  unfold Ascii.compare. rewrite !N.compare_lt_iff. lia.
Qed.

Lemma str_compare_lt_trans a b c :
  String.compare a b = Lt → String.compare b c = Lt → String.compare a c = Lt.
Proof.
  revert b c. induction a as [|x a IH]; intros [|y b] [|z c]; simpl; try done.
  destruct (Ascii.compare x y) eqn:Exy; try done.
  - apply Ascii.compare_eq_iff in Exy as ->.
    destruct (Ascii.compare y z); try done. apply IH.
  - intros _. destruct (Ascii.compare y z) eqn:Eyz; try done.
    + apply Ascii.compare_eq_iff in Eyz as ->. by rewrite Exy.
    + by rewrite (ascii_compare_lt_trans _ _ _ Exy Eyz).
Qed.

Lemma str_le_cases a b : str_le a b ↔ String.compare a b = Lt ∨ a = b.
Proof.
  unfold str_le, String.leb. split.
  - destruct (String.compare a b) eqn:E; try done; [|by left].
    apply String.compare_eq_iff in E. by right.
  - intros [->| ->]; [done|].
    assert (String.compare b b = Eq) as ->; [|done].
    induction b as [|x b IH]; simpl; [done|]. by rewrite ascii_compare_refl.
Qed.

#[global] Instance str_le_trans : Transitive str_le.
Proof.
  intros a b c [Hab| ->]%str_le_cases [Hbc| ->]%str_le_cases;
    apply str_le_cases; eauto using str_compare_lt_trans.
Qed.

#[global] Instance str_le_total : Total str_le.
Proof. intros a b. apply String.leb_total. Qed.

#[global] Instance str_le_antisym : AntiSymm eq str_le.
Proof. intros a b. apply String.leb_antisym. Qed.

Lemma sorted_Permutation l : sorted l ≡ₚ l.
Proof. apply merge_sort_Permutation. Qed.

Lemma sorted_StronglySorted l : StronglySorted str_le (sorted l).
Proof. apply StronglySorted_merge_sort; apply _. Qed.

(** The dictionary that [value_counts] builds. *)
Lemma value_counts_spec cats col d :
  NoDup cats → value_counts cats col = Ok d →
  Dict.keys d = sorted (take (length (bincount col)) cats)
  ∧ length (bincount col) ≤ length cats
  ∧ ∀ v label, v < length (bincount col) → cats !! v = Some label →
      Dict.get d label = Some (occ v col).
Proof.
  intros Hnd. unfold value_counts.
  intros (items & Hitems & (items' & Hitems' & [= <-])%bind_Ok)%bind_Ok.
  apply mapM_Ok in Hitems, Hitems'.
  assert (Hit : ∀ v c, bincount col !! v = Some c →
            ∃ label, cats !! v = Some label ∧ items !! v = Some (label, c)).
  { intros v c Hv.
    assert (Hic : enumerate (bincount col) !! v = Some (v, c)).
    { apply enumerate_lookup. eauto. }
    destruct (Forall2_lookup_l _ _ _ _ _ Hitems Hic) as (it & Hi & Hit).
    simpl in Hit. apply bind_Ok in Hit as (l & Hl%or_raise_Ok & [= <-]).
    eauto. }
  assert (Hlen : length items = length (bincount col)).
  { apply Forall2_length in Hitems. by rewrite enumerate_length in Hitems. }
  assert (Hle : length (bincount col) ≤ length cats).
  { destruct (bincount col) as [|c0 bc] eqn:Hbc using rev_ind; [simpl; lia|].
    clear IHbc. rewrite length_app. simpl.
    destruct (Hit (length bc) c0) as (label & Hl%lookup_lt_Some & _); [|lia].
    by rewrite lookup_app_r, Nat.sub_diag by lia. }
  assert (H1 : items.*1 = take (length (bincount col)) cats).
  { apply list_eq. intros i. rewrite list_lookup_fmap.
    destruct (decide (i < length (bincount col))) as [Hi|Hi].
    - rewrite lookup_take_lt by done.
      destruct (lookup_lt_is_Some_2 (bincount col) i) as [c Hc]; [done|].
      destruct (Hit i c Hc) as (label & -> & ->). done.
    - rewrite lookup_take_ge by lia.
      rewrite (proj2 (lookup_ge_None _ _)); [done|]. lia. }
  assert (Hk : NoDup (Dict.keys items)).
  { unfold Dict.keys. rewrite H1.
    eapply sublist_NoDup; [done | apply sublist_take]. }
  rewrite DictFacts.of_items_NoDup in Hitems' by done.
  assert (Hk' : items'.*1 = sorted (Dict.keys items)).
  { clear -Hitems'. induction Hitems' as [|v it ? ? H ? IH]; [done|].
    simpl. apply bind_Ok in H as (cnt & _ & [= <-]). simpl. by f_equal. }
  assert (Hnd' : NoDup (Dict.keys items')).
  { unfold Dict.keys. rewrite Hk'. by rewrite sorted_Permutation. }
  rewrite DictFacts.of_items_NoDup by done.
  split_and!.
  - unfold Dict.keys at 1. rewrite Hk'. unfold Dict.keys. by rewrite H1.
  - done.
  - intros v label Hv Hl.
    destruct (lookup_lt_is_Some_2 (bincount col) v) as [c Hc]; [done|].
    destruct (Hit v c Hc) as (label' & Hl' & Hi).
    assert (label' = label) as -> by congruence.
    assert (Hc' : c = occ v col).
    { destruct col as [|a col]; [done|]. unfold bincount in Hc.
      rewrite list_lookup_fmap in Hc.
      rewrite length_bincount in Hv.
      rewrite lookup_seq_lt in Hc by done. by injection Hc as <-. }
    subst c.
    assert (Hin : label ∈ sorted (Dict.keys items)).
    { rewrite sorted_Permutation. apply list_elem_of_fmap.
      exists (label, occ v col). split; [done|].
      by eapply list_elem_of_lookup_2. }
    apply list_elem_of_lookup in Hin as [i Hi'].
    destruct (Forall2_lookup_l _ _ _ _ _ Hitems' Hi') as (it & Hit' & Hv').
    apply bind_Ok in Hv' as (c' & Hc'%or_raise_Ok & [= <-]).
    rewrite (DictFacts.get_NoDup _ _ (occ v col) Hk) in Hc'
      by by eapply list_elem_of_lookup_2.
    injection Hc' as <-.
    apply DictFacts.get_NoDup; [done|]. by eapply list_elem_of_lookup_2.
Qed.

Section Construction.
Variable rng : Z → nat → list nat.

Lemma column_inv a j col :
  column a j = Ok col →
  j < ncols a ∧ col = map (fun r => default 0 (r !! j)) (rows a).
Proof.
  unfold column. case_decide; [|done]. intros HF%mapM_Ok. split; [done|].
  induction HF as [|r c rs cs Hr _ IH]; [done|]. simpl.
  apply or_raise_Ok in Hr. rewrite Hr. simpl. by f_equal.
Qed.

Lemma max_list_bincount col :
  col ≠ [] → length (bincount col) = S (max_list col).
Proof. rewrite length_bincount. by destruct col. Qed.

Lemma set_N_node_values_gen self n seed self' all_cats :
  dstype self = categorical → NoDup (nodes self) →
  ncols (data self) = length (nodes self) →
  categories self = Some all_cats →
  set_N rng self n seed = Ok self' →
  Dict.keys (node_values self') = nodes self
  ∧ ∀ j name cats,
      nodes self !! j = Some name → all_cats !! j = Some cats → NoDup cats →
      let col := map (fun r => default 0 (r !! j))
                     (take (Z.to_nat n) (rows (data self))) in
      ∃ counts,
        Dict.get (node_values self') name = Some counts
        ∧ Dict.keys counts = sorted (take (S (max_list col)) cats)
        ∧ max_list col < length cats
        ∧ ∀ v label, v ≤ max_list col → cats !! v = Some label →
            Dict.get counts label = Some (occ v col).
Proof.
  intros Hds Hnd Hnc Hcats (Hn & _ & nv & smpl & -> & Hnv & _)%set_N_inv.
  apply sample_node_values_inv with (cats := all_cats) in Hnv as [Hk HF];
    [|done..|rewrite narrowed_ncols; lia].
  rewrite narrowed_ncols, Hnc in Hk, HF. rewrite firstn_all in Hk.
  split; [exact Hk|].
  intros j name cats Hname Hcj Hndc col. cbn [node_values with_sampling].
  assert (Hj : j < length (nodes self)) by by eapply lookup_lt_Some.
  destruct (lookup_lt_is_Some_2 nv j) as [[k counts] Hkc].
  { by rewrite <- (length_fmap fst nv), Hk. }
  assert (k = name) as ->.
  { assert (Hki : nv.*1 !! j = Some k) by by rewrite list_lookup_fmap, Hkc.
    rewrite Hk in Hki. congruence. }
  destruct (Forall2_lookup_l _ _ _ _ _ HF Hkc) as (j' & Hj' & He).
  rewrite lookup_seq_lt in Hj' by done. injection Hj' as <-. simpl in He.
  unfold expected_counts in He.
  apply bind_Ok in He as (col' & [_ Hcol]%column_inv & He).
  rewrite Hcj in He. simpl in He.
  rewrite narrowed_rows in Hcol. fold col in Hcol. subst col'.
  assert (Hne : col ≠ []).
  { unfold col. intros Hnil%(f_equal length).
    rewrite length_map, length_take in Hnil. simpl in Hnil. lia. }
  apply value_counts_spec in He as (Hkeys & Hle & Hget); [|done].
  rewrite max_list_bincount in Hkeys, Hle, Hget by done.
  exists counts. split_and!.
  - apply DictFacts.get_NoDup; [unfold Dict.keys; by rewrite Hk|].
    by eapply list_elem_of_lookup_2.
  - done.
  - lia.
  - intros v label Hv. apply Hget. lia.
Qed.

Lemma mapM_Ok_or_Raise {A B} (f : A → result B) l e :
  (∀ x, x ∈ l → (∃ y, f x = Ok y) ∨ f x = Raise e) →
  (∃ k, mapM f l = Ok k) ∨ mapM f l = Raise e.
Proof.
  induction l as [|x l IH]; intros H.
  - left. by exists [].
  - rewrite mapM_cons. destruct (H x) as [[y ->]| ->]; [left| |by right].
    rewrite bind_Ok_l.
    destruct IH as [[k ->]| ->]; [intros; apply H; by right| |by right].
    left. by exists (y :: k).
Qed.

Lemma mapM_Raise {A B} (f : A → result B) l e x :
  (∀ x, x ∈ l → (∃ y, f x = Ok y) ∨ f x = Raise e) →
  x ∈ l → f x = Raise e → mapM f l = Raise e.
Proof.
  intros H Hx Hfx. destruct (mapM_Ok_or_Raise f l e H) as [[k Hk]|]; [|done].
  apply mapM_Ok in Hk. apply list_elem_of_lookup in Hx as [i Hi].
  destruct (Forall2_lookup_l _ _ _ _ _ Hk Hi) as (y & _ & Hy). congruence.
Qed.

(** [value_counts] needs a label for every code up to the highest. *)
Lemma value_counts_Ok cats col :
  length (bincount col) ≤ length cats → ∃ d, value_counts cats col = Ok d.
Proof.
  intros Hle. unfold value_counts.
  destruct (mapM_is_Ok
    (fun vc : nat * nat => l ← cats !! vc.1 ?! IndexError; Ok (l, vc.2))
    (enumerate (bincount col))) as [items ->].
  { intros [v c] Hin%enumerate_elem. simpl.
    destruct (lookup_lt_is_Some_2 cats v) as [l ->]; [|simpl; eauto].
    apply lookup_lt_Some in Hin. lia. }
  rewrite bind_Ok_l.
  destruct (mapM_is_Ok
    (fun v => c ← Dict.item (Dict.of_items items) v; Ok (v, c))
    (sorted (Dict.keys (Dict.of_items items)))) as [items' ->].
  { intros v Hin. rewrite sorted_Permutation in Hin.
    apply DictFacts.get_is_Some in Hin as [c Hc]. unfold Dict.item.
    rewrite Hc. simpl. eauto. }
  rewrite bind_Ok_l. eauto.
Qed.

Lemma value_counts_Raise cats col :
  length cats < length (bincount col) →
  value_counts cats col = Raise IndexError.
Proof.
  intros Hlt. unfold value_counts.
  rewrite (mapM_Raise _ _ IndexError
             (length cats, default 0 (bincount col !! length cats))).
  - done.
  - intros [v c] _. simpl. destruct (cats !! v); simpl; eauto.
  - apply enumerate_elem.
    destruct (lookup_lt_is_Some_2 (bincount col) (length cats)) as [c ->];
      done.
  - simpl. by rewrite (proj2 (lookup_ge_None cats (length cats))) by lia.
Qed.

Lemma value_counts_Ok_iff cats col :
  (∃ d, value_counts cats col = Ok d) ↔ length (bincount col) ≤ length cats.
Proof.
  split; [|apply value_counts_Ok]. intros [d Hd].
  destruct (decide (length (bincount col) ≤ length cats)) as [|Hn]; [done|].
  rewrite value_counts_Raise in Hd by lia. done.
Qed.

(** The loop of [set_N] over the columns of a rectangular sample either
    gives the value counts of every column, or raises [IndexError] at a
    column that holds a code without a category. *)
Lemma sample_node_values_cases self smpl cats :
  dstype self = categorical → categories self = Some cats →
  ncols smpl ≤ length (nodes self) → ncols smpl ≤ length cats →
  rectangular smpl →
  let fits j :=
    match cats !! j with
    | Some cj =>
        length (bincount (map (fun r => default 0 (r !! j)) (rows smpl)))
        ≤ length cj
    | None => True
    end in
  (Forall fits (seq 0 (ncols smpl)) →
   ∃ nv, sample_node_values self smpl = Ok nv)
  ∧ (¬ Forall fits (seq 0 (ncols smpl)) →
     sample_node_values self smpl = Raise IndexError).
Proof.
  intros Hds Hcats Hn Hc Hrect fits. unfold sample_node_values.
  rewrite Hds, Hcats. unfold shape. simpl.
  set (step := fun (acc : result (list (string * list (string * nat))))
                   (j : nat) => _).
  assert (Hdec : ∀ j, Decision (fits j)).
  { intros j. unfold fits. destruct (cats !! j); apply _. }
  assert (H' : ∀ m, m ≤ ncols smpl →
    (Forall fits (seq 0 m) → ∃ nv, fold_left step (seq 0 m) (Ok []) = Ok nv)
    ∧ (¬ Forall fits (seq 0 m) →
       fold_left step (seq 0 m) (Ok []) = Raise IndexError)).
  { induction m as [|m IH]; intros Hm.
    { split; [by exists []|]. intros Hbad. destruct Hbad. constructor. }
    destruct IH as [IHok IHbad]; [lia|].
    rewrite seq_S, fold_left_app, Forall_app, Forall_singleton. simpl.
    destruct (lookup_lt_is_Some_2 cats m) as [cj Hcj]; [lia|].
    destruct (lookup_lt_is_Some_2 (nodes self) m) as [name Hname]; [lia|].
    assert (Hfm : fits m ↔ length (bincount
              (map (fun r => default 0 (r !! m)) (rows smpl))) ≤ length cj).
    { unfold fits. by rewrite Hcj. }
    assert (Hstep : ∀ nv,
      step (Ok nv) m
      = counts ← value_counts cj
                  (map (fun r => default 0 (r !! m)) (rows smpl));
        Ok (Dict.set nv name counts)).
    { intros nv. unfold step. rewrite bind_Ok_l.
      rewrite column_Ok by (done || lia). rewrite bind_Ok_l. simpl.
      rewrite Hcj. simpl.
      destruct (value_counts _ _); simpl; [|done]. by rewrite Hname. }
    split.
    - intros [Hall Hm']. destruct (IHok Hall) as [nv ->].
      rewrite Hstep.
      destruct (value_counts_Ok cj
                  (map (fun r => default 0 (r !! m)) (rows smpl)))
        as [d ->]; [by apply Hfm|].
      simpl. eauto.
    - intros Hbad.
      destruct (decide (Forall fits (seq 0 m))) as [Hall|Hnall].
      + destruct (IHok Hall) as [nv ->].
        rewrite Hstep, value_counts_Raise; [done|].
        destruct (decide (length cj < length (bincount
                    (map (fun r => default 0 (r !! m)) (rows smpl)))));
          [done|].
        exfalso. apply Hbad. split; [done|]. apply Hfm. lia.
      + by rewrite IHbad. }
  apply H'. done.
Qed.

Lemma bincount_fits col k :
  length (bincount col) ≤ k ↔ Forall (fun v => v < k) col.
Proof.
  split.
  - intros Hle. eapply Forall_impl; [apply bincount_bound|].
    simpl. intros v Hv. lia.
  - intros Hall. rewrite length_bincount. destruct col as [|a col]; [lia|].
    assert (Hm : max_list (a :: col) ∈ a :: col) by by apply max_list_elem_of.
    rewrite Forall_forall in Hall. apply Hall in Hm. lia.
Qed.

Lemma init_categories (cv : list (string * option (list string))) :
  NoDup (Dict.keys cv) → Forall is_Some (Dict.values cv) →
  mapM (fun n => v ← Dict.item cv n; v ?! TypeError "NumPy() bad arg type")
       (Dict.keys cv)
  = Ok (map (fun kv => default [] kv.2) cv).
Proof.
  intros Hnd Hall. apply mapM_Ok. unfold Dict.keys.
  apply Forall2_fmap_l, Forall2_fmap_r, Forall_Forall2_diag, Forall_forall.
  intros [k v] Hin. simpl. unfold Dict.item.
  rewrite (DictFacts.get_NoDup _ _ _ Hnd Hin). simpl.
  unfold Dict.values in Hall. rewrite Forall_fmap, Forall_forall in Hall.
  destruct (Hall _ Hin) as [c Hc]. simpl in Hc. by subst.
Qed.

Lemma codes_labelled_fits dat (cv : list (string * option (list string))) :
  Forall is_Some (Dict.values cv) →
  codes_labelled dat cv
  ↔ Forall (fun j =>
       match map (fun kv => default [] kv.2) cv !! j with
       | Some cj =>
           length (bincount (map (fun r => default 0 (r !! j)) (rows dat)))
           ≤ length cj
       | None => True
       end) (seq 0 (length cv)).
Proof.
  intros Hall. unfold codes_labelled.
  unfold Dict.values in Hall. rewrite Forall_fmap in Hall.
  rewrite !Forall_lookup. split.
  - intros H' i j Hj. apply lookup_seq in Hj as [-> Hi]. simpl.
    destruct (lookup_lt_is_Some_2 cv i) as [[k v] Hkv]; [done|].
    rewrite list_lookup_fmap, Hkv. simpl.
    rewrite Forall_lookup in Hall. destruct (Hall _ _ Hkv) as [c Hc].
    simpl in Hc. subst v. simpl.
    apply bincount_fits. rewrite Forall_fmap.
    assert (He : enumerate cv !! i = Some (i, (k, Some c))).
    { apply enumerate_lookup. eauto. }
    apply (H' _ _ He).
  - intros H' i [j kv'] (kv & [= -> ->] & Hkv)%enumerate_lookup. simpl.
    destruct kv as [k [c|]]; [|done]. simpl.
    assert (Hi : seq 0 (length cv) !! i = Some i).
    { apply lookup_seq_lt. by eapply lookup_lt_Some. }
    specialize (H' _ _ Hi). simpl in H'.
    rewrite list_lookup_fmap, Hkv in H'. simpl in H'.
    apply bincount_fits in H'. by rewrite Forall_fmap in H'.
Qed.

Lemma init_categorical_checked dat cv :
  NoDup (Dict.keys cv) → rectangular dat →
  Forall is_Some (Dict.values cv) →
  2 ≤ length (rows dat) → 2 ≤ ncols dat → ncols dat = length cv →
  arr_dtype dat = uint8 →
  if decide (codes_labelled dat cv)
  then ∃ ds, __init__ rng dat categorical cv = Ok ds
  else __init__ rng dat categorical cv = Raise IndexError.
Proof.
  intros Hnd Hrect Hty Hr Hc Hl Hdt.
  destruct (decide (codes_labelled dat cv)) as [Hlab|Hlab];
    unfold __init__;
    rewrite decide_False by (intros [[_ ?]|[? _]]; done);
    (rewrite decide_False;
     [|unfold shape; simpl; intros [?|[?|[?|[[_ ?]|[? _]]]]];
       try lia; done]);
    rewrite init_categories by done; simpl;
    unfold set_N;
    (rewrite decide_False;
     [|unfold shape; simpl; intros [?|[?|Hs]]; [lia|lia|done]]);
    unfold narrowed; rewrite decide_True by done; cbn [data];
    set (self := mk _ _ _ _ _ _ _ _ _ _ _);
    (destruct (sample_node_values_cases self dat
                (map (fun kv => default [] kv.2) cv)) as [Hok Hfail];
     [done|done|
      unfold self; simpl; unfold Dict.keys; rewrite length_fmap; lia|
      rewrite length_map; lia|done|]);
    rewrite Hl in Hok, Hfail.
  - apply codes_labelled_fits in Hlab; [|done].
    destruct (Hok Hlab) as [nv ->]. simpl. eauto.
  - rewrite Hfail; [done|]. intros Hf. apply Hlab.
    by apply codes_labelled_fits.
Qed.

(** X5. The constructor on categorical data: [TypeError] when a column
    has no tuple of categories; otherwise [ValueError] when the array has
    fewer than 2 rows or 2 columns, when the number of columns differs
    from the number of entries of [col_values] or when the dtype is not
    uint8; otherwise it succeeds when every code of the array has a label
    in the tuple of its column, and raises [IndexError] when some code has
    none. *)
Theorem init_categorical_cases dat cv :
  NoDup (Dict.keys cv) → rectangular dat →
  (¬ Forall is_Some (Dict.values cv) →
   __init__ rng dat categorical cv = Raise (TypeError "NumPy() bad arg type"))
  ∧ (Forall is_Some (Dict.values cv) →
     length (rows dat) < 2 ∨ ncols dat < 2 ∨ ncols dat ≠ length cv
     ∨ arr_dtype dat ≠ uint8 →
     __init__ rng dat categorical cv
     = Raise (ValueError "NumPy bad arg values"))
  ∧ (Forall is_Some (Dict.values cv) →
     2 ≤ length (rows dat) → 2 ≤ ncols dat → ncols dat = length cv →
     arr_dtype dat = uint8 →
     if decide (codes_labelled dat cv)
     then ∃ ds, __init__ rng dat categorical cv = Ok ds
     else __init__ rng dat categorical cv = Raise IndexError).
Proof.
  intros Hnd Hrect. split_and!.
  - intros Hty. unfold __init__. rewrite decide_True; [done|]. by left.
  - intros Hty Hbad. unfold __init__.
    rewrite decide_False by (intros [[_ ?]|[? _]]; done).
    rewrite decide_True; [done|]. unfold shape. simpl. tauto.
  - by apply init_categorical_checked.
Qed.

Lemma index_rows_Ok a order :
  Forall (fun i => i < length (rows a)) order →
  ∃ a', index_rows a order = Ok a'.
Proof.
  intros Hall. unfold index_rows.
  destruct (mapM_is_Ok (fun i => rows a !! i ?! IndexError) order) as [rs ->].
  - intros i Hi. rewrite Forall_forall in Hall.
    destruct (lookup_lt_is_Some_2 (rows a) i) as [r ->]; [auto|].
    simpl. eauto.
  - simpl. eauto.
Qed.

Lemma narrowed_rectangular self n :
  rectangular (data self) → rectangular (narrowed self n).
Proof.
  unfold rectangular. rewrite narrowed_rows, narrowed_ncols.
  apply Forall_take.
Qed.

Lemma set_N_Ok self n seed nv0 :
  rectangular (data self) → (∀ s m, rng s m ≡ₚ seq 0 m) →
  sample_node_values self (data self) = Ok nv0 →
  (dstype self = categorical →
   ∃ cats, categories self = Some cats
           ∧ ncols (data self) ≤ length (nodes self)
           ∧ ncols (data self) ≤ length cats) →
  (1 ≤ n ≤ Z.of_nat (length (rows (data self))))%Z →
  ¬ seed_out_of_range seed →
  ∃ self', set_N rng self n seed = Ok self'.
Proof.
  intros Hrect Hrng Hnv0 Hcat Hn Hseed. unfold set_N.
  rewrite decide_False
    by (unfold shape; simpl; intros [?|[?|?]]; try lia; done).
  assert (Hnv : ∃ nv, sample_node_values self (narrowed self n) = Ok nv).
  { destruct (dstype self) eqn:Hds.
    2:{ unfold sample_node_values. rewrite Hds. eauto. }
    destruct Hcat as (cats & Hcats & Hl1 & Hl2); [done|].
    destruct (sample_node_values_cases self (data self) cats)
      as [_ Hfail]; try done.
    destruct (sample_node_values_cases self (narrowed self n) cats)
      as [Hok _]; try done; try (rewrite narrowed_ncols; lia).
    { by apply narrowed_rectangular. }
    apply Hok. rewrite narrowed_ncols.
    match type of Hfail with ¬ Forall ?f ?l → _ =>
      assert (Hd : ∀ j, Decision (f j))
        by (intros j; simpl; destruct (cats !! j); apply _);
      destruct (Forall_dec f l) as [Hfits|Hnf];
        [|rewrite Hfail in Hnv0 by done; done] end.
    eapply Forall_impl; [exact Hfits|]. intros j Hj. simpl in *.
    destruct (cats !! j) as [cj|]; [|done].
    apply bincount_fits. apply bincount_fits in Hj.
    rewrite narrowed_rows. rewrite Forall_fmap in *. by apply Forall_take. }
  destruct Hnv as [nv ->]. rewrite bind_Ok_l.
  assert (Hs : ∃ smpl, match seed with
             | Some s =>
                 if decide (s ≠ 0%Z)
                 then index_rows (narrowed self n) (rng s (Z.to_nat n))
                 else Ok (narrowed self n)
             | None => Ok (narrowed self n)
             end = Ok smpl).
  { destruct seed as [s|]; [|eauto]. case_decide; [|eauto].
    apply index_rows_Ok. rewrite narrowed_rows, length_take.
    rewrite Hrng. apply Forall_forall. intros i Hi%elem_of_seq. lia. }
  destruct Hs as [smpl ->]. simpl. eauto.
Qed.

(** X3. On a dataset that the constructor has built, whatever calls of
    [set_N] it has seen since, [set_N(N, seed)] succeeds exactly when
    [1 <= N <= rows] and the seed is [None] or between 0 and 100; it
    raises [ValueError('Pandas.set_N() bad arg value')] otherwise. *)
Theorem set_N_succeeds_iff dat kind cv ds0 calls ds n seed :
  rectangular dat → (∀ s m, rng s m ≡ₚ seq 0 m) →
  __init__ rng dat kind cv = Ok ds0 →
  resample rng ds0 calls = Ok ds →
  if decide ((1 ≤ n ≤ Z.of_nat (length (rows dat)))%Z
             ∧ ¬ seed_out_of_range seed)
  then ∃ ds', set_N rng ds n seed = Ok ds'
  else set_N rng ds n seed = Raise (ValueError "Pandas.set_N() bad arg value").
Proof.
  intros Hrect Hrng Hinit Hre.
  apply resample_inv in Hre as (m & smpl & nv & ->).
  rewrite set_N_with_sampling.
  apply init_inv in Hinit as (Hr & Hc & Hl & _ & cats & Hcats & Hset).
  pose proof Hset as (_ & _ & nv0 & smpl0 & -> & Hnv0 & _)%set_N_inv.
  rewrite set_N_with_sampling.
  set (self := mk _ _ _ _ _ _ _ _ _ _ _) in *.
  case_decide as Hg.
  - destruct Hg as [Hn Hseed].
    eapply (set_N_Ok self n seed nv0); try done.
    + unfold narrowed in Hnv0. by rewrite decide_True in Hnv0.
    + intros Hk. unfold self in Hk. simpl in Hk. subst kind.
      destruct Hcats as (cs & Hcs & HF). exists cs. unfold self at 1. simpl.
      apply Forall2_length in HF. unfold self. simpl.
      unfold Dict.keys in *. rewrite length_fmap in *. split_and!; [done|lia..].
  - unfold set_N. rewrite decide_True; [done|]. unfold shape. simpl.
    destruct (decide (n < 1)%Z); [by left|].
    destruct (decide (n > Z.of_nat (length (rows dat)))%Z);
      [right; by left|].
    right. right. destruct (decide (seed_out_of_range seed)); [done|].
    exfalso. apply Hg. split; [lia|done].
Qed.

Lemma factorize_columns_Ok cols :
  NoDup cols.*1 →
  Forall (fun col => ∃ vals, col.2 = CategorySeries vals
                             ∧ length (pd_unique vals) ≤ MAX_CATEGORY) cols →
  factorize_columns cols
  = Ok (map column_codes cols, map column_categories cols).
Proof.
  intros Hnd Hall.
  assert (Hex : ∃ st, factorize_columns cols = Ok st).
  { unfold factorize_columns.
    generalize (([], []) : list (list nat)
                           * list (string * option (list string))).
    induction Hall as [|[name s] cols (vals & Hs & Hmax) _ IH]; intros acc.
    - simpl. eauto.
    - simpl in *. subst s. simpl.
      rewrite decide_False by (unfold MAX_CATEGORY in *; lia).
      apply IH. by apply NoDup_cons in Hnd as [_ ?]. }
  destruct Hex as [[c v] Hst]. rewrite Hst.
  apply factorize_columns_inv in Hst as (_ & H1 & H2); [|done].
  simpl in *. by subst.
Qed.

Lemma dtypes_all_category (cols : list (string * Series)) :
  cols ≠ [] → Forall (fun col => ∃ vals, col.2 = CategorySeries vals) cols →
  (list_to_set (map (fun c => series_dtype c.2) cols) : gset string)
  = {["category"%string]}.
Proof.
  intros Hne Hall. apply set_eq. intros x.
  rewrite elem_of_list_to_set, elem_of_singleton, list_elem_of_fmap. split.
  - intros (c & -> & Hc). rewrite Forall_forall in Hall.
    by destruct (Hall c Hc) as (vals & ->).
  - intros ->. destruct cols as [|c cols]; [done|]. exists c.
    apply Forall_cons in Hall as [(vals & ->) _]. split; [done|left].
Qed.

Lemma from_df_codes_labelled df :
  df_wf df →
  Forall (fun col => ∃ vals, col.2 = CategorySeries vals
                             ∧ length (pd_unique vals) ≤ MAX_CATEGORY)
         (columns df) →
  codes_labelled (to_numpy uint8 (df_len df) (map column_codes (columns df)))
                 (map column_categories (columns df)).
Proof.
  intros [_ Hlens] Hall. unfold codes_labelled. apply Forall_lookup.
  intros j [j' kv] (kv' & [= -> ->] & Hkv)%enumerate_lookup. simpl.
  rewrite list_lookup_fmap in Hkv.
  destruct (columns df !! j) as [[name s]|] eqn:Hj; [|done].
  injection Hkv as <-. simpl.
  rewrite Forall_lookup in Hall. destruct (Hall _ _ Hj) as (vals & Hs & Hmax).
  simpl in Hs. subst s. simpl.
  rewrite Forall_lookup in Hlens. specialize (Hlens _ _ Hj). simpl in Hlens.
  unfold to_numpy. simpl. apply Forall_fmap, Forall_forall.
  intros i Hi%elem_of_seq. simpl.
  rewrite !list_lookup_fmap, Hj. simpl. unfold column_codes. simpl.
  destruct (lookup_lt_is_Some_2 vals i) as [v Hv]; [lia|].
  destruct (factorize_code vals i v Hv) as (c & Hc & Hu).
  rewrite (nth_lookup_Some _ _ _ _ Hc).
  apply lookup_lt_Some in Hu. unfold MAX_CATEGORY in Hmax. simpl in Hu.
  rewrite to_uint8_small; lia.
Qed.

Lemma from_df_categorical_accepts df keep :
  df_wf df →
  (∃ ds, from_df rng df categorical keep = Ok ds)
  ↔ 2 ≤ df_len df ∧ 2 ≤ length (columns df)
    ∧ Forall (fun c => ∃ vals, c.2 = CategorySeries vals
                ∧ size (list_to_set vals : gset string) ≤ MAX_CATEGORY)
             (columns df).
Proof.
  intros Hwf. split.
  - intros [ds Hds].
    apply from_df_categorical_inv in Hds as [Hall Hinit]; [|done].
    apply init_inv in Hinit as (Hr & Hc & _).
    rewrite to_numpy_length in Hr. unfold to_numpy in Hc. simpl in Hc.
    rewrite length_map in Hc. split_and!; try done.
    eapply Forall_impl; [exact Hall|]. intros c (vals & -> & Hmax).
    exists vals. by rewrite <- pd_unique_length.
  - intros (Hr & Hc & Hall).
    assert (Hall' : Forall (fun col => ∃ vals, col.2 = CategorySeries vals
                      ∧ length (pd_unique vals) ≤ MAX_CATEGORY) (columns df)).
    { eapply Forall_impl; [exact Hall|]. intros c (vals & -> & Hmax).
      exists vals. by rewrite pd_unique_length. }
    pose proof Hwf as [Hnd Hlens].
    unfold from_df. rewrite decide_False.
    2:{ intros [?|[?|[[_ Hd]|[? _]]]]; try lia; [|done]. apply Hd.
        apply dtypes_all_category.
        - intros Hnil. rewrite Hnil in Hc. simpl in Hc. lia.
        - eapply Forall_impl; [exact Hall'|]. naive_solver. }
    rewrite factorize_columns_Ok by done. rewrite bind_Ok_l. simpl.
    pose proof (init_categorical_checked
      (to_numpy uint8 (df_len df) (map column_codes (columns df)))
      (map column_categories (columns df))) as Hinit.
    rewrite decide_True in Hinit by by apply from_df_codes_labelled.
    apply Hinit.
    + unfold Dict.keys. by rewrite <- list_fmap_compose.
    + apply to_numpy_rectangular.
    + unfold Dict.values. rewrite <- list_fmap_compose.
      apply Forall_fmap, Forall_forall. intros c _. simpl. eauto.
    + by rewrite to_numpy_length.
    + unfold to_numpy. simpl. by rewrite length_map.
    + unfold to_numpy. simpl. by rewrite !length_map.
    + done.
Qed.

Lemma from_df_continuous_inv df keep ds :
  df_wf df → from_df rng df continuous keep = Ok ds →
  Forall (fun col => ∃ vals, col.2 = Float32Series vals) (columns df)
  ∧ __init__ rng (to_numpy float32 (df_len df)
                    (map (fun c => series_cells c.2) (columns df)))
             continuous (map (fun c => (c.1, None)) (columns df)) = Ok ds.
Proof.
  intros [Hnd Hlens]. unfold from_df. case_decide as Hg; [done|].
  assert (Hall : Forall (fun col => ∃ vals, col.2 = Float32Series vals)
                        (columns df)).
  { apply dtypes_float32.
    match goal with |- ?s = _ => destruct (decide (s = {["float32"%string]}))
      as [|Hn]; [done|] end.
    exfalso. apply Hg. do 3 right. done. }
  rewrite (mapM_Ok_map _ (fun c => series_cells c.2)).
  2:{ intros c Hc. rewrite Forall_forall in Hall.
      by destruct (Hall c Hc) as (vals & ->). }
  rewrite bind_Ok_l, DictFacts.of_items_NoDup.
  - done.
  - unfold Dict.keys. by rewrite <- list_fmap_compose.
Qed.

Lemma values_Ok s nodes_ js :
  rectangular (data s) → ncols (data s) = length (nodes s) →
  Forall (fun nt : string * string => nt.2 ≠ "category"%string)
         (node_types s) →
  nodes_ ≠ [] → NoDup nodes_ →
  Forall (fun x => x ∈ Dict.keys (node_types s)) nodes_ →
  mapM (tuple_index (nodes s)) nodes_ = Ok js →
  values s nodes_
  = Ok (mk_ndarray (arr_dtype (data s)) (length nodes_)
          (map (pick js) (rows (data s)))).
Proof.
  intros Hrect Hnc Hnum Hne Hnd Hall Hjs. unfold values.
  rewrite decide_False by (by destruct nodes_).
  rewrite filter_id by done. rewrite decide_False.
  - rewrite Hjs, bind_Ok_l. rewrite select_columns_Ok; [|done|].
    + do 2 f_equal. by apply mapM_length in Hjs.
    + apply mapM_Ok in Hjs. rewrite Hnc.
      eapply Forall2_Forall_r; [exact Hjs|]. apply Forall_forall.
      intros x _ j Hj%tuple_index_find.
      destruct (list_find _ _) as [[j' y]|] eqn:Hf; [|done].
      injection Hj as ->. apply list_find_Some in Hf as [Hf _].
      by eapply lookup_lt_Some.
  - intros [Hbad|Hbad].
    + apply Hbad. by apply size_list_to_set_NoDup.
    + apply Hbad. apply size_empty_iff. apply set_equiv. intros x.
      rewrite elem_of_difference, !elem_of_list_to_set.
      split; [|set_solver]. intros [Hx Hnx]. exfalso. apply Hnx.
      rewrite Forall_forall in Hall. by apply Hall.
Qed.

(** X9. Round trip of a continuous dataframe: [values((name,))] on the
    dataset that [from_df] builds returns the values of the column [name]
    of the frame, in row order. *)
Theorem from_df_continuous_values df keep ds j name vals :
  df_wf df → from_df rng df continuous keep = Ok ds →
  columns df !! j = Some (name, Float32Series vals) →
  values ds [name] = Ok (mk_ndarray float32 1 (map (fun v => [v]) vals)).
Proof.
  intros Hwf Hfrom Hj. pose proof Hwf as [Hnd Hlens].
  apply from_df_continuous_inv in Hfrom as [Hall Hinit]; [|done].
  pose proof (init_node_types _ _ _ _ _ Hinit) as Hnt.
  pose proof (init_inv _ _ _ _ _ Hinit) as (_ & _ & Hnc & Hdt & _).
  apply init_fields in Hinit as (Hdata & _ & Hnodes & _).
  assert (Hkeys : Dict.keys (map (fun c : string * Series =>
                    (c.1, @None (list string))) (columns df))
                  = (columns df).*1).
  { unfold Dict.keys. by rewrite <- list_fmap_compose. }
  rewrite Hkeys in *.
  assert (Hname : (columns df).*1 !! j = Some name).
  { by rewrite list_lookup_fmap, Hj. }
  rewrite (values_Ok ds [name] [j]).
  - rewrite Hdata. simpl. do 2 f_equal.
    rewrite Forall_lookup in Hlens. specialize (Hlens _ _ Hj).
    simpl in Hlens. rewrite <- Hlens.
    apply list_eq. intros i. rewrite !list_lookup_fmap.
    destruct (decide (i < length vals)) as [Hi|Hi].
    + rewrite lookup_seq_lt by done. simpl.
      rewrite list_lookup_fmap, list_lookup_fmap, Hj. simpl.
      destruct (lookup_lt_is_Some_2 vals i Hi) as [v Hv].
      by rewrite Hv, (nth_lookup_Some _ _ _ _ Hv).
    + rewrite lookup_seq_ge by lia.
      by rewrite (proj2 (lookup_ge_None vals i)) by lia.
  - rewrite Hdata. apply to_numpy_rectangular.
  - rewrite Hdata, Hnodes. unfold to_numpy. simpl.
    by rewrite !length_map.
  - rewrite Hnt.
    eapply Forall_impl.
    + apply (values_of_items _ (fun v => v = "float32"%string)).
      apply Forall_forall. by intros kv (n & -> & _)%list_elem_of_fmap.
    + simpl. by intros kv ->.
  - done.
  - apply NoDup_singleton.
  - apply Forall_singleton. rewrite Hnt. apply keys_of_items.
    rewrite <- list_fmap_compose. simpl. rewrite list_fmap_id.
    by eapply list_elem_of_lookup_2.
  - rewrite Hnodes. simpl. by rewrite (tuple_index_lookup _ j).
Qed.

End Construction.

(** ** The order of the rows *)

#[global] Instance row_lt_antisym : AntiSymm eq row_lt.
Proof.
  intros a b Hab Hba. exfalso. apply (row_lt_irrefl a).
  by eapply row_lt_trans.
Qed.

Lemma unique_Permutation l l' : l ≡ₚ l' → unique l = unique l'.
Proof.
  intros Hp. apply (StronglySorted_unique row_lt); try apply unique_sorted.
  apply NoDup_Permutation; try apply unique_NoDup.
  intros x. by rewrite !elem_of_unique, Hp.
Qed.

Lemma count_row_Permutation r l l' :
  l ≡ₚ l' → count_row r l = count_row r l'.
Proof. intros Hp. unfold count_row. by rewrite Hp. Qed.

Lemma unique_counts_Permutation l l' :
  l ≡ₚ l' → unique_counts l = unique_counts l'.
Proof.
  intros Hp. unfold unique_counts. rewrite (unique_Permutation _ _ Hp).
  f_equal. apply map_ext. intros r. by apply count_row_Permutation.
Qed.

Lemma select_columns_Permutation a a' js :
  rectangular a → rectangular a' → ncols a' = ncols a →
  rows a' ≡ₚ rows a →
  match select_columns a js, select_columns a' js with
  | Ok sel, Ok sel' => rows sel' ≡ₚ rows sel
  | Raise e, Raise e' => e = e'
  | _, _ => False
  end.
Proof.
  intros Hr Hr' Hnc Hp.
  destruct (decide (Forall (fun j => j < ncols a) js)) as [Hjs|Hjs].
  - rewrite !select_columns_Ok by (done || by rewrite Hnc). simpl.
    by apply Permutation_map.
  - unfold select_columns. rewrite Hnc. by rewrite !decide_False by done.
Qed.

Lemma marginals_rows_Permutation s n smpl' node parents v :
  rectangular (sample s) → rectangular smpl' →
  ncols smpl' = ncols (sample s) → rows smpl' ≡ₚ rows (sample s) →
  marginals (with_sampling s n smpl' (node_values s)) node parents v
  = marginals s node parents v.
Proof.
  intros Hr Hr' Hnc Hp.
  unfold marginals, bad_request, max_columns, row_col_values.
  change (columns_reqd (with_sampling s n smpl' (node_values s)))
    with (columns_reqd s).
  cbn [data sample nodes categories order ext_to_orig orig_to_ext N
       node_types dstype node_values with_sampling].
  case_decide; [done|]. case_decide; [done|].
  destruct (columns_reqd s (requested node parents)) as [js|e]; [|done].
  rewrite !bind_Ok_l.
  destruct (mapM _ (requested node parents)) as [nc|e]; [|done].
  rewrite !bind_Ok_l.
  pose proof (select_columns_Permutation (sample s) smpl' js Hr Hr' Hnc Hp)
    as Hs.
  destruct (select_columns (sample s) js) as [sel|e],
           (select_columns smpl' js) as [sel'|e']; try done; [|by subst].
  rewrite !bind_Ok_l. by rewrite (unique_counts_Permutation _ _ Hs).
Qed.

Section RowOrder.
Variable rng : Z → nat → list nat.

(** X4. The seed of [set_N] changes the order of the sample rows only:
    [N], [node_values] and every result of [marginals], errors included,
    are those of the unseeded call. *)
Theorem marginals_row_order self n seed s0 s1 node parents values_reqd :
  rectangular (data self) → (∀ s m, rng s m ≡ₚ seq 0 m) →
  set_N rng self n None = Ok s0 → set_N rng self n seed = Ok s1 →
  N s1 = N s0 ∧ node_values s1 = node_values s0
  ∧ marginals s1 node parents values_reqd
    = marginals s0 node parents values_reqd.
Proof.
  intros Hrect Hrng (Hn & _ & nv0 & smpl0 & -> & Hnv0 & [= <-])%set_N_inv
    (_ & _ & nv1 & smpl1 & -> & Hnv1 & Hs)%set_N_inv.
  assert (nv1 = nv0) as -> by congruence.
  split; [done|]. split; [done|].
  apply (marginals_rows_Permutation
           (with_sampling self n (narrowed self n) nv0) n smpl1).
  - by apply narrowed_rectangular.
  - destruct seed as [s|]; [|by injection Hs as <-; apply narrowed_rectangular].
    case_decide; [|by injection Hs as <-; apply narrowed_rectangular].
    apply index_rows_inv in Hs as (_ & Hc & HF).
    unfold rectangular. rewrite Hc. apply Forall_forall. intros r Hr.
    apply list_elem_of_lookup in Hr as [i Hi].
    destruct (Forall2_lookup_r _ _ _ _ _ HF Hi) as (k & _ & Hk).
    pose proof (narrowed_rectangular self n Hrect) as Hrn.
    unfold rectangular in Hrn. rewrite Forall_forall in Hrn.
    apply Hrn. by eapply list_elem_of_lookup_2.
  - destruct seed as [s|]; [|by injection Hs as <-].
    case_decide; [|by injection Hs as <-].
    by apply index_rows_inv in Hs as (_ & Hc & _).
  - destruct seed as [s|]; [|by injection Hs as <-].
    case_decide; [|by injection Hs as <-].
    apply index_rows_inv in Hs as (_ & _ & HF). simpl.
    eapply indexed_Permutation; [|exact HF].
    rewrite narrowed_rows, length_take.
    replace (Z.to_nat n `min` length (rows (data self))) with (Z.to_nat n)
      by lia.
    apply Hrng.
Qed.

End RowOrder.

(** ** Dataframes *)

Lemma labelled_columns_Ok a names :
  rectangular a → ncols a = length names →
  labelled_columns a names
  = Ok (map (fun jn : nat * string =>
               (jn.2, map (fun r => default 0 (r !! jn.1)) (rows a)))
            (enumerate names)).
Proof.
  intros Hr Hnc. unfold labelled_columns. rewrite decide_False by lia.
  apply mapM_Ok_map. intros [j n] Hin%enumerate_elem. simpl.
  rewrite column_Ok; [done..|]. apply lookup_lt_Some in Hin. lia.
Qed.

Lemma from_codes_Ok codes cats :
  NoDup cats → Forall (fun c => c < length cats) codes →
  from_codes codes cats
  = Ok (CategorySeries (map (fun c => default ""%string (cats !! c)) codes)).
Proof.
  intros Hnd Hall. unfold from_codes.
  rewrite decide_False by (intros Hn; by apply Hn).
  rewrite decide_False.
  2:{ intros (c & Hc & Hle)%Exists_exists. rewrite Forall_forall in Hall.
      apply Hall in Hc. lia. }
  rewrite (mapM_Ok_map _ (fun c => default ""%string (cats !! c))); [done|].
  intros c Hc. rewrite Forall_forall in Hall.
  destruct (lookup_lt_is_Some_2 cats c) as [l ->]; [auto|]. done.
Qed.

Lemma enumerate_fmap {A B} (g : nat * A → B) (l : list A) :
  enumerate (map g (enumerate l))
  = map (fun jn => (jn.1, g jn)) (enumerate l).
Proof.
  apply list_eq. intros i. unfold enumerate.
  rewrite list_lookup_imap, !list_lookup_fmap, list_lookup_imap.
  by destruct (l !! i).
Qed.

(** The frame that [as_df] builds from the sample, before the columns
    are reordered and renamed. *)
Lemma as_df_frame self :
  rectangular (sample self) → ncols (sample self) = length (nodes self) →
  (dstype self = categorical →
   ∃ cats, categories self = Some cats
     ∧ length cats = length (nodes self) ∧ Forall NoDup cats
     ∧ ∀ j cj r, cats !! j = Some cj → r ∈ rows (sample self) →
         default 0 (r !! j) < length cj) →
  as_df self
  = reordered self
      (mk_df (length (rows (sample self)))
         (map (fun jn : nat * string =>
            (jn.2,
             match dstype self with
             | categorical =>
                 CategorySeries
                   (map (fun r : list nat =>
                           default ""%string
                             (default [] (default [] (categories self)
                                          !! jn.1)
                              !! default 0 (r !! jn.1)))
                        (rows (sample self)))
             | continuous =>
                 Float32Series
                   (map (fun r : list nat => default 0 (r !! jn.1))
                        (rows (sample self)))
             end))
            (enumerate (nodes self)))).
Proof.
  intros Hrect Hnc Hcat. unfold as_df.
  rewrite labelled_columns_Ok by done. rewrite bind_Ok_l.
  destruct (dstype self) eqn:Hds.
  - destruct Hcat as (cats & Hcats & Hlen & Hndc & Hcodes); [done|].
    rewrite Hcats. simpl. rewrite enumerate_fmap.
    erewrite (mapM_Ok_map _ (fun jc : nat * (string * list nat) =>
      (jc.2.1, CategorySeries
                 (map (fun c => default ""%string
                                  (default [] (cats !! jc.1) !! c)) jc.2.2)))).
    + rewrite bind_Ok_l. unfold shape. simpl. do 2 f_equal.
      rewrite <- !list_fmap_compose. apply list_fmap_ext.
      intros i [j n] _. simpl. by rewrite <- list_fmap_compose.
    + intros jc ([j n] & -> & Hin%enumerate_elem)%list_elem_of_fmap. simpl.
      destruct (lookup_lt_is_Some_2 cats j) as [cj Hcj].
      { apply lookup_lt_Some in Hin. lia. }
      rewrite Hcj. simpl. rewrite from_codes_Ok; [done| |].
      * rewrite Forall_forall in Hndc. apply Hndc.
        by eapply list_elem_of_lookup_2.
      * apply Forall_fmap, Forall_forall. intros r Hr. simpl. eauto.
  - rewrite bind_Ok_l. unfold shape. simpl. do 2 f_equal.
    rewrite <- !list_fmap_compose. done.
Qed.

Lemma reordered_plain self df :
  order self = seq 0 (ncols (data self)) →
  same_dict (orig_to_ext self) (ext_to_orig self) →
  reordered self df = Ok (frame_of df).
Proof.
  intros Hord Hmaps. unfold reordered. rewrite decide_False; [done|].
  unfold shape. simpl. intros [?|Hn]; [done|]. by apply Hn.
Qed.

Section Frames.
Variable rng : Z → nat → list nat.

Lemma init_state dat kind cv ds :
  __init__ rng dat kind cv = Ok ds →
  ∃ cats nv,
    ds = mk dat dat (Dict.keys cv) cats (seq 0 (length (Dict.keys cv)))
            (Dict.of_items (map (fun n => (n, n)) (Dict.keys cv)))
            (Dict.of_items (map (fun n => (n, n)) (Dict.keys cv)))
            (Z.of_nat (length (rows dat)))
            (Dict.of_items
               (map (fun n => (n, match kind with
                                  | categorical => "category"%string
                                  | continuous => "float32"%string
                                  end)) (Dict.keys cv)))
            kind nv
    ∧ ncols dat = length cv
    ∧ match kind with
      | categorical =>
          ∃ cs, cats = Some cs
                ∧ Forall2 (fun n c => Dict.get cv n = Some (Some c))
                          (Dict.keys cv) cs
      | continuous => cats = None
      end.
Proof.
  intros (_ & _ & Hnc & _ & cats & Hcats & Hset)%init_inv.
  apply set_N_inv in Hset as (_ & _ & nv & smpl & -> & _ & [= <-]).
  exists cats, nv. split; [|split; [exact Hnc|exact Hcats]].
  unfold with_sampling, narrowed, shape. simpl.
  by rewrite decide_True by done.
Qed.

Lemma from_df_categories df :
  NoDup (columns df).*1 →
  ∀ cs, Forall2 (fun n c => Dict.get (map column_categories (columns df)) n
                            = Some (Some c))
                (Dict.keys (map column_categories (columns df))) cs →
  cs = map (fun c => pd_unique (series_values c.2)) (columns df).
Proof.
  intros Hnd cs HF.
  assert (Hkeys : Dict.keys (map column_categories (columns df))
                  = (columns df).*1).
  { unfold Dict.keys. by rewrite <- list_fmap_compose. }
  rewrite Hkeys in HF.
  apply list_eq_same_length with (length cs); [|done|].
  { apply Forall2_length in HF. by rewrite length_map, <- HF, length_fmap. }
  intros i c c' _ Hc Hc'.
  rewrite list_lookup_fmap in Hc'.
  destruct (columns df !! i) as [[name s]|] eqn:Hi; [|done].
  injection Hc' as <-. simpl.
  assert (Hn : (columns df).*1 !! i = Some name)
    by by rewrite list_lookup_fmap, Hi.
  destruct (Forall2_lookup_l _ _ _ _ _ HF Hn) as (c2 & Hc2 & Hget).
  assert (c2 = c) as -> by congruence.
  rewrite (DictFacts.get_NoDup _ name (Some (pd_unique (series_values s))))
    in Hget; [congruence|by rewrite Hkeys|].
  apply list_elem_of_fmap. exists (name, s). split; [done|].
  by eapply list_elem_of_lookup_2.
Qed.

Lemma to_numpy_column dt n cols j c :
  cols !! j = Some c → length c = n →
  map (fun r : list nat => default 0 (r !! j)) (rows (to_numpy dt n cols))
  = map (match dt with uint8 => to_uint8 | float32 => id end) c.
Proof.
  intros Hj Hlen. unfold to_numpy. simpl. rewrite <- list_fmap_compose.
  apply list_eq. intros i. rewrite !list_lookup_fmap.
  destruct (decide (i < n)) as [Hi|Hi].
  - rewrite lookup_seq_lt by done. simpl.
    rewrite list_lookup_fmap, Hj. simpl.
    destruct (lookup_lt_is_Some_2 c i) as [v Hv]; [lia|].
    by rewrite Hv, (nth_lookup_Some _ _ _ _ Hv).
  - rewrite lookup_seq_ge by lia.
    by rewrite (proj2 (lookup_ge_None c i)) by lia.
Qed.

Lemma factorize_decode vals :
  length (pd_unique vals) ≤ MAX_CATEGORY →
  map (fun c => default ""%string (pd_unique vals !! c))
      (map to_uint8 (factorize vals).1)
  = vals.
Proof.
  intros Hmax. rewrite <- list_fmap_compose.
  apply list_eq. intros i. rewrite list_lookup_fmap.
  destruct (vals !! i) as [v|] eqn:Hv.
  - destruct (factorize_code vals i v Hv) as (c & -> & Hu). simpl in *.
    rewrite to_uint8_small.
    + by rewrite Hu.
    + apply lookup_lt_Some in Hu. unfold MAX_CATEGORY in Hmax. lia.
  - rewrite (proj2 (lookup_ge_None _ i)); [done|].
    apply lookup_ge_None in Hv. unfold factorize. simpl.
    by rewrite length_map.
Qed.

(** The frame of a dataset built from a frame, at a sample of the first
    [m] rows. *)
Lemma as_df_from_df df kind keep ds0 m s :
  df_wf df → from_df rng df kind keep = Ok ds0 →
  nodes s = nodes ds0 → categories s = categories ds0 →
  dstype s = dstype ds0 →
  ncols (sample s) = ncols (data ds0) →
  rows (sample s) = take m (rows (data ds0)) →
  as_df s = reordered s (df_head m df).
Proof.
  intros Hwf Hfrom Hnodes Hcats Hds Hnc Hrows. pose proof Hwf as [Hnd Hlens].
  destruct kind.
  - pose proof (from_df_categorical_inv _ _ _ _ Hwf Hfrom) as [Hall Hinit].
    apply init_state in Hinit as (cats & nv0 & -> & Hncd & cs & -> & HF).
    apply from_df_categories in HF; [|done]. subst cs.
    assert (Hkeys : Dict.keys (map column_categories (columns df))
                    = (columns df).*1).
    { unfold Dict.keys. by rewrite <- list_fmap_compose. }
    rewrite Hkeys in *.
    cbn [data nodes categories dstype] in Hnodes, Hcats, Hds, Hnc, Hrows.
    rewrite as_df_frame.
    + rewrite Hds, Hnodes, Hcats. f_equal. unfold df_head. f_equal.
      { by rewrite Hrows, length_take, to_numpy_length. }
      apply list_eq. intros j. rewrite !list_lookup_fmap.
      destruct (columns df !! j) as [[name s0]|] eqn:Hj.
      * assert (He : enumerate (columns df).*1 !! j = Some (j, name)).
        { apply enumerate_lookup. exists name.
          by rewrite list_lookup_fmap, Hj. }
        rewrite He. simpl. do 2 f_equal.
        rewrite Forall_lookup in Hall.
        destruct (Hall _ _ Hj) as (vals & Hs & Hmax). simpl in Hs. subst s0.
        simpl. f_equal. rewrite list_lookup_fmap, Hj. simpl.
        rewrite Hrows.
        rewrite fmap_take. f_equal.
        transitivity
          (map (fun c => default ""%string (pd_unique vals !! c))
               (map (fun r : list nat => default 0 (r !! j))
                    (rows (to_numpy uint8 (df_len df)
                             (map column_codes (columns df)))))).
        { by rewrite <- list_fmap_compose. }
        rewrite (to_numpy_column uint8 (df_len df)
                   (map column_codes (columns df)) j
                   (factorize vals).1).
        -- by apply factorize_decode.
        -- by rewrite list_lookup_fmap, Hj.
        -- unfold factorize. simpl. rewrite length_map.
           rewrite Forall_lookup in Hlens. apply (Hlens _ _ Hj).
      * assert (He : enumerate (columns df).*1 !! j = None).
        { apply lookup_ge_None. rewrite enumerate_length, length_fmap.
          by apply lookup_ge_None in Hj. }
        by rewrite He.
    + unfold rectangular. rewrite Hnc, Hrows. apply Forall_take.
      apply to_numpy_rectangular.
    + rewrite Hnc, Hnodes. unfold to_numpy. simpl. by rewrite !length_fmap.
    + intros _. eexists. split; [exact Hcats|]. rewrite Hnodes. split_and!.
      * by rewrite !length_fmap.
      * apply Forall_fmap, Forall_forall. intros c _. apply pd_unique_NoDup.
      * intros j cj r Hcj Hr. rewrite Hrows in Hr.
        apply elem_of_take in Hr as (i & Hr & _).
        pose proof (from_df_codes_labelled df Hwf Hall) as Hlab.
        unfold codes_labelled in Hlab. rewrite Forall_lookup in Hlab.
        rewrite list_lookup_fmap in Hcj.
        destruct (columns df !! j) as [[name s0]|] eqn:Hj; [|done].
        injection Hcj as <-.
        assert (He : enumerate (map column_categories (columns df)) !! j
                     = Some (j, column_categories (name, s0))).
        { apply enumerate_lookup. eexists. split; [done|].
          by rewrite list_lookup_fmap, Hj. }
        specialize (Hlab _ _ He). simpl in Hlab.
        rewrite Forall_forall in Hlab. apply Hlab.
        by eapply list_elem_of_lookup_2.
  - pose proof (from_df_continuous_inv _ _ _ _ Hwf Hfrom) as [Hall Hinit].
    apply init_state in Hinit as (cats & nv0 & -> & Hncd & ->).
    assert (Hkeys : Dict.keys (map (fun c : string * Series =>
                      (c.1, @None (list string))) (columns df))
                    = (columns df).*1).
    { unfold Dict.keys. by rewrite <- list_fmap_compose. }
    rewrite Hkeys in *.
    cbn [data nodes categories dstype] in Hnodes, Hcats, Hds, Hnc, Hrows.
    rewrite as_df_frame.
    + rewrite Hds, Hnodes. f_equal. unfold df_head. f_equal.
      { by rewrite Hrows, length_take, to_numpy_length. }
      apply list_eq. intros j. rewrite !list_lookup_fmap.
      destruct (columns df !! j) as [[name s0]|] eqn:Hj.
      * assert (He : enumerate (columns df).*1 !! j = Some (j, name)).
        { apply enumerate_lookup. exists name.
          by rewrite list_lookup_fmap, Hj. }
        rewrite He. simpl. do 2 f_equal.
        rewrite Forall_lookup in Hall.
        destruct (Hall _ _ Hj) as (vals & Hs). simpl in Hs. subst s0.
        simpl. f_equal. rewrite Hrows, fmap_take. f_equal.
        rewrite (to_numpy_column float32 (df_len df) _ j vals).
        -- by rewrite list_fmap_id.
        -- by rewrite list_lookup_fmap, Hj.
        -- rewrite Forall_lookup in Hlens. apply (Hlens _ _ Hj).
      * assert (He : enumerate (columns df).*1 !! j = None).
        { apply lookup_ge_None. rewrite enumerate_length, length_fmap.
          by apply lookup_ge_None in Hj. }
        by rewrite He.
    + unfold rectangular. rewrite Hnc, Hrows. apply Forall_take.
      apply to_numpy_rectangular.
    + rewrite Hnc, Hnodes. unfold to_numpy. simpl. by rewrite !length_fmap.
    + by rewrite Hds.
Qed.

Lemma from_df_plain df kind keep ds :
  df_wf df → from_df rng df kind keep = Ok ds →
  order ds = seq 0 (ncols (data ds))
  ∧ same_dict (orig_to_ext ds) (ext_to_orig ds)
  ∧ sample ds = data ds
  ∧ length (rows (data ds)) = df_len df
  ∧ nodes ds = (columns df).*1
  ∧ ncols (data ds) = length (columns df).
Proof.
  intros Hwf Hfrom.
  assert (Hinit : ∃ dat cv, __init__ rng dat kind cv = Ok ds
                            ∧ length (rows dat) = df_len df
                            ∧ Dict.keys cv = (columns df).*1).
  { destruct kind.
    - apply from_df_categorical_inv in Hfrom as [_ Hinit]; [|done].
      eexists _, _. split; [exact Hinit|]. rewrite to_numpy_length.
      split; [done|]. unfold Dict.keys. by rewrite <- list_fmap_compose.
    - apply from_df_continuous_inv in Hfrom as [_ Hinit]; [|done].
      eexists _, _. split; [exact Hinit|]. rewrite to_numpy_length.
      split; [done|]. unfold Dict.keys. by rewrite <- list_fmap_compose. }
  destruct Hinit as (dat & cv & Hinit & Hlen & Hkeys).
  apply init_state in Hinit as (cats & nv & -> & Hnc & _). simpl.
  assert (Hcv : length cv = length (columns df)).
  { rewrite <- (length_fmap fst (columns df)), <- Hkeys.
    unfold Dict.keys. by rewrite length_fmap. }
  split_and!; try done.
  - unfold Dict.keys. by rewrite length_fmap, Hnc.
  - lia.
Qed.

Lemma df_head_all df : df_wf df → df_head (df_len df) df = df.
Proof.
  intros [_ Hlens]. destruct df as [n cols]. unfold df_head. simpl in *.
  rewrite Nat.min_id. f_equal.
  rewrite <- (list_fmap_id cols) at 2. apply list_fmap_ext.
  intros i [name s] Hi. rewrite Forall_lookup in Hlens.
  specialize (Hlens _ _ Hi). simpl in *. f_equal.
  destruct s as [v|v]; simpl in *; by rewrite firstn_all2 by lia.
Qed.

(** X18. Round trip of a dataframe: [as_df] on the dataset that
    [from_df] builds returns the columns of the frame, with their labels,
    their order and their values. *)
Theorem as_df_round_trip df kind keep ds :
  df_wf df → from_df rng df kind keep = Ok ds →
  as_df ds = Ok (frame_of df).
Proof.
  intros Hwf Hfrom.
  destruct (from_df_plain _ _ _ _ Hwf Hfrom)
    as (Hord & Hmaps & Hs & Hlen & _).
  rewrite (as_df_from_df df kind keep ds (df_len df) ds); try done.
  - rewrite df_head_all by done. by apply reordered_plain.
  - by rewrite Hs.
  - by rewrite Hs, <- Hlen, firstn_all.
Qed.

(** X19. After [set_N(N)] without a seed, or with seed 0, [as_df]
    returns the first [N] rows of the frame the dataset was built
    from. *)
Theorem as_df_head df kind keep ds0 n seed ds :
  df_wf df → from_df rng df kind keep = Ok ds0 →
  set_N rng ds0 n seed = Ok ds → seed = None ∨ seed = Some 0%Z →
  as_df ds = Ok (frame_of (df_head (Z.to_nat n) df)).
Proof.
  intros Hwf Hfrom (_ & _ & nv & smpl & -> & _ & Hs)%set_N_inv Hseed.
  assert (smpl = narrowed ds0 n) as ->.
  { destruct Hseed as [-> | ->]; [congruence|].
    rewrite decide_False in Hs by (intros Hn; by apply Hn). congruence. }
  destruct (from_df_plain _ _ _ _ Hwf Hfrom) as (Hord & Hmaps & _).
  rewrite (as_df_from_df df kind keep ds0 (Z.to_nat n)); try done.
  - by apply reordered_plain.
  - apply narrowed_ncols.
  - apply narrowed_rows.
Qed.

End Frames.

(** ** The labels of the marginals *)

(** The entry of a variable in [node_values], from the codes of its
    column. *)
Lemma consistent_value_counts self n :
  consistent self → n ∈ Dict.keys (node_values self) →
  ∃ cats j cj counts,
    categories self = Some cats
    ∧ column_of self n = Some j
    ∧ cats !! j = Some cj ∧ NoDup cj
    ∧ Dict.get (node_values self) n = Some counts
    ∧ let col := map (code_of self n) (rows (sample self)) in
      col ≠ []
      ∧ Dict.keys counts = sorted (take (S (max_list col)) cj)
      ∧ max_list col < length cj
      ∧ length counts = S (max_list col)
      ∧ ∀ v label, v ≤ max_list col → cj !! v = Some label →
          Dict.get counts label = Some (occ v col).
Proof.
  intros Hok Hn.
  destruct (consistent_entry _ _ Hok Hn)
    as (cats & j & o & counts & Hc & Hg & Hj & Ho & Hnv & He).
  pose proof Hok as (_ & Hnd & Hnc & Hrect & HN & HN1 & _ & Hcats).
  rewrite Hc in Hcats. destruct Hcats as (Hlen & Hndc & _).
  assert (Hjn : j < length (nodes self)) by by eapply lookup_lt_Some.
  unfold expected_counts in He.
  rewrite column_Ok in He by (done || lia). simpl in He.
  destruct (cats !! j) as [cj|] eqn:Ecj; simpl in He; [|done].
  assert (Hcol : column_of self n = Some j).
  { unfold column_of. rewrite Hg. apply tuple_index_find.
    by apply tuple_index_lookup. }
  assert (Hndj : NoDup cj).
  { rewrite Forall_forall in Hndc. apply Hndc.
    by eapply list_elem_of_lookup_2. }
  exists cats, j, cj, counts. split_and!; try done.
  intros col.
  assert (Hcol' : map (fun r => default 0 (r !! j)) (rows (sample self))
                  = col).
  { apply map_ext. intros r. unfold code_of. by rewrite Hcol. }
  rewrite Hcol' in He.
  assert (Hne : col ≠ []).
  { unfold col. intros Hnil%(f_equal length). rewrite length_map in Hnil.
    simpl in Hnil. lia. }
  pose proof (value_counts_inv cj col counts Hndj He) as (Hl & _ & _).
  apply value_counts_spec in He as (Hkeys & Hle & Hget); [|done].
  rewrite max_list_bincount in Hkeys, Hle, Hget, Hl by done.
  split_and!; try done.
  intros v label Hv. apply Hget. lia.
Qed.

Lemma occ_matching self n v :
  occ v (map (code_of self n) (rows (sample self)))
  = length (matching self [n] [v]).
Proof.
  unfold occ, matching, codes_of. simpl.
  induction (rows (sample self)) as [|r rs IH]; [done|]. simpl.
  rewrite !filter_cons.
  destruct (decide (code_of self n r = v)) as [Hv|Hv].
  - rewrite decide_True by by rewrite Hv. simpl. by rewrite IH.
  - rewrite decide_False by (intros [= ?]; done). done.
Qed.

(** X10. A single-variable [marginals] query with [values_reqd] returns
    one column of counts and [maxcol = 1]; [rowval] lists the labels of
    [node_values] in ascending label order, not in code order, and row [i]
    of the counts is the number of sample rows whose value is
    [rowval[i]]. *)
Theorem marginals_single_rows self node parents :
  consistent self → requested node parents = [node] →
  valid_request self [node] →
  ∃ counts rowval j cats,
    marginals self node parents true = Ok (counts, 1, Some rowval, None)
    ∧ column_of self node = Some j
    ∧ categories self ≫= (fun all => all !! j) = Some cats
    ∧ StronglySorted str_le rowval ∧ NoDup rowval
    ∧ (∀ label, label ∈ rowval
         ↔ ∃ v, v < domain_size self node ∧ cats !! v = Some label)
    ∧ length counts = length rowval
    ∧ ∀ i label v, rowval !! i = Some label → cats !! v = Some label →
        counts !! i = Some [Z.of_nat (length (matching self [node] [v]))].
Proof.
  intros Hok Hreq Hvalid.
  pose proof (valid_request_keys _ _ Hok Hvalid) as Hkeys.
  apply Forall_cons in Hkeys as [Hn _].
  destruct (consistent_value_counts _ _ Hok Hn)
    as (cats & j & cj & nv & Hc & Hj & Hcj & Hnd & Hg & Hne & Hk & Hmax
        & Hlen & Hget).
  set (col := map (code_of self node) (rows (sample self))) in *.
  assert (Hdom : domain_size self node = S (max_list col)).
  { unfold domain_size. by rewrite Hg. }
  exists (map (fun c => [Z.of_nat c]) (Dict.values nv)), (Dict.keys nv), j, cj.
  assert (Hndk : NoDup (Dict.keys nv)).
  { rewrite Hk, sorted_Permutation.
    eapply sublist_NoDup; [done | apply sublist_take]. }
  split_and!.
  - unfold marginals. rewrite Hreq.
    rewrite decide_False by by apply consistent_valid_request.
    rewrite decide_True by done.
    unfold Dict.item. by rewrite Hg.
  - done.
  - rewrite Hc. simpl. done.
  - rewrite Hk. apply sorted_StronglySorted.
  - done.
  - intros label. rewrite Hk, sorted_Permutation, Hdom. split.
    + intros (v & Hv)%list_elem_of_lookup.
      apply lookup_take_Some in Hv as [Hv Hlt]. eauto.
    + intros (v & Hv & Hl). apply list_elem_of_lookup. exists v.
      by rewrite lookup_take_lt.
  - unfold Dict.values, Dict.keys. by rewrite !length_map.
  - intros i label v Hi Hv.
    assert (Hvm : v ≤ max_list col).
    { assert (Hin : label ∈ take (S (max_list col)) cj).
      { rewrite <- sorted_Permutation, <- Hk. by eapply list_elem_of_lookup_2. }
      apply list_elem_of_lookup in Hin as [v' Hv'].
      apply lookup_take_Some in Hv' as [Hv' Hlt].
      assert (v' = v) by exact (NoDup_lookup cj v' v label Hnd Hv' Hv). lia. }
    specialize (Hget v label Hvm Hv).
    unfold Dict.keys in Hi. rewrite list_lookup_fmap in Hi.
    destruct (nv !! i) as [[k c]|] eqn:Hnvi; [|done].
    injection Hi as ->.
    assert (Hc' : Dict.get nv label = Some c).
    { apply DictFacts.get_NoDup; [done|]. by eapply list_elem_of_lookup_2. }
    assert (c = occ v col) as -> by congruence.
    unfold Dict.values. rewrite !list_lookup_fmap, Hnvi. simpl.
    unfold col. by rewrite occ_matching.
Qed.

Lemma unique_parent_combos self node ps :
  unique (map (drop 1)
            (unique (map (codes_of self (node :: ps)) (rows (sample self)))))
  = unique (map (codes_of self ps) (rows (sample self))).
Proof.
  apply (StronglySorted_unique row_lt); try apply unique_sorted.
  apply NoDup_Permutation; try apply unique_NoDup.
  intros x. rewrite !elem_of_unique, !list_elem_of_fmap. split.
  - intros (y & -> & Hy). rewrite elem_of_unique in Hy.
    apply list_elem_of_fmap in Hy as (r & -> & Hr). by exists r.
  - intros (r & -> & Hr). exists (codes_of self (node :: ps) r).
    split; [done|]. rewrite elem_of_unique. apply list_elem_of_fmap. eauto.
Qed.

Lemma consistent_name_of_column self n j :
  consistent self → n ∈ Dict.keys (node_values self) →
  column_of self n = Some j →
  ∃ o, nodes self !! j = Some o ∧ Dict.get (orig_to_ext self) o = Some n.
Proof.
  intros Hok Hn Hj.
  destruct (consistent_counts _ _ Hok Hn)
    as (cats & j' & o & cj & counts & _ & Hj' & Ho & Hoe & _).
  assert (j' = j) as -> by congruence. eauto.
Qed.

Lemma row_col_values_inv self n ps j0 js combos rc :
  consistent self → NoDup ps →
  Forall (fun p => p ∈ Dict.keys (node_values self)) (n :: ps) →
  Forall2 (fun n j => column_of self n = Some j ∧ j < length (nodes self))
          (n :: ps) (j0 :: js) →
  Forall (fun c : list nat => length c = length ps) combos →
  row_col_values self (j0 :: js) combos = Ok rc →
  categories self ≫= (fun all => all !! j0) = Some rc.1
  ∧ Forall2 (fun c d =>
       Dict.keys d = ps
       ∧ Forall2 (fun code (kv : string * string) =>
                    label_of self kv.1 code = Some kv.2) c d)
     combos rc.2.
Proof.
  intros Hok Hnd Hall HF Hlens.
  apply Forall_cons in Hall as [Hn Hps].
  apply Forall2_cons in HF as [[Hj0 Hj0n] HF].
  unfold row_col_values.
  intros (cats & Hc%or_raise_Ok & (j0' & [= <-] & (rowval & Hrow%or_raise_Ok
    & (colval & Hcv & [= <-])%bind_Ok)%bind_Ok)%bind_Ok)%bind_Ok.
  simpl. rewrite Hc. simpl. split; [done|].
  apply mapM_Ok in Hcv.
  pose proof (Forall2_length _ _ _ HF) as Hlen.
  apply Forall2_same_length_lookup. split; [by eapply Forall2_length|].
  intros i c d Hci Hdi.
  destruct (Forall2_lookup_l _ _ _ _ _ Hcv Hci) as (d' & Hd' & Hcd).
  assert (d' = d) as -> by congruence. clear Hd'.
  apply bind_Ok in Hcd as (items & Hitems%mapM_Ok & [= <-]).
  replace (length (j0 :: js) - 1) with (length js) in Hitems
    by (simpl; lia).
  assert (Hlc : length c = length ps).
  { rewrite Forall_forall in Hlens. apply Hlens.
    by eapply list_elem_of_lookup_2. }
  assert (Hli : length items = length ps).
  { apply Forall2_length in Hitems. rewrite length_seq in Hitems. lia. }
  assert (Hitem : ∀ k p code, ps !! k = Some p → c !! k = Some code →
            ∃ label, items !! k = Some (p, label)
                     ∧ label_of self p code = Some label).
  { intros k p code Hp Hcode.
    destruct (Forall2_lookup_l _ _ _ _ _ HF Hp) as (jr & Hjr & Hcol & _).
    assert (Hsk : seq 1 (length js) !! k = Some (S k)).
    { apply lookup_seq_lt. by eapply lookup_lt_Some. }
    destruct (Forall2_lookup_l _ _ _ _ _ Hitems Hsk) as (item & Hit & Hf).
    simpl in Hf. rewrite Hjr in Hf. simpl in Hf.
    assert (Hpk : p ∈ Dict.keys (node_values self)).
    { rewrite Forall_forall in Hps. apply Hps.
      by eapply list_elem_of_lookup_2. }
    destruct (consistent_name_of_column _ _ _ Hok Hpk Hcol)
      as (o & Ho & Hoe).
    rewrite Ho in Hf. simpl in Hf. unfold Dict.item in Hf.
    rewrite Hoe in Hf. simpl in Hf.
    apply bind_Ok in Hf as (cj & Hcj%or_raise_Ok & Hf).
    rewrite Nat.sub_0_r, Hcode in Hf. simpl in Hf.
    apply bind_Ok in Hf as (label & Hl%or_raise_Ok & [= <-]).
    exists label. split; [done|].
    unfold label_of. rewrite Hcol. simpl. rewrite Hc. simpl.
    rewrite Hcj. simpl. done. }
  assert (Hkeys : items.*1 = ps).
  { apply list_eq_same_length with (length ps); [done| |].
    { by rewrite length_fmap. }
    intros k x p Hk Hx Hp.
    destruct (lookup_lt_is_Some_2 c k) as [code Hcode]; [lia|].
    destruct (Hitem k p code Hp Hcode) as (label & Hit & _).
    rewrite list_lookup_fmap, Hit in Hx. by injection Hx as <-. }
  rewrite DictFacts.of_items_NoDup by (unfold Dict.keys; by rewrite Hkeys).
  split; [done|].
  apply Forall2_same_length_lookup. split; [lia|].
  intros k code kv Hcode Hkv.
  destruct (lookup_lt_is_Some_2 ps k) as [p Hp].
  { apply lookup_lt_Some in Hcode. lia. }
  destruct (Hitem k p code Hp Hcode) as (label & Hit & Hl).
  assert (kv = (p, label)) as -> by congruence. done.
Qed.

(** X11. A [marginals] query with parents and [values_reqd]: [rowval] is
    the whole tuple of categories of the node, in code order, so that it
    can be longer than the counts matrix has rows; [colval] has one
    dictionary per observed parent combination, in the order of the
    columns, that maps every parent, in the order requested, to the label
    of its code in that combination. *)
Theorem marginals_row_col_values self node ps parents :
  consistent self → parents !! node = Some ps → ps ≠ [] →
  valid_request self (node :: ps) →
  let p_combos := unique (map (codes_of self ps) (rows (sample self))) in
  ∃ counts maxcol rowval colval j,
    marginals self node parents true
    = Ok (counts, maxcol, Some rowval, Some colval)
    ∧ column_of self node = Some j
    ∧ categories self ≫= (fun all => all !! j) = Some rowval
    ∧ length counts ≤ length rowval
    ∧ Forall2 (fun c d =>
         Dict.keys d = ps
         ∧ Forall2 (fun code (kv : string * string) =>
                      label_of self kv.1 code = Some kv.2) c d)
       p_combos colval.
Proof.
  intros Hok Hps Hne Hvalid p_combos.
  pose proof (valid_request_keys _ _ Hok Hvalid) as Hkeys.
  destruct (marginals_multi self node ps parents true Hok Hps Hne Hvalid)
    as (rowval & colval & Hm & _).
  pose proof Hm as Hm'.
  unfold marginals, requested in Hm'. rewrite Hps in Hm'.
  rewrite decide_False in Hm' by by apply consistent_valid_request.
  rewrite decide_False in Hm' by (destruct ps; simpl; [done | lia]).
  destruct (consistent_columns_reqd _ _ Hok Hkeys) as (js & Hjs & HF).
  rewrite Hjs, bind_Ok_l in Hm'.
  apply bind_Ok in Hm' as (nc & _ & Hm').
  destruct js as [|j0 js]; [by inversion HF|].
  pose proof Hok as (_ & _ & Hncols & Hrect & _ & _ & _ & _).
  rewrite select_columns_Ok in Hm';
    [|done| rewrite Hncols; eapply Forall2_Forall_r; [apply HF|];
            apply Forall_forall; intros ? ? ? [? ?]; done].
  rewrite bind_Ok_l in Hm'. cbn [rows] in Hm'.
  assert (Hsel : map (pick (j0 :: js)) (rows (sample self))
                 = map (codes_of self (node :: ps)) (rows (sample self))).
  { apply map_ext. intros r. by eapply pick_codes_of. }
  rewrite Hsel in Hm'.
  apply bind_Ok in Hm' as (nv & Hnv%or_raise_Ok & Hm').
  unfold unique_counts in Hm'. cbn [fst snd] in Hm'.
  rewrite unique_parent_combos in Hm'. fold p_combos in Hm'.
  apply bind_Ok in Hm' as (counts & _ & Hm').
  apply bind_Ok in Hm' as (ps' & _ & Hm').
  apply bind_Ok in Hm' as (maxcol & _ & Hm').
  apply bind_Ok in Hm' as (rc & Hrc & [= Hcounts Hmaxcol Hrv Hcv]).
  subst rowval colval.
  apply row_col_values_inv with (n := node) (ps := ps) in Hrc
    as [Hrow Hcol]; try done.
  - eexists _, _, rc.1, rc.2, j0. split; [exact Hm|].
    apply Forall2_cons in HF as [[Hj0 _] _].
    split_and!; try done.
    apply Forall_cons in Hkeys as [Hn _].
    destruct (consistent_counts _ _ Hok Hn)
      as (cats & j & o & cj & cnt & Hc & Hj & _ & _ & Hcj & Hg & Hl1 & _
          & Hl2).
    assert (j = j0) as -> by congruence.
    rewrite Hc in Hrow. simpl in Hrow. rewrite Hcj in Hrow.
    injection Hrow as <-. rewrite Hg in Hnv. injection Hnv as <-.
    rewrite table_length. unfold domain_size. rewrite Hg. lia.
  - by destruct Hvalid as [_ [_ ?]%NoDup_cons].
  - apply Forall_forall. intros c Hc. unfold p_combos in Hc.
    rewrite elem_of_unique in Hc.
    apply list_elem_of_fmap in Hc as (r & -> & _).
    unfold codes_of. by rewrite length_map.
Qed.

(** ** Renaming *)

Lemma consistent_nodes_entries self :
  consistent self →
  ∃ cats, categories self = Some cats
    ∧ length (node_values self) = length (nodes self)
    ∧ ∀ j o, nodes self !! j = Some o →
        ∃ k counts, node_values self !! j = Some (k, counts)
          ∧ Dict.get (ext_to_orig self) k = Some o
          ∧ Dict.get (orig_to_ext self) o = Some k
          ∧ expected_counts cats (sample self) j = Ok counts.
Proof.
  intros (_ & _ & _ & _ & _ & _ & _ & Hc).
  destruct (categories self) as [cats|]; [|done].
  destruct Hc as (_ & _ & HF). exists cats. split; [done|].
  pose proof (Forall2_length _ _ _ HF) as Hlen.
  rewrite enumerate_length in Hlen. split; [done|].
  intros j o Ho.
  assert (He : enumerate (nodes self) !! j = Some (j, o)).
  { apply enumerate_lookup. eauto. }
  destruct (Forall2_lookup_r _ _ _ _ _ HF He)
    as ([k counts] & Hkv & H1 & H2 & H3).
  exists k, counts. done.
Qed.

(** X16. [randomise_names] keeps a categorical dataset consistent,
    provided the inherited generator assigns name maps that translate
    between the nodes and their new external names: [node_values] is
    re-keyed by the new names with the counts unchanged, so that the
    properties of [marginals] hold under the new names. *)
Theorem randomise_names_consistent (gen : t → option Z → result t)
    self seed s2 :
  consistent self → NoDup (Dict.keys (orig_to_ext self)) →
  assigns_names_only gen →
  randomise_names gen self seed = Ok s2 →
  name_maps_wf s2 →
  consistent s2.
Proof.
  intros Hok Hndo Hgen
    (s' & items & nv & nt & Hs' & Hitems & Hnv & Hnt & ->)%randomise_names_inv
    (Hwf1 & Hwf2 & Hwf3).
  simpl in Hwf1, Hwf2, Hwf3.
  destruct (Hgen _ _ _ Hs')
    as (Hdata & Hsample & Hnodes & Hcats & Horder & HN & Htypes & Hds & Hvals).
  rewrite Hnodes in Hwf1, Hwf2, Hwf3. rewrite Hvals in Hnv.
  rewrite DictFacts.of_items_NoDup in Hitems by done.
  pose proof (consistent_keys_NoDup _ Hok) as Hkeys.
  destruct (consistent_nodes_entries _ Hok) as (cats & Hc & Hlen & Hent).
  pose proof Hok as (Hd & Hndn & Hnc & Hrect & HNs & HN1 & _ & _).
  (* the renaming of the key of every node *)
  assert (Hmap : ∀ j o k counts e,
    nodes self !! j = Some o → node_values self !! j = Some (k, counts) →
    Dict.get (orig_to_ext self) o = Some k →
    Dict.get (orig_to_ext s') o = Some e →
    Dict.get (Dict.of_items items) k = Some e).
  { intros j o k counts e Ho Hkc Hok' Hoe.
    apply mapM_Ok in Hitems.
    assert (Hin : o ∈ Dict.keys (orig_to_ext s')).
    { apply DictFacts.get_is_Some. eauto. }
    apply get_of_items.
    - apply list_elem_of_lookup in Hin as [i Hi].
      destruct (Forall2_lookup_l _ _ _ _ _ Hitems Hi) as (it & Hit & Hf).
      unfold Dict.item in Hf. rewrite Hok', Hoe in Hf. simpl in Hf.
      injection Hf as <-. by eapply list_elem_of_lookup_2.
    - intros v' Hv'. apply list_elem_of_lookup in Hv' as [i Hi].
      destruct (Forall2_lookup_r _ _ _ _ _ Hitems Hi) as (o' & Ho' & Hf).
      apply bind_Ok in Hf as (k' & Hk'%or_raise_Ok & Hf).
      apply bind_Ok in Hf as (e' & He'%or_raise_Ok & [= -> ->]).
      assert (Hon : o' ∈ nodes self).
      { rewrite Forall_forall in Hwf1. apply Hwf1.
        by eapply list_elem_of_lookup_2. }
      apply list_elem_of_lookup in Hon as [j' Hj'].
      destruct (Hent j' o' Hj') as (k2 & c2 & Hkc2 & _ & Hok2 & _).
      assert (k2 = k) as -> by congruence.
      assert (j' = j).
      { eapply (NoDup_lookup (Dict.keys (node_values self))); [done| |].
        - unfold Dict.keys. by rewrite list_lookup_fmap, Hkc2.
        - unfold Dict.keys. by rewrite list_lookup_fmap, Hkc. }
      subst j'. assert (o' = o) as -> by congruence. congruence. }
  (* the new node_values *)
  assert (Hnv' : ∀ j o, nodes self !! j = Some o →
    ∃ e counts, nv !! j = Some (e, counts)
      ∧ Dict.get (orig_to_ext s') o = Some e
      ∧ Dict.get (ext_to_orig s') e = Some o
      ∧ expected_counts cats (sample self) j = Ok counts).
  { intros j o Ho.
    destruct (Hent j o Ho) as (k & counts & Hkc & _ & Hok' & He).
    rewrite Forall_forall in Hwf2.
    destruct (Hwf2 o) as (e & Hoe & Heo); [by eapply list_elem_of_lookup_2|].
    apply mapM_Ok in Hnv.
    destruct (Forall2_lookup_l _ _ _ _ _ Hnv Hkc) as (kv' & Hkv' & Hf).
    simpl in Hf. unfold Dict.item in Hf.
    rewrite (Hmap j o k counts e) in Hf by done. simpl in Hf.
    injection Hf as <-. exists e, counts. done. }
  assert (Hlen' : length nv = length (nodes self)).
  { apply mapM_length in Hnv. lia. }
  assert (Hndnv : NoDup (Dict.keys nv)).
  { apply NoDup_alt. intros i1 i2 e H1 H2.
    unfold Dict.keys in H1, H2. rewrite list_lookup_fmap in H1, H2.
    destruct (nv !! i1) as [[e1 c1]|] eqn:E1; [|done].
    destruct (nv !! i2) as [[e2 c2]|] eqn:E2; [|done].
    simpl in *. injection H1 as ->. injection H2 as ->.
    destruct (lookup_lt_is_Some_2 (nodes self) i1) as [o1 Ho1].
    { apply lookup_lt_Some in E1. lia. }
    destruct (lookup_lt_is_Some_2 (nodes self) i2) as [o2 Ho2].
    { apply lookup_lt_Some in E2. lia. }
    destruct (Hnv' i1 o1 Ho1) as (e1 & c1' & E1' & _ & Heo1 & _).
    destruct (Hnv' i2 o2 Ho2) as (e2 & c2' & E2' & _ & Heo2 & _).
    assert (e1 = e) by congruence. assert (e2 = e) by congruence. subst.
    assert (o1 = o2) by congruence. subst.
    by eapply NoDup_lookup. }
  unfold consistent. simpl.
  rewrite Hds, Hnodes, Hsample, HN, Hcats, Hc.
  rewrite DictFacts.of_items_NoDup by done.
  destruct Hok as (_ & _ & _ & _ & _ & _ & _ & Hcc). rewrite Hc in Hcc.
  destruct Hcc as (Hlc & Hndc & _).
  split_and!; try done.
  - unfold variables. simpl. apply Forall_forall. intros e He.
    rewrite Forall_forall in Hwf3. destruct (Hwf3 e He) as (o & Hon & Hoe).
    apply list_elem_of_lookup in Hon as [j Hj].
    destruct (Hnv' j o Hj) as (e' & counts & Hkv & Hoe' & _).
    assert (e' = e) as -> by congruence.
    apply list_elem_of_fmap. exists (e, counts). split; [done|].
    by eapply list_elem_of_lookup_2.
  - apply Forall2_same_length_lookup. split; [by rewrite enumerate_length|].
    intros j [e counts] [j' o] Hkv (o' & [= -> ->] & Ho)%enumerate_lookup.
    simpl. destruct (Hnv' j o' Ho) as (e' & counts' & Hkv' & Hoe & Heo & He).
    assert (e' = e ∧ counts' = counts) as [-> ->] by (split; congruence).
    done.
Qed.

(** ** Resampling *)

Section Resampling.
Variable rng : Z → nat → list nat.

(** X1. After a successful [set_N(N, seed)] on a constructed categorical
    dataset, [node_values] has one entry per node, keyed by the node names
    in node order.  The entry of the node of column [j] lists, in
    ascending order and without repetition, the labels of the codes from
    0 up to the highest code among the first [N] rows of that column, each
    with the number of those rows that hold the code: a label below the
    highest code is listed with count 0 when no row holds it, and the
    labels of higher codes are absent. *)
Theorem set_N_node_values self n seed self' j name cats :
  constructed self → set_N rng self n seed = Ok self' →
  nodes self !! j = Some name →
  categories self ≫= (fun all => all !! j) = Some cats →
  let col := map (fun r => default 0 (r !! j))
                 (take (Z.to_nat n) (rows (data self))) in
  Dict.keys (node_values self') = nodes self
  ∧ ∃ counts,
      Dict.get (node_values self') name = Some counts
      ∧ StronglySorted str_le (Dict.keys counts)
      ∧ NoDup (Dict.keys counts)
      ∧ (∀ label, label ∈ Dict.keys counts
           ↔ ∃ v, v ≤ max_list col ∧ cats !! v = Some label)
      ∧ (∀ v label, v ≤ max_list col → cats !! v = Some label →
           Dict.get counts label = Some (occ v col)).
Proof.
  intros (Hds & Hnd & Hnc & _ & _ & _ & all & Hall & Hlen & Hndc) Hset Hname
    Hcats col.
  rewrite Hall in Hcats. simpl in Hcats.
  assert (Hndj : NoDup cats).
  { rewrite Forall_forall in Hndc. apply Hndc.
    by eapply list_elem_of_lookup_2. }
  destruct (set_N_node_values_gen rng self n seed self' all
              Hds Hnd Hnc Hall Hset) as [Hkeys Hcols].
  split; [done|].
  destruct (Hcols j name cats Hname Hcats Hndj)
    as (counts & Hg & Hk & Hmax & Hget).
  fold col in Hk, Hmax, Hget.
  exists counts. split_and!; try done.
  - rewrite Hk. apply sorted_StronglySorted.
  - rewrite Hk, sorted_Permutation.
    eapply sublist_NoDup; [done | apply sublist_take].
  - intros label. rewrite Hk, sorted_Permutation. split.
    + intros (v & Hv)%list_elem_of_lookup.
      apply lookup_take_Some in Hv as [Hv Hlt]. exists v. split; [lia|done].
    + intros (v & Hv & Hl). apply list_elem_of_lookup. exists v.
      rewrite lookup_take_lt by lia. done.
Qed.

(** X17. [set_N] keys [node_values] by the original node names.  After
    [randomise_names], a later [set_N] replaces the external keys by the
    original names, and [marginals] then rejects a request for a name that
    is not an original node name. *)
Theorem set_N_after_renaming (gen : t → option Z → result t)
    self seed s1 n seed' s2 node parents values_reqd :
  consistent self → ncols (data self) = length (nodes self) →
  assigns_names_only gen →
  randomise_names gen self seed = Ok s1 →
  set_N rng s1 n seed' = Ok s2 →
  Dict.keys (node_values s2) = nodes self
  ∧ (node ∉ nodes self →
     marginals s2 node parents values_reqd
     = Raise (ValueError "NumPy.marginals() bad arg value")).
Proof.
  intros Hok Hnc Hgen
    (s' & items & nv & nt & Hs' & _ & _ & _ & ->)%randomise_names_inv Hset.
  destruct (Hgen _ _ _ Hs')
    as (Hdata & Hsample & Hnodes & Hcats & Horder & HN & Htypes & Hds & Hvals).
  pose proof Hok as (Hd & Hnd & _ & _ & _ & _ & _ & Hc).
  destruct (categories self) as [cats|] eqn:Ecats; [|done].
  destruct (set_N_node_values_gen rng
              (with_names s' (Dict.of_items nv) (Dict.of_items nt))
              n seed' s2 cats) as [Hkeys _]; simpl; try congruence.
  simpl in Hkeys. rewrite Hnodes in Hkeys. split; [done|].
  intros Hnode. unfold marginals. rewrite decide_True; [done|].
  apply bad_request_iff. intros [Hall _].
  destruct (requested_nonempty node parents) as [ns Hns].
  rewrite Hns in Hall. apply Forall_cons in Hall as [Hin _].
  by rewrite Hkeys in Hin.
Qed.

End Resampling.

(** ** The constructor and [from_df] *)

Section Acceptance.
Variable rng : Z → nat → list nat.

Lemma init_continuous_Ok dat cv :
  Forall (fun v => v = None) (Dict.values cv) →
  2 ≤ length (rows dat) → 2 ≤ ncols dat → ncols dat = length cv →
  arr_dtype dat = float32 →
  ∃ ds, __init__ rng dat continuous cv = Ok ds.
Proof.
  intros Hty Hr Hc Hl Hdt. unfold __init__.
  rewrite decide_False by (intros [[? _]|[_ ?]]; done).
  rewrite decide_False.
  2:{ unfold shape. simpl. intros [?|[?|[?|[[? _]|[_ ?]]]]]; try lia; done. }
  simpl. unfold set_N. rewrite decide_False.
  2:{ unfold shape. simpl. intros [?|[?|Hs]]; [lia|lia|done]. }
  simpl. eauto.
Qed.

(** X6. The constructor on continuous data: [TypeError] when some
    entry of [col_values] is not [None]; otherwise [ValueError] on fewer
    than 2 rows or 2 columns, a number of columns that differs from the
    number of entries, or a dtype other than float32; otherwise it
    succeeds, the sample is the whole array, there are no categories and
    [node_values] is empty. *)
Theorem init_continuous_cases dat cv :
  (¬ Forall (fun v => v = None) (Dict.values cv) →
   __init__ rng dat continuous cv = Raise (TypeError "NumPy() bad arg type"))
  ∧ (Forall (fun v => v = None) (Dict.values cv) →
     length (rows dat) < 2 ∨ ncols dat < 2 ∨ ncols dat ≠ length cv
     ∨ arr_dtype dat ≠ float32 →
     __init__ rng dat continuous cv
     = Raise (ValueError "NumPy bad arg values"))
  ∧ (Forall (fun v => v = None) (Dict.values cv) →
     2 ≤ length (rows dat) → 2 ≤ ncols dat → ncols dat = length cv →
     arr_dtype dat = float32 →
     ∃ ds, __init__ rng dat continuous cv = Ok ds
           ∧ data ds = dat ∧ sample ds = dat
           ∧ categories ds = None ∧ node_values ds = []).
Proof.
  split_and!.
  - intros Hty. unfold __init__. rewrite decide_True; [done|]. by right.
  - intros Hty Hbad. unfold __init__.
    rewrite decide_False by (intros [[? _]|[_ ?]]; done).
    rewrite decide_True; [done|]. unfold shape. simpl. tauto.
  - intros Hty Hr Hc Hl Hdt.
    destruct (init_continuous_Ok dat cv) as [ds Hds]; try done.
    exists ds. split; [done|].
    pose proof (init_continuous _ _ _ _ Hds) as Hnv.
    apply init_fields in Hds as (? & ? & _ & _ & _ & _ & _ & ?). done.
Qed.

Lemma dtypes_all_float32 (cols : list (string * Series)) :
  cols ≠ [] → Forall (fun col => ∃ vals, col.2 = Float32Series vals) cols →
  (list_to_set (map (fun c => series_dtype c.2) cols) : gset string)
  = {["float32"%string]}.
Proof.
  intros Hne Hall. apply set_eq. intros x.
  rewrite elem_of_list_to_set, elem_of_singleton, list_elem_of_fmap. split.
  - intros (c & -> & Hc). rewrite Forall_forall in Hall.
    by destruct (Hall c Hc) as (vals & ->).
  - intros ->. destruct cols as [|c cols]; [done|]. exists c.
    apply Forall_cons in Hall as [(vals & ->) _]. split; [done|left].
Qed.

(** X7. On a dataframe with distinct column labels, whose category
    columns hold strings and in which no cell is missing, [from_df]
    succeeds exactly when the frame has at least 2 rows and at least 2
    columns and, for a categorical dataset, every column is of dtype
    category with at most [MAX_CATEGORY] distinct values, for a continuous
    dataset, every column is of dtype float32. *)
Theorem from_df_accepts df kind keep :
  df_wf df →
  (∃ ds, from_df rng df kind keep = Ok ds)
  ↔ 2 ≤ df_len df ∧ 2 ≤ length (columns df)
    ∧ Forall (fun c =>
        match kind with
        | categorical =>
            ∃ vals, c.2 = CategorySeries vals
                    ∧ size (list_to_set vals : gset string) ≤ MAX_CATEGORY
        | continuous => ∃ vals, c.2 = Float32Series vals
        end) (columns df).
Proof.
  intros Hwf. destruct kind.
  { by apply from_df_categorical_accepts. }
  pose proof Hwf as [Hnd Hlens]. split.
  - intros [ds Hds].
    apply from_df_continuous_inv in Hds as [Hall Hinit]; [|done].
    apply init_inv in Hinit as (Hr & Hc & _).
    rewrite to_numpy_length in Hr. unfold to_numpy in Hc. simpl in Hc.
    rewrite length_map in Hc. done.
  - intros (Hr & Hc & Hall).
    unfold from_df. rewrite decide_False.
    2:{ intros [?|[?|[[? _]|[_ Hd]]]]; try lia; [done|]. apply Hd.
        apply dtypes_all_float32; [|done].
        intros Hnil. rewrite Hnil in Hc. simpl in Hc. lia. }
    rewrite (mapM_Ok_map _ (fun c => series_cells c.2)).
    2:{ intros c Hc'. rewrite Forall_forall in Hall.
        by destruct (Hall c Hc') as (vals & ->). }
    rewrite bind_Ok_l. apply init_continuous_Ok.
    + rewrite DictFacts.of_items_NoDup
        by (unfold Dict.keys; by rewrite <- list_fmap_compose).
      unfold Dict.values. rewrite <- list_fmap_compose.
      by apply Forall_fmap, Forall_forall.
    + by rewrite to_numpy_length.
    + unfold to_numpy. simpl. by rewrite length_map.
    + unfold to_numpy. simpl.
      rewrite DictFacts.of_items_NoDup
        by (unfold Dict.keys; by rewrite <- list_fmap_compose).
      by rewrite !length_map.
    + done.
Qed.

(** X8. The dataset that [from_df] returns: the nodes are the column
    labels in column order, the sample is the whole data with [N] the
    number of rows of the frame, the processing order is the column order,
    every node is known under its own name, and [node_types] has one entry
    per node. *)
Theorem from_df_initial_state df kind keep ds :
  df_wf df → from_df rng df kind keep = Ok ds →
  nodes ds = (columns df).*1
  ∧ N ds = Z.of_nat (df_len df)
  ∧ sample ds = data ds
  ∧ length (rows (data ds)) = df_len df
  ∧ ncols (data ds) = length (columns df)
  ∧ order ds = seq 0 (length (columns df))
  ∧ variables ds = (columns df).*1
  ∧ Forall (fun n => Dict.get (ext_to_orig ds) n = Some n
                     ∧ Dict.get (orig_to_ext ds) n = Some n) (nodes ds)
  ∧ dstype ds = kind
  ∧ Dict.keys (node_types ds) = nodes ds.
Proof.
  intros Hwf Hfrom. pose proof Hwf as [Hnd Hlens].
  assert (Hinit : ∃ dat cv,
    __init__ rng dat kind cv = Ok ds ∧ Dict.keys cv = (columns df).*1
    ∧ length (rows dat) = df_len df).
  { destruct kind.
    - apply from_df_categorical_inv in Hfrom as [_ Hinit]; [|done].
      eexists _, _. split; [exact Hinit|]. split.
      + unfold Dict.keys. by rewrite <- list_fmap_compose.
      + by rewrite to_numpy_length.
    - apply from_df_continuous_inv in Hfrom as [_ Hinit]; [|done].
      eexists _, _. split; [exact Hinit|]. split.
      + unfold Dict.keys. by rewrite <- list_fmap_compose.
      + by rewrite to_numpy_length. }
  destruct Hinit as (dat & cv & Hinit & Hkeys & Hlen).
  apply init_state in Hinit as (cats & nv & -> & Hnc & _).
  rewrite Hkeys in *.
  cbn [nodes N sample data order ext_to_orig orig_to_ext dstype node_types].
  assert (Hid : Dict.of_items (map (fun n : string => (n, n)) (columns df).*1)
                = map (fun n => (n, n)) (columns df).*1).
  { apply DictFacts.of_items_NoDup. unfold Dict.keys.
    by rewrite <- list_fmap_compose, list_fmap_id. }
  unfold variables. cbn [ext_to_orig]. rewrite Hid.
  assert (Hcv : length cv = length (columns df)).
  { rewrite <- (length_fmap fst (columns df)), <- Hkeys.
    unfold Dict.keys. by rewrite length_fmap. }
  split_and!; try done.
  - by rewrite Hlen.
  - lia.
  - by rewrite length_fmap.
  - unfold Dict.keys. by rewrite <- list_fmap_compose, list_fmap_id.
  - apply Forall_forall. intros n Hn. by rewrite identity_map_get.
  - rewrite DictFacts.of_items_NoDup.
    + unfold Dict.keys. by rewrite <- list_fmap_compose, list_fmap_id.
    + unfold Dict.keys. by rewrite <- list_fmap_compose, list_fmap_id.
Qed.

End Acceptance.

(** ** Dataframes under external names *)

Lemma name_maps_injective s j1 j2 o1 o2 e :
  NoDup (nodes s) → name_maps_wf s →
  nodes s !! j1 = Some o1 → nodes s !! j2 = Some o2 →
  Dict.get (orig_to_ext s) o1 = Some e →
  Dict.get (orig_to_ext s) o2 = Some e → j1 = j2.
Proof.
  intros Hnd (_ & Hwf & _) H1 H2 He1 He2. rewrite Forall_forall in Hwf.
  destruct (Hwf o1) as (e1 & He1' & Ho1); [by eapply list_elem_of_lookup_2|].
  destruct (Hwf o2) as (e2 & He2' & Ho2); [by eapply list_elem_of_lookup_2|].
  assert (e1 = e) by congruence. assert (e2 = e) by congruence. subst.
  assert (o1 = o2) by congruence. subst. by eapply NoDup_lookup.
Qed.

Lemma reordered_renamed s df :
  (columns df).*1 = nodes s → NoDup (nodes s) →
  order s = seq 0 (ncols (data s)) → ncols (data s) = length (nodes s) →
  name_maps_wf s →
  ¬ same_dict (orig_to_ext s) (ext_to_orig s) →
  reordered s df = Ok (frame_of (df_rename df (orig_to_ext s))).
Proof.
  intros Hcols Hnd Hord Hnc Hwf Hdiff. unfold reordered.
  rewrite decide_True by by right.
  pose proof Hwf as (_ & Hwf2 & _). rewrite Forall_forall in Hwf2.
  assert (Hlabels :
    mapM (fun j => n ← nodes s !! j ?! IndexError;
                   Dict.item (orig_to_ext s) n) (order s)
    = Ok (columns (df_rename df (orig_to_ext s))).*1).
  { apply mapM_Ok. rewrite Hord, Hnc.
    apply Forall2_same_length_lookup. split.
    { rewrite length_seq. unfold df_rename. simpl.
      rewrite !length_fmap. rewrite <- Hcols. by rewrite length_fmap. }
    intros i j e Hj He. apply lookup_seq in Hj as [-> Hi]. simpl in *.
    destruct (lookup_lt_is_Some_2 (nodes s) i Hi) as [o Ho].
    rewrite Ho. simpl.
    destruct (Hwf2 o) as (e' & He' & _); [by eapply list_elem_of_lookup_2|].
    unfold Dict.item. rewrite He'. simpl. f_equal.
    rewrite <- Hcols in Ho. rewrite list_lookup_fmap in Ho.
    destruct (columns df !! i) as [[name ser]|] eqn:Hci; [|done].
    injection Ho as ->.
    rewrite !list_lookup_fmap, Hci in He. simpl in He.
    rewrite He' in He. simpl in He. congruence. }
  rewrite Hlabels, bind_Ok_l.
  assert (Hndl : NoDup (columns (df_rename df (orig_to_ext s))).*1).
  { apply NoDup_alt. intros i1 i2 e H1 H2.
    unfold df_rename in H1, H2. simpl in H1, H2.
    rewrite !list_lookup_fmap in H1, H2.
    destruct (columns df !! i1) as [[n1 s1]|] eqn:E1; [|done].
    destruct (columns df !! i2) as [[n2 s2]|] eqn:E2; [|done].
    simpl in *.
    assert (Ho1 : nodes s !! i1 = Some n1).
    { rewrite <- Hcols. by rewrite list_lookup_fmap, E1. }
    assert (Ho2 : nodes s !! i2 = Some n2).
    { rewrite <- Hcols. by rewrite list_lookup_fmap, E2. }
    destruct (Hwf2 n1) as (e1 & He1 & _); [by eapply list_elem_of_lookup_2|].
    destruct (Hwf2 n2) as (e2 & He2 & _); [by eapply list_elem_of_lookup_2|].
    rewrite He1 in H1. rewrite He2 in H2. simpl in *.
    eapply (name_maps_injective s i1 i2 n1 n2 e); try done; congruence. }
  unfold df_reindex. rewrite decide_False by (intros Hn; by apply Hn).
  unfold frame_of. do 2 f_equal.
  rewrite <- list_fmap_compose. apply list_fmap_ext.
  intros i [l ser] Hi. simpl.
  rewrite (DictFacts.get_NoDup _ l ser); [done|done|].
  by eapply list_elem_of_lookup_2.
Qed.

Section RenamedFrames.
Variable rng : Z → nat → list nat.

(** X20. After [randomise_names], [as_df] returns the columns of the
    original frame under their external names, in the original order.
    The columns keep their original labels when [orig_to_ext] and
    [ext_to_orig] are equal as dictionaries, which [as_df] takes to mean
    that no renaming happened. *)
Theorem as_df_renamed (gen : t → option Z → result t)
    df kind keep ds0 seed ds :
  df_wf df → from_df rng df kind keep = Ok ds0 →
  assigns_names_only gen →
  randomise_names gen ds0 seed = Ok ds →
  name_maps_wf ds →
  as_df ds
  = Ok (frame_of
          (if decide (same_dict (orig_to_ext ds) (ext_to_orig ds))
           then df else df_rename df (orig_to_ext ds))).
Proof.
  intros Hwf Hfrom Hgen Hrand Hmaps.
  pose proof Hrand
    as (s' & items & nv & nt & Hs' & _ & _ & _ & Hds)%randomise_names_inv.
  destruct (Hgen _ _ _ Hs')
    as (Hdata & Hsample & Hnodes & Hcats & Horder & HN & Htypes & Hkind
        & Hvals).
  destruct (from_df_plain _ _ _ _ _ Hwf Hfrom)
    as (Hord & _ & Hs & Hlen & Hn0 & Hnc).
  assert (Hf : nodes ds = nodes ds0 ∧ categories ds = categories ds0
               ∧ dstype ds = dstype ds0 ∧ sample ds = data ds0
               ∧ data ds = data ds0 ∧ order ds = order ds0).
  { subst ds. simpl. rewrite Hnodes, Hcats, Hkind, Hsample, Hdata, Horder.
    by rewrite Hs. }
  destruct Hf as (Hn & Hc & Hk & Hsm & Hd & Ho).
  rewrite (as_df_from_df rng df kind keep ds0 (df_len df) ds); try done.
  - rewrite df_head_all by done. case_decide as Hsame.
    + apply reordered_plain; [|done]. by rewrite Ho, Hd.
    + apply reordered_renamed; try done.
      * by rewrite Hn, Hn0.
      * rewrite Hn, Hn0. by destruct Hwf.
      * by rewrite Ho, Hd.
      * by rewrite Hd, Hn, Hn0, Hnc, length_fmap.
  - by rewrite Hsm.
  - by rewrite Hsm, <- Hlen, firstn_all.
Qed.

End RenamedFrames.

(** ** The further properties at the small datasets *)

Lemma example_df_wf : df_wf example_df.
Proof. by_computation. Qed.

Lemma example_constructed : constructed example_ds.
Proof.
  apply (from_df_consistent reversed example_df false);
    [exact example_df_wf | exact example_from_df].
Qed.

Lemma example_init :
  __init__ reversed example_data categorical example_col_values
  = Ok example_ds.
Proof. by vm_compute. Qed.

Lemma example_continuous_init :
  __init__ reversed example_floats continuous example_float_names
  = Ok example_continuous.
Proof. by vm_compute. Qed.

Lemma example_renamed_maps : name_maps_wf example_renamed.
Proof.
  unfold name_maps_wf. simpl. split_and!.
  - by_computation.
  - apply Forall_cons; split; [exists "XA"%string; split; by_computation|].
    apply Forall_cons; split; [exists "XB"%string; split; by_computation|].
    apply Forall_cons; split; [exists "XC"%string; split; by_computation|].
    by apply Forall_nil.
  - apply Forall_cons; split; [exists "A"%string; split; by_computation|].
    apply Forall_cons; split; [exists "B"%string; split; by_computation|].
    apply Forall_cons; split; [exists "C"%string; split; by_computation|].
    by apply Forall_nil.
Qed.

Lemma example_ds_renamed_maps : name_maps_wf example_ds_renamed.
Proof. exact example_renamed_maps. Qed.

Lemma set_N_node_values_witness :
  constructed example_ds
  ∧ set_N reversed example_ds 3 (Some 4%Z) = Ok example_three
  ∧ Dict.keys (node_values example_three) = nodes example_ds
  ∧ ∃ counts,
      Dict.get (node_values example_three) "A"%string = Some counts
      ∧ StronglySorted str_le (Dict.keys counts)
      ∧ NoDup (Dict.keys counts)
      ∧ (∀ label, label ∈ Dict.keys counts
           ↔ ∃ v, v ≤ 1 ∧ ["yes"; "no"]%string !! v = Some label)
      ∧ (∀ v label, v ≤ 1 → ["yes"; "no"]%string !! v = Some label →
           Dict.get counts label = Some (occ v [0; 1; 0])).
Proof.
  assert (H1 : constructed example_ds) by exact example_constructed.
  assert (H2 : set_N reversed example_ds 3 (Some 4%Z) = Ok example_three)
    by (by vm_compute).
  assert (H3 : nodes example_ds !! 0 = Some "A"%string) by done.
  assert (H4 : categories example_ds ≫= (fun all => all !! 0)
               = Some ["yes"; "no"]%string) by done.
  split; [done|]. split; [done|].
  exact (set_N_node_values reversed example_ds 3 (Some 4%Z) example_three
           0 "A"%string ["yes"; "no"]%string H1 H2 H3 H4).
Defined.

Lemma set_N_forgets_sampling_witness :
  resample reversed example_ds [(1%Z, None)] = Ok example_one
  ∧ set_N reversed example_one 3 (Some 4%Z)
    = set_N reversed example_ds 3 (Some 4%Z).
Proof.
  assert (H1 : resample reversed example_ds [(1%Z, None)] = Ok example_one)
    by (by vm_compute).
  split; [done|].
  exact (set_N_forgets_sampling reversed example_ds [(1%Z, None)]
           example_one 3 (Some 4%Z) H1).
Defined.

Lemma set_N_succeeds_iff_witness :
  rectangular example_data
  ∧ __init__ reversed example_data categorical example_col_values
    = Ok example_ds
  ∧ resample reversed example_ds [(1%Z, None)] = Ok example_one
  ∧ (if decide ((1 ≤ 3 ≤ Z.of_nat (length (rows example_data)))%Z
                ∧ ¬ seed_out_of_range (Some 4%Z))
     then ∃ ds', set_N reversed example_one 3 (Some 4%Z) = Ok ds'
     else set_N reversed example_one 3 (Some 4%Z)
          = Raise (ValueError "Pandas.set_N() bad arg value"))
  ∧ (if decide ((1 ≤ 5 ≤ Z.of_nat (length (rows example_data)))%Z
                ∧ ¬ seed_out_of_range None)
     then ∃ ds', set_N reversed example_one 5 None = Ok ds'
     else set_N reversed example_one 5 None
          = Raise (ValueError "Pandas.set_N() bad arg value")).
Proof.
  assert (H1 : rectangular example_data) by by_computation.
  assert (H2 : __init__ reversed example_data categorical example_col_values
               = Ok example_ds) by exact example_init.
  assert (H3 : resample reversed example_ds [(1%Z, None)] = Ok example_one)
    by (by vm_compute).
  split; [done|]. split; [done|]. split; [done|]. split.
  - exact (set_N_succeeds_iff reversed example_data categorical
             example_col_values example_ds [(1%Z, None)] example_one
             3 (Some 4%Z) H1 reversed_permutation H2 H3).
  - exact (set_N_succeeds_iff reversed example_data categorical
             example_col_values example_ds [(1%Z, None)] example_one
             5 None H1 reversed_permutation H2 H3).
Defined.

Lemma marginals_row_order_witness :
  rectangular (data example_ds)
  ∧ set_N reversed example_ds 3 None = Ok example_first_three
  ∧ set_N reversed example_ds 3 (Some 4%Z) = Ok example_three
  ∧ N example_three = N example_first_three
  ∧ node_values example_three = node_values example_first_three
  ∧ marginals example_three "A" example_parents true
    = marginals example_first_three "A" example_parents true.
Proof.
  assert (H1 : rectangular (data example_ds)) by by_computation.
  assert (H2 : set_N reversed example_ds 3 None = Ok example_first_three)
    by (by vm_compute).
  assert (H3 : set_N reversed example_ds 3 (Some 4%Z) = Ok example_three)
    by (by vm_compute).
  split; [done|]. split; [done|]. split; [done|].
  exact (marginals_row_order reversed example_ds 3 (Some 4%Z)
           example_first_three example_three "A" example_parents true
           H1 reversed_permutation H2 H3).
Defined.

Lemma init_categorical_cases_witness :
  NoDup (Dict.keys example_col_values) ∧ rectangular example_data
  ∧ (¬ Forall is_Some (Dict.values example_col_values) →
     __init__ reversed example_data categorical example_col_values
     = Raise (TypeError "NumPy() bad arg type"))
  ∧ (Forall is_Some (Dict.values example_col_values) →
     length (rows example_data) < 2 ∨ ncols example_data < 2
     ∨ ncols example_data ≠ length example_col_values
     ∨ arr_dtype example_data ≠ uint8 →
     __init__ reversed example_data categorical example_col_values
     = Raise (ValueError "NumPy bad arg values"))
  ∧ (Forall is_Some (Dict.values example_col_values) →
     2 ≤ length (rows example_data) → 2 ≤ ncols example_data →
     ncols example_data = length example_col_values →
     arr_dtype example_data = uint8 →
     if decide (codes_labelled example_data example_col_values)
     then ∃ ds, __init__ reversed example_data categorical
                  example_col_values = Ok ds
     else __init__ reversed example_data categorical example_col_values
          = Raise IndexError).
Proof.
  assert (H1 : NoDup (Dict.keys example_col_values)) by by_computation.
  assert (H2 : rectangular example_data) by by_computation.
  split; [done|]. split; [done|].
  exact (init_categorical_cases reversed example_data example_col_values
           H1 H2).
Defined.

Lemma from_df_accepts_witness :
  df_wf example_df
  ∧ ((∃ ds, from_df reversed example_df categorical false = Ok ds)
     ↔ 2 ≤ df_len example_df ∧ 2 ≤ length (columns example_df)
       ∧ Forall (fun c =>
           ∃ vals, c.2 = CategorySeries vals
                   ∧ size (list_to_set vals : gset string) ≤ MAX_CATEGORY)
         (columns example_df)).
Proof.
  assert (H1 : df_wf example_df) by exact example_df_wf.
  split; [done|].
  exact (from_df_accepts reversed example_df categorical false H1).
Defined.

Lemma from_df_initial_state_witness :
  df_wf example_df
  ∧ from_df reversed example_df categorical false = Ok example_ds
  ∧ nodes example_ds = (columns example_df).*1
  ∧ N example_ds = Z.of_nat (df_len example_df)
  ∧ sample example_ds = data example_ds
  ∧ length (rows (data example_ds)) = df_len example_df
  ∧ ncols (data example_ds) = length (columns example_df)
  ∧ order example_ds = seq 0 (length (columns example_df))
  ∧ variables example_ds = (columns example_df).*1
  ∧ Forall (fun n => Dict.get (ext_to_orig example_ds) n = Some n
                     ∧ Dict.get (orig_to_ext example_ds) n = Some n)
           (nodes example_ds)
  ∧ dstype example_ds = categorical
  ∧ Dict.keys (node_types example_ds) = nodes example_ds.
Proof.
  assert (H1 : df_wf example_df) by exact example_df_wf.
  assert (H2 : from_df reversed example_df categorical false = Ok example_ds)
    by exact example_from_df.
  split; [done|]. split; [done|].
  exact (from_df_initial_state reversed example_df categorical false
           example_ds H1 H2).
Defined.

Lemma from_df_continuous_values_witness :
  df_wf example_float_df
  ∧ from_df reversed example_float_df continuous false
    = Ok example_continuous
  ∧ columns example_float_df !! 0
    = Some ("A"%string, Float32Series [11; 21; 31])
  ∧ values example_continuous ["A"%string]
    = Ok (mk_ndarray float32 1 (map (fun v => [v]) [11; 21; 31])).
Proof.
  assert (H1 : df_wf example_float_df) by by_computation.
  assert (H2 : from_df reversed example_float_df continuous false
               = Ok example_continuous) by (by vm_compute).
  assert (H3 : columns example_float_df !! 0
               = Some ("A"%string, Float32Series [11; 21; 31])) by done.
  split; [done|]. split; [done|]. split; [done|].
  exact (from_df_continuous_values reversed example_float_df false
           example_continuous 0 "A"%string [11; 21; 31] H1 H2 H3).
Defined.

Lemma marginals_single_rows_witness :
  consistent example_three
  ∧ requested "A" (∅ : gmap string (list string)) = ["A"%string]
  ∧ valid_request example_three ["A"%string]
  ∧ ∃ counts rowval j cats,
      marginals example_three "A" ∅ true
      = Ok (counts, 1, Some rowval, None)
      ∧ column_of example_three "A" = Some j
      ∧ categories example_three ≫= (fun all => all !! j) = Some cats
      ∧ StronglySorted str_le rowval ∧ NoDup rowval
      ∧ (∀ label, label ∈ rowval
           ↔ ∃ v, v < domain_size example_three "A"
                  ∧ cats !! v = Some label)
      ∧ length counts = length rowval
      ∧ ∀ i label v, rowval !! i = Some label → cats !! v = Some label →
          counts !! i
          = Some [Z.of_nat (length (matching example_three
                                      ["A"%string] [v]))].
Proof.
  assert (H1 : consistent example_three) by exact example_consistent.
  assert (H2 : requested "A" (∅ : gmap string (list string))
               = ["A"%string]) by done.
  assert (H3 : valid_request example_three ["A"%string]) by by_computation.
  split; [done|]. split; [done|]. split; [done|].
  exact (marginals_single_rows example_three "A" ∅ H1 H2 H3).
Defined.

Lemma marginals_row_col_values_witness :
  consistent example_three
  ∧ example_parents !! "A"%string = Some ["C"; "B"]%string
  ∧ valid_request example_three ["A"; "C"; "B"]%string
  ∧ ∃ counts maxcol rowval colval j,
      marginals example_three "A" example_parents true
      = Ok (counts, maxcol, Some rowval, Some colval)
      ∧ column_of example_three "A" = Some j
      ∧ categories example_three ≫= (fun all => all !! j) = Some rowval
      ∧ length counts ≤ length rowval
      ∧ Forall2 (fun c d =>
           Dict.keys d = ["C"; "B"]%string
           ∧ Forall2 (fun code (kv : string * string) =>
                        label_of example_three kv.1 code = Some kv.2) c d)
         (unique (map (codes_of example_three ["C"; "B"]%string)
                      (rows (sample example_three))))
         colval.
Proof.
  assert (H1 : consistent example_three) by exact example_consistent.
  assert (H2 : example_parents !! "A"%string = Some ["C"; "B"]%string)
    by (by vm_compute).
  assert (H3 : ["C"; "B"]%string ≠ []) by done.
  assert (H4 : valid_request example_three ["A"; "C"; "B"]%string)
    by by_computation.
  split; [done|]. split; [done|]. split; [done|].
  exact (marginals_row_col_values example_three "A" ["C"; "B"]%string
           example_parents H1 H2 H3 H4).
Defined.

Lemma marginals_continuous_fails_witness :
  __init__ reversed example_floats continuous example_float_names
  = Ok example_continuous
  ∧ resample reversed example_continuous [(2%Z, Some 4%Z)]
    = Ok example_continuous_two
  ∧ marginals example_continuous_two "A" ∅ false
    = Raise (ValueError "NumPy.marginals() bad arg value").
Proof.
  assert (H1 : __init__ reversed example_floats continuous
                 example_float_names = Ok example_continuous)
    by exact example_continuous_init.
  assert (H2 : resample reversed example_continuous [(2%Z, Some 4%Z)]
               = Ok example_continuous_two) by (by vm_compute).
  split; [done|]. split; [done|].
  exact (marginals_continuous_fails reversed example_floats
           example_float_names example_continuous [(2%Z, Some 4%Z)]
           example_continuous_two "A" ∅ false H1 H2).
Defined.

Lemma values_categorical_fails_witness :
  __init__ reversed example_data categorical example_col_values
  = Ok example_ds
  ∧ resample reversed example_ds [(1%Z, None)] = Ok example_one
  ∧ values example_one ["A"%string]
    = Raise (if decide (["A"%string] = [])
             then TypeError "Pandas.values() bad arg type"
             else ValueError "Pandas.values() bad arg values").
Proof.
  assert (H1 : __init__ reversed example_data categorical example_col_values
               = Ok example_ds) by exact example_init.
  assert (H2 : resample reversed example_ds [(1%Z, None)] = Ok example_one)
    by (by vm_compute).
  split; [done|]. split; [done|].
  exact (values_categorical_fails reversed example_data example_col_values
           example_ds [(1%Z, None)] example_one ["A"%string] H1 H2).
Defined.

Lemma values_errors_witness :
  __init__ reversed example_floats continuous example_float_names
  = Ok example_continuous
  ∧ resample reversed example_continuous [(2%Z, Some 4%Z)]
    = Ok example_continuous_two
  ∧ values example_continuous_two ["A"; "A"]%string
    = Raise (ValueError "Pandas.values() bad arg values")
  ∧ values example_continuous_two ["C"]%string
    = Raise (ValueError "Pandas.values() bad arg values").
Proof.
  assert (H1 : __init__ reversed example_floats continuous
                 example_float_names = Ok example_continuous)
    by exact example_continuous_init.
  assert (H2 : resample reversed example_continuous [(2%Z, Some 4%Z)]
               = Ok example_continuous_two) by (by vm_compute).
  split; [done|]. split; [done|]. split.
  - destruct (values_errors reversed example_floats example_float_names
                example_continuous [(2%Z, Some 4%Z)] example_continuous_two
                ["A"; "A"]%string H1 H2) as (_ & Hbad & _).
    apply Hbad; [done|]. left. by_computation.
  - destruct (values_errors reversed example_floats example_float_names
                example_continuous [(2%Z, Some 4%Z)] example_continuous_two
                ["C"]%string H1 H2) as (_ & Hbad & _).
    apply Hbad; [done|]. right. exists "C"%string. split; by_computation.
Defined.

Lemma values_after_renaming_witness :
  randomise_names prefixed example_continuous (Some 1%Z)
  = Ok example_continuous_renamed
  ∧ Forall (fun kv => kv.2 ∉ nodes example_continuous_renamed)
           (orig_to_ext example_continuous_renamed)
  ∧ ∃ msg, values example_continuous_renamed ["XA"%string]
           = Raise (ValueError msg).
Proof.
  assert (H1 : randomise_names prefixed example_continuous (Some 1%Z)
               = Ok example_continuous_renamed) by (by vm_compute).
  assert (H2 : Forall (fun kv => kv.2 ∉ nodes example_continuous_renamed)
                      (orig_to_ext example_continuous_renamed))
    by by_computation.
  assert (H3 : ["XA"%string] ≠ []) by done.
  split; [done|]. split; [done|].
  exact (values_after_renaming prefixed example_continuous (Some 1%Z)
           example_continuous_renamed ["XA"%string] H1 H2 H3).
Defined.

Lemma randomise_names_consistent_witness :
  consistent example_three
  ∧ NoDup (Dict.keys (orig_to_ext example_three))
  ∧ assigns_names_only prefixed
  ∧ randomise_names prefixed example_three (Some 1%Z) = Ok example_renamed
  ∧ name_maps_wf example_renamed
  ∧ consistent example_renamed.
Proof.
  assert (H1 : consistent example_three) by exact example_consistent.
  assert (H2 : NoDup (Dict.keys (orig_to_ext example_three)))
    by by_computation.
  assert (H3 : assigns_names_only prefixed)
    by exact prefixed_assigns_names_only.
  assert (H4 : randomise_names prefixed example_three (Some 1%Z)
               = Ok example_renamed) by (by vm_compute).
  assert (H5 : name_maps_wf example_renamed) by exact example_renamed_maps.
  split; [done|]. split; [done|]. split; [done|]. split; [done|].
  split; [done|].
  exact (randomise_names_consistent prefixed example_three (Some 1%Z)
           example_renamed H1 H2 H3 H4 H5).
Defined.

Lemma set_N_after_renaming_witness :
  consistent example_three
  ∧ ncols (data example_three) = length (nodes example_three)
  ∧ assigns_names_only prefixed
  ∧ randomise_names prefixed example_three (Some 1%Z) = Ok example_renamed
  ∧ set_N reversed example_renamed 3 None = Ok example_reset
  ∧ Dict.keys (node_values example_reset) = nodes example_three
  ∧ ("XA"%string ∉ nodes example_three →
     marginals example_reset "XA" ∅ false
     = Raise (ValueError "NumPy.marginals() bad arg value")).
Proof.
  assert (H1 : consistent example_three) by exact example_consistent.
  assert (H2 : ncols (data example_three) = length (nodes example_three))
    by done.
  assert (H3 : assigns_names_only prefixed)
    by exact prefixed_assigns_names_only.
  assert (H4 : randomise_names prefixed example_three (Some 1%Z)
               = Ok example_renamed) by (by vm_compute).
  assert (H5 : set_N reversed example_renamed 3 None = Ok example_reset)
    by (by vm_compute).
  split; [done|]. split; [done|]. split; [done|]. split; [done|].
  split; [done|].
  exact (set_N_after_renaming reversed prefixed example_three (Some 1%Z)
           example_renamed 3 None example_reset "XA" ∅ false
           H1 H2 H3 H4 H5).
Defined.

Lemma as_df_round_trip_witness :
  df_wf example_df
  ∧ from_df reversed example_df categorical false = Ok example_ds
  ∧ as_df example_ds = Ok (frame_of example_df).
Proof.
  assert (H1 : df_wf example_df) by exact example_df_wf.
  assert (H2 : from_df reversed example_df categorical false = Ok example_ds)
    by exact example_from_df.
  split; [done|]. split; [done|].
  exact (as_df_round_trip reversed example_df categorical false example_ds
           H1 H2).
Defined.

Lemma as_df_head_witness :
  df_wf example_df
  ∧ from_df reversed example_df categorical false = Ok example_ds
  ∧ set_N reversed example_ds 1 None = Ok example_one
  ∧ as_df example_one = Ok (frame_of (df_head (Z.to_nat 1) example_df)).
Proof.
  assert (H1 : df_wf example_df) by exact example_df_wf.
  assert (H2 : from_df reversed example_df categorical false = Ok example_ds)
    by exact example_from_df.
  assert (H3 : set_N reversed example_ds 1 None = Ok example_one)
    by (by vm_compute).
  assert (H4 : @None Z = None ∨ @None Z = Some 0%Z) by (by left).
  split; [done|]. split; [done|]. split; [done|].
  exact (as_df_head reversed example_df categorical false example_ds 1 None
           example_one H1 H2 H3 H4).
Defined.

Lemma as_df_renamed_witness :
  df_wf example_df
  ∧ from_df reversed example_df categorical false = Ok example_ds
  ∧ assigns_names_only prefixed
  ∧ randomise_names prefixed example_ds (Some 1%Z) = Ok example_ds_renamed
  ∧ name_maps_wf example_ds_renamed
  ∧ as_df example_ds_renamed
    = Ok (frame_of
            (if decide (same_dict (orig_to_ext example_ds_renamed)
                                  (ext_to_orig example_ds_renamed))
             then example_df
             else df_rename example_df (orig_to_ext example_ds_renamed))).
Proof.
  assert (H1 : df_wf example_df) by exact example_df_wf.
  assert (H2 : from_df reversed example_df categorical false = Ok example_ds)
    by exact example_from_df.
  assert (H3 : assigns_names_only prefixed)
    by exact prefixed_assigns_names_only.
  assert (H4 : randomise_names prefixed example_ds (Some 1%Z)
               = Ok example_ds_renamed) by (by vm_compute).
  assert (H5 : name_maps_wf example_ds_renamed)
    by exact example_ds_renamed_maps.
  split; [done|]. split; [done|]. split; [done|]. split; [done|].
  split; [done|].
  exact (as_df_renamed reversed prefixed example_df categorical false
           example_ds (Some 1%Z) example_ds_renamed H1 H2 H3 H4 H5).
Defined.
